(** * Ayame Web SDK: the [Connection] class of [src/connection/index.js]

    A shallow embedding of the signaling and connection-lifecycle state
    machine.  The JavaScript object [this] together with the browser objects
    it owns (the WebSocket, the RTCPeerConnection, the RTCDataChannels) is an
    explicit [World]; every method and every event handler of the class is a
    computation in a small state-and-exception monad over that world.

    Conventions used throughout:
    - a Flow maybe-type [?T] (a field holding [null] or [undefined]) is an
      [option]; the code only ever tests such fields for truthiness, and
      [_ws] and [remoteStreamId], which the constructor leaves undefined,
      start as [None] like the fields it sets to [null];
    - the browser objects are external collaborators: what they answer
      (does [createOffer] resolve, how long does the closing handshake of the
      socket take, which browser is it) is read from the [Env] record of the
      world, a deterministic fake of the engine;
    - an [await] runs the awaited computation to completion.  The one place
      where the interleaving of two suspended calls matters, the polling
      timers of [disconnect], is also modelled timer round by timer round
      (see [Overlap]);
    - [_traceLog] writes to the debug console only; the console is a field
      of the world of its own. *)

From stdpp Require Import base strings list gmap.
From Stdlib Require Import Lia.

Open Scope string_scope.

(** ** Values exchanged with the outside *)

(** Errors: a thrown [Error]/[TypeError] object, or a bare string passed to
    [reject]. *)
Inductive Error :=
| JsError (name message : string)
| Reason (r : string).

#[global] Instance Error_eq_dec : EqDecision Error.
Proof. solve_decision. Defined.

Definition AlreadyConnectedError : Error := JsError "Error" "Connection Already Exists!".
Definition ChannelNotOpenError : Error := Reason "datachannel is not open".
Definition EngineNotReadyError : Error := Reason "PeerConnection Does Not Ready".
Definition ChannelAlreadyExistsError : Error := Reason "DataChannel Already Exists!".
Definition NotAFunction (prop : string) : Error := JsError "TypeError" (prop ++ " is not a function").
Definition NullDereference (prop : string) : Error := JsError "TypeError" ("cannot read " ++ prop ++ " of null").

Inductive ConnectionDirection := sendrecv | recvonly | sendonly.
Inductive VideoCodecOption := VP8 | VP9 | H264.
Inductive MediaKind := audio | video.

#[global] Instance ConnectionDirection_eq_dec : EqDecision ConnectionDirection.
Proof. solve_decision. Defined.
#[global] Instance VideoCodecOption_eq_dec : EqDecision VideoCodecOption.
Proof. solve_decision. Defined.
#[global] Instance MediaKind_eq_dec : EqDecision MediaKind.
Proof. solve_decision. Defined.

Record ConnectionAudioOption := {
  a_direction : ConnectionDirection;
  a_enabled : bool }.

(** [codec] is [null] or one of the three codecs, as in [defaultOptions];
    options that leave it [undefined] are not among those modelled. *)
Record ConnectionVideoOption := {
  v_codec : option VideoCodecOption;
  v_direction : ConnectionDirection;
  v_enabled : bool }.

Record ConnectionOptions := {
  o_audio : ConnectionAudioOption;
  o_video : ConnectionVideoOption;
  o_clientId : string;
  o_iceServers : list string }.

(** [defaultOptions] of [src/ayame.js]; the client id is [randomString(17)]
    there and a parameter here. *)
Definition defaultOptions (clientId : string) : ConnectionOptions :=
  {| o_audio := {| a_direction := sendrecv; a_enabled := true |};
     o_video := {| v_codec := None; v_direction := sendrecv; v_enabled := true |};
     o_clientId := clientId;
     o_iceServers := ["stun:stun.l.google.com:19302"] |}.

(** A media track is known by its id; a local stream by its tracks.  The
    order in which [getTracks()] lists them is the browser's; this one lists
    the audio tracks first. *)
Definition Track := nat.
Record MediaStream := {
  audioTracks : list Track;
  videoTracks : list Track }.
Definition getTracks (s : MediaStream) : list Track := (audioTracks s ++ videoTracks s)%list.

(** Session descriptions.  [removeCodec] lives in [utils], which is not part
    of the sources at hand: its application is kept symbolic. *)
Inductive Sdp :=
| RawSdp (text : string)
| removeCodec (sdp : Sdp) (codec : VideoCodecOption).

Inductive SdpType := offer | answer.
#[global] Instance SdpType_eq_dec : EqDecision SdpType.
Proof. solve_decision. Defined.

Record SessionDescription := {
  sd_type : SdpType;
  sd_sdp : Sdp }.

(** What [_sendWs] hands to [JSON.stringify]. *)
Inductive WireMessage :=
| RegisterMessage (roomId clientId : string) (authnMetadata : option string)
| Pong
| NullMessage
| Description (d : SessionDescription)
| Candidate (ice : string).


(** The result of [JSON.parse(event.data)] on a text frame. *)
Record JsonObject := {
  j_type : option string;
  j_authzMetadata : option string;
  j_ice : option string;
  j_sdp : string }.

Inductive Json :=
| JNull
| JPrimitive
| JObj (o : JsonObject).

(** [event.data] of a socket message: binary, or text whose parse either
    throws ([None]) or yields a value. *)
Inductive EventData :=
| Binary
| Text (parsed : option Json).

Definition message_of_type (t : string) : JsonObject :=
  {| j_type := Some t; j_authzMetadata := None; j_ice := None; j_sdp := "" |}.

(** ** The callback table *)

(* Records of mutable objects are compared field by field. *)
#[local] Set Primitive Projections.

(** A subscriber: one of the five initial [() => {}] of the constructor, or
    a function handed to [on].  Subscribers are arrow functions without
    properties of their own beyond the standard ones. *)
Inductive Callback :=
| Initial
| Subscriber (id : nat).

#[global] Instance Callback_eq_dec : EqDecision Callback.
Proof. solve_decision. Defined.

(** [_callbacks] is a plain object: its own properties, and its prototype,
    which is [Object.prototype] until a write to ["__proto__"] replaces it by
    the function written. *)
Record CallbackTable := {
  own : gmap string Callback;
  proto : option Callback }.

Definition object_prototype_keys : list string :=
  ["constructor"; "__defineGetter__"; "__defineSetter__"; "hasOwnProperty";
   "__lookupGetter__"; "__lookupSetter__"; "isPrototypeOf";
   "propertyIsEnumerable"; "toString"; "valueOf"; "__proto__"; "toLocaleString"].

(** String-keyed properties of a function object and of [Function.prototype];
    the first four cannot be written through an object inheriting them
    (non-writable, or an accessor whose setter throws): in strict code, as a
    class body is, such a write is a TypeError. *)
Definition function_readonly_keys : list string := ["length"; "name"; "arguments"; "caller"].
Definition function_prototype_keys : list string := ["apply"; "bind"; "call"].

Definition inherited (k : string) (t : CallbackTable) : bool :=
  match proto t with
  | None => bool_decide (k ∈ object_prototype_keys)
  | Some _ => bool_decide (k ∈ (function_readonly_keys ++ function_prototype_keys ++ object_prototype_keys)%list)
  end.

(** [kind in this._callbacks] *)
Definition has_property (k : string) (t : CallbackTable) : bool :=
  bool_decide (is_Some (own t !! k)) || inherited k t.

(** The table the constructor builds. *)
Definition initial_callbacks : CallbackTable :=
  {| own := <["connect" := Initial]> (<["disconnect" := Initial]> (<["addstream" := Initial]>
            (<["removestream" := Initial]> (<["data" := Initial]> ∅))));
     proto := None |}.

Definition event_kinds : list string :=
  ["connect"; "disconnect"; "addstream"; "removestream"; "data"].

(** ** Browser objects *)

(** [readyState] of a WebSocket: 0 CONNECTING, 1 OPEN, 2 CLOSING, 3 CLOSED. *)
Inductive WsReadyState := CONNECTING | OPEN | CLOSING | CLOSED.
#[global] Instance WsReadyState_eq_dec : EqDecision WsReadyState.
Proof. solve_decision. Defined.

(** The closures the class assigns to [ws.onclose], by source line. *)
Inductive WsOnClose :=
| OnCloseReject         (* line 276: reject('WS-CLOSED') *)
| OnCloseBeforeAccept   (* line 340: disconnect, then the disconnect callback with the raw event *)
| OnCloseAfterAccept    (* line 311: disconnect, then the disconnect callback tagged WS-CLOSED *)
| OnCloseNoop.          (* line 241: () => {} *)

Record WebSocket := {
  ws_readyState : WsReadyState;
  ws_onclose : WsOnClose;
  ws_onmessage : bool;   (* has [onopen] installed the message handler *)
  ws_closeDelay : nat    (* timer rounds the closing handshake still takes *) }.

Record Transceiver := {
  tr_kind : MediaKind;
  tr_direction : ConnectionDirection;
  tr_sender : option Track;
  tr_codecPreferences : option VideoCodecOption }.

Inductive IceConnectionState := IceChecking | IceConnected | IceFailed | IceOther.

Record PeerConnection := {
  pc_closed : bool;                (* signalingState == 'closed' *)
  pc_oniceconnectionstatechange : bool;   (* the handler of line 405, or () => {} *)
  pc_transceivers : list Transceiver;
  pc_localDescription : option SessionDescription;
  pc_remoteDescription : option SessionDescription;
  pc_tracks : list Track           (* the [tracks] array closed over by [ontrack] *) }.

Inductive DcReadyState := DcConnecting | DcOpen | DcClosing | DcClosed.
#[global] Instance DcReadyState_eq_dec : EqDecision DcReadyState.
Proof. solve_decision. Defined.

(** Who installed the handlers of a channel: [addDataChannel] (its [onopen]
    registers the channel, its [onclose]/[onerror] unregister the label) or
    [_onDataChannel] (they only log). *)
Inductive DcHandlers := LocalHandlers | RemoteHandlers.

Record DataChannel := {
  dc_label : string;
  dc_readyState : DcReadyState;
  dc_handlers : DcHandlers }.

(** ** The world *)

(** The engine's answers. *)
Record Env := {
  browser : string;                          (* browser() of utils *)
  socket_constructible : bool;               (* new WebSocket(url) returns *)
  engine_constructible : bool;               (* new RTCPeerConnection(cfg) returns *)
  has_setCodecPreferences : bool;            (* typeof t.setCodecPreferences !== 'undefined' *)
  createOffer_result : option string;        (* None: createOffer rejects *)
  createAnswer_result : option string;       (* None: createAnswer rejects *)
  setLocalDescription_ok : bool;
  setRemoteDescription_ok : bool;
  addIceCandidate_ok : bool;
  socket_closeDelay : nat                    (* closing latency of a new socket *) }.

(** Argument of a public callback. *)
Inductive Payload :=
| ConnectInfo (authzMetadata : option string)
| Disconnected (reason : string) (error : option Error)
| RawCloseEvent
| TrackEvent (track : Track) (streamId : string)
| DataEvent (channelId : string) (data : string)
| RawMessageEvent.

(** What the class does to the outside, in order. *)
Inductive Effect :=
| WsSend (m : WireMessage)
| NewPeerConnection
| DcSend (channel : nat) (payload : string)
| TrackStop (t : Track)
| Fire (kind : string) (cb : Callback) (arg : Payload)
| Unhandled (e : Error).

(** The promise returned by the pending [connect()]. *)
Inductive PromiseState :=
| Unsettled
| Fulfilled
| Rejected (e : Error).

Record Connection := {
  debug : bool;
  roomId : string;
  signalingUrl : string;
  options : ConnectionOptions;
  stream : option MediaStream;
  remoteStreamId : option string;
  authnMetadata : option string;
  _isNegotiating : bool;
  _removeCodec : bool;
  _ws : option WebSocket;
  _pc : option PeerConnection;
  _dataChannels : list nat;
  _callbacks : CallbackTable }.

Record World := {
  this : Connection;
  channels : list DataChannel;        (* every RTCDataChannel object, by handle *)
  trace : list Effect;                (* oldest first *)
  console : list string;              (* titles passed to traceLog *)
  connecting : option PromiseState;   (* outcome of the latest connect() *)
  env : Env }.

(** Field updates of [this] and of the world. *)
Definition set_stream (v : option MediaStream) (c : Connection) : Connection :=
  {| debug := debug c; roomId := roomId c; signalingUrl := signalingUrl c; options := options c;
     stream := v; remoteStreamId := remoteStreamId c; authnMetadata := authnMetadata c;
     _isNegotiating := _isNegotiating c; _removeCodec := _removeCodec c; _ws := _ws c; _pc := _pc c;
     _dataChannels := _dataChannels c; _callbacks := _callbacks c |}.
Definition set_remoteStreamId (v : option string) (c : Connection) : Connection :=
  {| debug := debug c; roomId := roomId c; signalingUrl := signalingUrl c; options := options c;
     stream := stream c; remoteStreamId := v; authnMetadata := authnMetadata c;
     _isNegotiating := _isNegotiating c; _removeCodec := _removeCodec c; _ws := _ws c; _pc := _pc c;
     _dataChannels := _dataChannels c; _callbacks := _callbacks c |}.
Definition set_authnMetadata (v : option string) (c : Connection) : Connection :=
  {| debug := debug c; roomId := roomId c; signalingUrl := signalingUrl c; options := options c;
     stream := stream c; remoteStreamId := remoteStreamId c; authnMetadata := v;
     _isNegotiating := _isNegotiating c; _removeCodec := _removeCodec c; _ws := _ws c; _pc := _pc c;
     _dataChannels := _dataChannels c; _callbacks := _callbacks c |}.
Definition set_isNegotiating (v : bool) (c : Connection) : Connection :=
  {| debug := debug c; roomId := roomId c; signalingUrl := signalingUrl c; options := options c;
     stream := stream c; remoteStreamId := remoteStreamId c; authnMetadata := authnMetadata c;
     _isNegotiating := v; _removeCodec := _removeCodec c; _ws := _ws c; _pc := _pc c;
     _dataChannels := _dataChannels c; _callbacks := _callbacks c |}.
Definition set_removeCodec (v : bool) (c : Connection) : Connection :=
  {| debug := debug c; roomId := roomId c; signalingUrl := signalingUrl c; options := options c;
     stream := stream c; remoteStreamId := remoteStreamId c; authnMetadata := authnMetadata c;
     _isNegotiating := _isNegotiating c; _removeCodec := v; _ws := _ws c; _pc := _pc c;
     _dataChannels := _dataChannels c; _callbacks := _callbacks c |}.
Definition set_ws (v : option WebSocket) (c : Connection) : Connection :=
  {| debug := debug c; roomId := roomId c; signalingUrl := signalingUrl c; options := options c;
     stream := stream c; remoteStreamId := remoteStreamId c; authnMetadata := authnMetadata c;
     _isNegotiating := _isNegotiating c; _removeCodec := _removeCodec c; _ws := v; _pc := _pc c;
     _dataChannels := _dataChannels c; _callbacks := _callbacks c |}.
Definition set_pc (v : option PeerConnection) (c : Connection) : Connection :=
  {| debug := debug c; roomId := roomId c; signalingUrl := signalingUrl c; options := options c;
     stream := stream c; remoteStreamId := remoteStreamId c; authnMetadata := authnMetadata c;
     _isNegotiating := _isNegotiating c; _removeCodec := _removeCodec c; _ws := _ws c; _pc := v;
     _dataChannels := _dataChannels c; _callbacks := _callbacks c |}.
Definition set_dataChannels (v : list nat) (c : Connection) : Connection :=
  {| debug := debug c; roomId := roomId c; signalingUrl := signalingUrl c; options := options c;
     stream := stream c; remoteStreamId := remoteStreamId c; authnMetadata := authnMetadata c;
     _isNegotiating := _isNegotiating c; _removeCodec := _removeCodec c; _ws := _ws c; _pc := _pc c;
     _dataChannels := v; _callbacks := _callbacks c |}.
Definition set_callbacks (v : CallbackTable) (c : Connection) : Connection :=
  {| debug := debug c; roomId := roomId c; signalingUrl := signalingUrl c; options := options c;
     stream := stream c; remoteStreamId := remoteStreamId c; authnMetadata := authnMetadata c;
     _isNegotiating := _isNegotiating c; _removeCodec := _removeCodec c; _ws := _ws c; _pc := _pc c;
     _dataChannels := _dataChannels c; _callbacks := v |}.

Definition with_this (f : Connection → Connection) (w : World) : World :=
  {| this := f (this w); channels := channels w; trace := trace w; console := console w;
     connecting := connecting w; env := env w |}.
Definition with_channels (f : list DataChannel → list DataChannel) (w : World) : World :=
  {| this := this w; channels := f (channels w); trace := trace w; console := console w;
     connecting := connecting w; env := env w |}.
Definition emit (e : Effect) (w : World) : World :=
  {| this := this w; channels := channels w; trace := (trace w ++ [e])%list; console := console w;
     connecting := connecting w; env := env w |}.
Definition log (title : string) (w : World) : World :=
  {| this := this w; channels := channels w; trace := trace w; console := (console w ++ [title])%list;
     connecting := connecting w; env := env w |}.
Definition with_connecting (p : option PromiseState) (w : World) : World :=
  {| this := this w; channels := channels w; trace := trace w; console := console w;
     connecting := p; env := env w |}.

(** The constructor. *)
Definition new_Connection (url room : string) (opts : ConnectionOptions) (dbg : bool) : Connection :=
  {| debug := dbg; roomId := room; signalingUrl := url; options := opts;
     stream := None; remoteStreamId := None; authnMetadata := None;
     _isNegotiating := false; _removeCodec := false; _ws := None; _pc := None;
     _dataChannels := []; _callbacks := initial_callbacks |}.

(** [connection] of [src/ayame.js] *)
Definition connection (signalingUrl roomId : string) (opts : ConnectionOptions) (dbg : bool)
  : Connection :=
  new_Connection signalingUrl roomId opts dbg.

Definition new_World (c : Connection) (e : Env) : World :=
  {| this := c; channels := []; trace := []; console := []; connecting := None; env := e |}.

(** ** The monad: state that survives a throw, exceptions, and a third
    result for a wait that outlives the timer rounds it was given. *)
Inductive Res (A : Type) :=
| Ok (a : A)
| Throw (e : Error)
| StillWaiting.
Arguments Ok {A} a.
Arguments Throw {A} e.
Arguments StillWaiting {A}.

Definition M (A : Type) : Type := World → Res A * World.

Definition ret {A} (a : A) : M A := fun w => (Ok a, w).
Definition bind {A B} (m : M A) (k : A → M B) : M B :=
  fun w => match m w with
           | (Ok a, w') => k a w'
           | (Throw e, w') => (Throw e, w')
           | (StillWaiting, w') => (StillWaiting, w')
           end.
Definition throw {A} (e : Error) : M A := fun w => (Throw e, w).
Definition gets {A} (f : World → A) : M A := fun w => (Ok (f w), w).
Definition modify (f : World → World) : M unit := fun w => (Ok tt, f w).
(** [try { m } catch (error) { h error }] *)
Definition try_catch {A} (m : M A) (h : Error → M A) : M A :=
  fun w => match m w with
           | (Throw e, w') => h e w'
           | r => r
           end.
(** A call to an async function whose promise nobody awaits: a rejection
    stays unhandled and the caller goes on. *)
Definition detached (m : M unit) : M unit :=
  fun w => match m w with
           | (Throw e, w') => (Ok tt, emit (Unhandled e) w')
           | r => r
           end.

Declare Scope js_scope.
Delimit Scope js_scope with js.
Notation "x <- m ;; k" := (bind m (fun x => k))
  (at level 100, m at next level, right associativity) : js_scope.
Notation "m ;; k" := (bind m (fun _ => k))
  (at level 100, right associativity) : js_scope.
Open Scope js_scope.

Definition when (b : bool) (m : M unit) : M unit := if b then m else ret tt.

Fixpoint forEach {A} (l : list A) (f : A → M unit) : M unit :=
  match l with
  | [] => ret tt
  | x :: l' => f x ;; forEach l' f
  end.

(** ** Small helpers of the class *)

(** [_traceLog], line 548 *)
Definition _traceLog (title : string) : M unit :=
  dbg <- gets (fun w => debug (this w)) ;;
  if dbg then modify (log title) else ret tt.

(** [ws.send(text)]: throws while CONNECTING, transmits while OPEN, and
    silently drops the data once the socket is closing or closed. *)
Definition ws_send (s : WebSocket) (m : WireMessage) : M unit :=
  match ws_readyState s with
  | CONNECTING => throw (JsError "InvalidStateError" "send")
  | OPEN => modify (emit (WsSend m))
  | _ => ret tt
  end.

(** [_sendWs], line 542 *)
Definition _sendWs (m : WireMessage) : M unit :=
  ws <- gets (fun w => _ws (this w)) ;;
  match ws with
  | Some s => ws_send s m
  | None => ret tt
  end.

(** [_sendSdp], line 538 (the argument is [pc.localDescription], which is
    [null] until a description has been set) *)
Definition _sendSdp (d : option SessionDescription) : M unit :=
  match d with
  | Some d => _sendWs (Description d)
  | None => _sendWs NullMessage
  end.

(** [_sendIceCandidate], line 533 *)
Definition _sendIceCandidate (candidate : string) : M unit :=
  _sendWs (Candidate candidate).

Definition label_is (chs : list DataChannel) (channelId : string) (id : nat) : bool :=
  match chs !! id with
  | Some d => bool_decide (dc_label d = channelId)
  | None => false
  end.

(** [_findDataChannel], line 564: the first registered channel with the label *)
Definition find_channel (w : World) (channelId : string) : option nat :=
  List.find (label_is (channels w) channelId) (_dataChannels (this w)).
Definition _findDataChannel (channelId : string) : M (option nat) :=
  gets (fun w => find_channel w channelId).

(** [this._callbacks.kind(arg)].  The class calls the kinds connect,
    disconnect, addstream, data and close; none of them names a property of
    [Object.prototype] or of a function, so the call is decided by the own
    properties: a missing one is [undefined], and calling it a TypeError. *)
Definition invoke (kind : string) (arg : Payload) : M unit :=
  t <- gets (fun w => _callbacks (this w)) ;;
  match own t !! kind with
  | Some cb => modify (emit (Fire kind cb arg))
  | None => throw (NotAFunction kind)
  end.

(** [resolve()] and [reject(e)] of the promise of [_signaling]: a settled
    promise stays as it is. *)
Definition settle (p : PromiseState) : M unit :=
  modify (fun w => match connecting w with
                   | Some Unsettled => with_connecting (Some p) w
                   | _ => w
                   end).

(** ** [on], line 138 *)

(** [this._callbacks[kind] = callback] in strict code. *)
Definition set_property (k : string) (v : Callback) (t : CallbackTable) : Error + CallbackTable :=
  if bool_decide (is_Some (own t !! k)) then inr {| own := <[k := v]> (own t); proto := proto t |}
  else if bool_decide (k = "__proto__") then inr {| own := own t; proto := Some v |}
  else if bool_decide (is_Some (proto t)) && bool_decide (k ∈ function_readonly_keys)
       then inl (JsError "TypeError" ("cannot assign to read only property " ++ k))
  else inr {| own := <[k := v]> (own t); proto := proto t |}.

Definition on (kind : string) (callback : Callback) : M unit :=
  t <- gets (fun w => _callbacks (this w)) ;;
  if has_property kind t then
    match set_property kind callback t with
    | inr t' => modify (with_this (set_callbacks t'))
    | inl e => throw e
    end
  else ret tt.

(** ** Data channels *)

Definition new_channel (label : string) (h : DcHandlers) (st : DcReadyState) : M nat :=
  id <- gets (fun w => length (channels w)) ;;
  modify (with_channels (fun chs => (chs ++ [{| dc_label := label; dc_readyState := st; dc_handlers := h |}])%list)) ;;
  ret id.

(** [addDataChannel], line 161.  [pc.createDataChannel] throws on a closed
    connection; a throw inside the executor rejects the promise. *)
Definition addDataChannel (channelId : string) : M unit :=
  pc <- gets (fun w => _pc (this w)) ;;
  match pc with
  | None => throw EngineNotReadyError
  | Some p =>
      dataChannel <- _findDataChannel channelId ;;
      match dataChannel with
      | Some _ => throw ChannelAlreadyExistsError
      | None =>
          if pc_closed p then throw (JsError "InvalidStateError" "createDataChannel")
          else (_ <- new_channel channelId LocalHandlers DcConnecting ;; ret tt)
      end
  end.

(** [sendData], line 193 *)
Definition sendData (params : string) (channelId : string) : M unit :=
  _traceLog "datachannel sendData=>" ;;
  dataChannel <- _findDataChannel channelId ;;
  chs <- gets (fun w => channels w) ;;
  match dataChannel with
  | Some id =>
      match chs !! id with
      | Some d =>
          if bool_decide (dc_readyState d = DcOpen)
          then modify (emit (DcSend id params))
          else throw ChannelNotOpenError
      | None => throw ChannelNotOpenError
      end
  | None => throw ChannelNotOpenError
  end.

Definition unregister_label (channelId : string) : M unit :=
  modify (fun w => with_this (set_dataChannels
    (filter (fun id => label_is (channels w) channelId id = false) (_dataChannels (this w)))) w).

Definition handlers_of (id : nat) : M (option DataChannel) :=
  gets (fun w => channels w !! id).

(** [dataChannel.onopen] (lines 182 and 431) *)
Definition dc_onopen (id : nat) : M unit :=
  d <- handlers_of id ;;
  match d with
  | Some d =>
      _traceLog "datachannel onopen=>" ;;
      match dc_handlers d with
      | LocalHandlers => modify (fun w => with_this (set_dataChannels (_dataChannels (this w) ++ [id])%list) w)
      | RemoteHandlers => ret tt
      end
  | None => ret tt
  end.

(** [dataChannel.onclose] (lines 169 and 434) *)
Definition dc_onclose (id : nat) : M unit :=
  d <- handlers_of id ;;
  match d with
  | Some d =>
      _traceLog "datachannel onclosed=>" ;;
      match dc_handlers d with
      | LocalHandlers => unregister_label (dc_label d)
      | RemoteHandlers => ret tt
      end
  | None => ret tt
  end.

(** [dataChannel.onerror] (lines 173 and 437) *)
Definition dc_onerror (id : nat) : M unit :=
  d <- handlers_of id ;;
  match d with
  | Some d =>
      _traceLog "datachannel onerror=>" ;;
      match dc_handlers d with
      | LocalHandlers => unregister_label (dc_label d)
      | RemoteHandlers => ret tt
      end
  | None => ret tt
  end.

(** [dataChannel.onmessage] (lines 177 and 440) *)
Definition dc_onmessage (id : nat) (data : string) : M unit :=
  d <- handlers_of id ;;
  match d with
  | Some d =>
      _traceLog "datachannel onmessage=>" ;;
      invoke "data" (DataEvent (dc_label d) data)
  | None => ret tt
  end.

Definition set_handlers (h : DcHandlers) (d : DataChannel) : DataChannel :=
  {| dc_label := dc_label d; dc_readyState := dc_readyState d; dc_handlers := h |}.
Definition set_readyState (st : DcReadyState) (d : DataChannel) : DataChannel :=
  {| dc_label := dc_label d; dc_readyState := st; dc_handlers := dc_handlers d |}.

(** [_onDataChannel], line 424: [event.channel] is the channel [id]; an event
    without channel gets past line 426 only to fail at line 428, which reads
    its label. *)
Definition _onDataChannel (id : nat) : M unit :=
  _traceLog "on data channel" ;;
  pc <- gets (fun w => _pc (this w)) ;;
  d <- handlers_of id ;;
  match pc, d with
  | Some _, Some d =>
      let channelId := dc_label d in
      if bool_decide (channelId = "") then ret tt
      else
        modify (with_channels (alter (set_handlers RemoteHandlers) id)) ;;
        found <- _findDataChannel channelId ;;
        match found with
        | None => modify (fun w => with_this (set_dataChannels (_dataChannels (this w) ++ [id])%list) w)
        | Some _ =>
            modify (fun w => with_this (set_dataChannels
              (map (fun c => if label_is (channels w) channelId c then id else c)
                   (_dataChannels (this w)))) w)
        end
  | Some _, None => throw (NullDereference "label")
  | None, _ => ret tt
  end.

(** ** The peer connection *)

Definition with_pc (f : PeerConnection → PeerConnection) (w : World) : World :=
  with_this (fun c => set_pc (f <$> _pc c) c) w.
Definition with_ws (f : WebSocket → WebSocket) (w : World) : World :=
  with_this (fun c => set_ws (f <$> _ws c) c) w.

Definition pc_set_closed (p : PeerConnection) : PeerConnection :=
  {| pc_closed := true; pc_oniceconnectionstatechange := pc_oniceconnectionstatechange p;
     pc_transceivers := pc_transceivers p; pc_localDescription := pc_localDescription p;
     pc_remoteDescription := pc_remoteDescription p; pc_tracks := pc_tracks p |}.
Definition pc_set_onice (b : bool) (p : PeerConnection) : PeerConnection :=
  {| pc_closed := pc_closed p; pc_oniceconnectionstatechange := b;
     pc_transceivers := pc_transceivers p; pc_localDescription := pc_localDescription p;
     pc_remoteDescription := pc_remoteDescription p; pc_tracks := pc_tracks p |}.
Definition pc_set_transceivers (l : list Transceiver) (p : PeerConnection) : PeerConnection :=
  {| pc_closed := pc_closed p; pc_oniceconnectionstatechange := pc_oniceconnectionstatechange p;
     pc_transceivers := l; pc_localDescription := pc_localDescription p;
     pc_remoteDescription := pc_remoteDescription p; pc_tracks := pc_tracks p |}.
Definition pc_set_local (d : SessionDescription) (p : PeerConnection) : PeerConnection :=
  {| pc_closed := pc_closed p; pc_oniceconnectionstatechange := pc_oniceconnectionstatechange p;
     pc_transceivers := pc_transceivers p; pc_localDescription := Some d;
     pc_remoteDescription := pc_remoteDescription p; pc_tracks := pc_tracks p |}.
Definition pc_set_remote (d : SessionDescription) (p : PeerConnection) : PeerConnection :=
  {| pc_closed := pc_closed p; pc_oniceconnectionstatechange := pc_oniceconnectionstatechange p;
     pc_transceivers := pc_transceivers p; pc_localDescription := pc_localDescription p;
     pc_remoteDescription := Some d; pc_tracks := pc_tracks p |}.
Definition pc_push_track (t : Track) (p : PeerConnection) : PeerConnection :=
  {| pc_closed := pc_closed p; pc_oniceconnectionstatechange := pc_oniceconnectionstatechange p;
     pc_transceivers := pc_transceivers p; pc_localDescription := pc_localDescription p;
     pc_remoteDescription := pc_remoteDescription p; pc_tracks := (pc_tracks p ++ [t])%list |}.

(** [pc.addTransceiver(kind, {direction})] and [pc.addTrack(track, stream)]:
    both append a transceiver; the second one carries the track. *)
Definition addTransceiver (k : MediaKind) (d : ConnectionDirection) (p : PeerConnection) : PeerConnection :=
  pc_set_transceivers (pc_transceivers p ++
    [{| tr_kind := k; tr_direction := d; tr_sender := None; tr_codecPreferences := None |}])%list p.
Definition addTrack (k : MediaKind) (t : Track) (p : PeerConnection) : PeerConnection :=
  pc_set_transceivers (pc_transceivers p ++
    [{| tr_kind := k; tr_direction := sendrecv; tr_sender := Some t; tr_codecPreferences := None |}])%list p.

(** [_getTransceiver], line 553: the last transceiver whose sender carries
    the track just added; its position in [pc.getTransceivers()]. *)
Definition sends (k : MediaKind) (t : Track) (tr : Transceiver) : bool :=
  bool_decide (tr_kind tr = k) && bool_decide (tr_sender tr = Some t).
Fixpoint last_index (f : Transceiver → bool) (l : list Transceiver) (i : nat) (acc : option nat) : option nat :=
  match l with
  | [] => acc
  | t :: l' => last_index f l' (S i) (if f t then Some i else acc)
  end.
Definition _getTransceiver (p : PeerConnection) (k : MediaKind) (t : Track) : M nat :=
  match last_index (sends k t) (pc_transceivers p) 0 None with
  | Some i => ret i
  | None => throw (JsError "Error" "invalid transceiver")
  end.

Definition setCodecPreferences (i : nat) (c : VideoCodecOption) (p : PeerConnection) : PeerConnection :=
  pc_set_transceivers (alter (fun tr =>
    {| tr_kind := tr_kind tr; tr_direction := tr_direction tr; tr_sender := tr_sender tr;
       tr_codecPreferences := Some c |}) i (pc_transceivers p)) p.

(** [_isVideoCodecSpecified], line 487 *)
Definition _isVideoCodecSpecified (o : ConnectionOptions) : bool :=
  v_enabled (o_video o) && bool_decide (v_codec (o_video o) ≠ None).

(** The codec block shared by both video branches of
    [_createPeerConnection] (lines 364-373 and 376-385). *)
Definition prefer_codec (o : ConnectionOptions) (i : nat) (p : PeerConnection) : M PeerConnection :=
  if _isVideoCodecSpecified o then
    supported <- gets (fun w => has_setCodecPreferences (env w)) ;;
    if supported then
      _traceLog "video codecs=" ;;
      ret (setCodecPreferences i (default VP9 (v_codec (o_video o))) p)
    else
      modify (with_this (set_removeCodec true)) ;;
      ret p
  else ret p.

Definition fresh_pc : PeerConnection :=
  {| pc_closed := false; pc_oniceconnectionstatechange := false; pc_transceivers := [];
     pc_localDescription := None; pc_remoteDescription := None; pc_tracks := [] |}.

(** [_createPeerConnection], line 348.  The handlers it installs are the
    functions [pc_ontrack], [pc_onicecandidate],
    [pc_oniceconnectionstatechange_handler] and [_onDataChannel] below. *)
Definition _createPeerConnection : M PeerConnection :=
  constructible <- gets (fun w => engine_constructible (env w)) ;;
  if negb constructible then throw (JsError "Error" "RTCPeerConnection") else
  modify (emit NewPeerConnection) ;;
  c <- gets (fun w => this w) ;;
  let o := options c in
  let pc := fresh_pc in
  let audioTrack := s ← stream c; head (audioTracks s) in
  let pc :=
    match audioTrack with
    | Some t =>
        if bool_decide (a_direction (o_audio o) ≠ recvonly) then addTrack audio t pc
        else if a_enabled (o_audio o) then addTransceiver audio recvonly pc else pc
    | None => if a_enabled (o_audio o) then addTransceiver audio recvonly pc else pc
    end in
  let videoTrack := s ← stream c; head (videoTracks s) in
  pc <- match videoTrack with
        | Some t =>
            if bool_decide (v_direction (o_video o) ≠ recvonly) then
              let pc := addTrack video t pc in
              i <- _getTransceiver pc video t ;;
              prefer_codec o i pc
            else if v_enabled (o_video o) then
              prefer_codec o (length (pc_transceivers pc)) (addTransceiver video recvonly pc)
            else ret pc
        | None =>
            if v_enabled (o_video o) then
              prefer_codec o (length (pc_transceivers pc)) (addTransceiver video recvonly pc)
            else ret pc
        end ;;
  ret (pc_set_onice true pc).

(** The engine's asynchronous operations, answered by the environment. *)
Definition createOffer : M SessionDescription :=
  r <- gets (fun w => createOffer_result (env w)) ;;
  match r with
  | Some text => ret {| sd_type := offer; sd_sdp := RawSdp text |}
  | None => throw (JsError "OperationError" "createOffer")
  end.
Definition createAnswer : M SessionDescription :=
  r <- gets (fun w => createAnswer_result (env w)) ;;
  match r with
  | Some text => ret {| sd_type := answer; sd_sdp := RawSdp text |}
  | None => throw (JsError "OperationError" "createAnswer")
  end.
(** [this._pc.setLocalDescription(d)]: [this._pc] is read when the call is
    made. *)
Definition setLocalDescription (d : SessionDescription) : M unit :=
  pc <- gets (fun w => _pc (this w)) ;;
  ok <- gets (fun w => setLocalDescription_ok (env w)) ;;
  match pc with
  | None => throw (NullDereference "setLocalDescription")
  | Some _ => if ok then modify (with_pc (pc_set_local d))
              else throw (JsError "OperationError" "setLocalDescription")
  end.
Definition setRemoteDescription (d : SessionDescription) : M unit :=
  pc <- gets (fun w => _pc (this w)) ;;
  ok <- gets (fun w => setRemoteDescription_ok (env w)) ;;
  match pc with
  | None => throw (NullDereference "setRemoteDescription")
  | Some _ => if ok then modify (with_pc (pc_set_remote d))
              else throw (JsError "OperationError" "setRemoteDescription")
  end.
Definition localDescription : M (option SessionDescription) :=
  pc <- gets (fun w => _pc (this w)) ;;
  match pc with
  | None => throw (NullDereference "localDescription")
  | Some p => ret (pc_localDescription p)
  end.

(** The [codecs.forEach] of lines 475-480. *)
Definition strip_codecs (keep : VideoCodecOption) (s : Sdp) : Sdp :=
  fold_left (fun sdp codec => if bool_decide (keep ≠ codec) then removeCodec sdp codec else sdp)
            [VP8; VP9; H264] s.

(** [_sendOffer], line 458 *)
Definition _sendOffer : M unit :=
  pc <- gets (fun w => _pc (this w)) ;;
  match pc with
  | None => ret tt
  | Some _ =>
      b <- gets (fun w => browser (env w)) ;;
      o <- gets (fun w => options (this w)) ;;
      when (bool_decide (b = "safari"))
        (when (v_enabled (o_video o) && bool_decide (v_direction (o_video o) = sendrecv))
              (modify (with_pc (addTransceiver video recvonly))) ;;
         when (a_enabled (o_audio o) && bool_decide (a_direction (o_audio o) = sendrecv))
              (modify (with_pc (addTransceiver audio recvonly)))) ;;
      created <- createOffer ;;
      rc <- gets (fun w => _removeCodec (this w)) ;;
      let sent :=
        match rc, v_codec (o_video o) with
        | true, Some keep => {| sd_type := sd_type created; sd_sdp := strip_codecs keep (sd_sdp created) |}
        | _, _ => created
        end in
      _traceLog "create offer sdp, sdp=" ;;
      setLocalDescription sent ;;
      d <- localDescription ;;
      _sendSdp d
  end.

(** ** [disconnect], line 210 *)

Definition ws_set_readyState (st : WsReadyState) (s : WebSocket) : WebSocket :=
  {| ws_readyState := st; ws_onclose := ws_onclose s; ws_onmessage := ws_onmessage s;
     ws_closeDelay := ws_closeDelay s |}.
Definition ws_set_onclose (h : WsOnClose) (s : WebSocket) : WebSocket :=
  {| ws_readyState := ws_readyState s; ws_onclose := h; ws_onmessage := ws_onmessage s;
     ws_closeDelay := ws_closeDelay s |}.
Definition ws_set_onmessage (b : bool) (s : WebSocket) : WebSocket :=
  {| ws_readyState := ws_readyState s; ws_onclose := ws_onclose s; ws_onmessage := b;
     ws_closeDelay := ws_closeDelay s |}.

(** [dataChannel.close()] *)
Definition dc_close (d : DataChannel) : DataChannel :=
  match dc_readyState d with
  | DcConnecting | DcOpen => set_readyState DcClosing d
  | _ => d
  end.
(** [ws.close()]: starts the closing handshake unless it is under way or over. *)
Definition ws_close (s : WebSocket) : WebSocket :=
  match ws_readyState s with
  | CONNECTING | OPEN => ws_set_readyState CLOSING s
  | _ => s
  end.

(** Which of the two polling timers of a [disconnect] call are running. *)
Record Pollers := {
  poll_pc : bool;
  poll_ws : bool }.

(** The executor of [closePeerConnection], lines 214-237; answers whether
    it left its timer running. *)
Definition closePeerConnection : M bool :=
  pc <- gets (fun w => _pc (this w)) ;;
  b <- gets (fun w => browser (env w)) ;;
  match pc with
  | Some p =>
      if bool_decide (b = "safari") then
        modify (with_pc (pc_set_onice false)) ;;
        modify (with_pc pc_set_closed) ;;
        modify (with_this (set_pc None)) ;;
        ret false
      else if pc_closed p then ret false
      else
        modify (with_pc (pc_set_onice false)) ;;
        modify (with_pc pc_set_closed) ;;
        ret true
  | None => ret false
  end.

(** The executor of [closeWebSocketConnection], lines 238-253. *)
Definition closeWebSocketConnection : M bool :=
  ws <- gets (fun w => _ws (this w)) ;;
  match ws with
  | None => ret false
  | Some s =>
      if bool_decide (ws_readyState s = CLOSED) then ret false
      else
        modify (with_ws (ws_set_onclose OnCloseNoop)) ;;
        modify (with_ws ws_close) ;;
        ret true
  end.

(** Lines 211-262: everything [disconnect] does before it suspends on
    [Promise.all]. *)
Definition disconnect_begin : M Pollers :=
  registered <- gets (fun w => _dataChannels (this w)) ;;
  forEach registered (fun id => modify (with_channels (alter dc_close id))) ;;
  ppc <- closePeerConnection ;;
  pws <- closeWebSocketConnection ;;
  s <- gets (fun w => stream (this w)) ;;
  match s with
  | Some s => forEach (getTracks s) (fun t => modify (emit (TrackStop t)))
  | None => ret tt
  end ;;
  modify (with_this (set_remoteStreamId None)) ;;
  modify (with_this (set_stream None)) ;;
  modify (with_this (set_authnMetadata None)) ;;
  modify (with_this (set_isNegotiating false)) ;;
  ret {| poll_pc := ppc; poll_ws := pws |}.

(** The timer callback of lines 226-235: [true] while it keeps polling. *)
Definition timer_pc : M bool :=
  pc <- gets (fun w => _pc (this w)) ;;
  match pc with
  | None => throw (Reason "PeerConnection Closing Error")
  | Some p => ret (negb (pc_closed p))
  end.

(** The timer callback of lines 242-251. *)
Definition timer_ws : M bool :=
  ws <- gets (fun w => _ws (this w)) ;;
  match ws with
  | None => throw (Reason "WebSocket Closing Error")
  | Some s => ret (negb (bool_decide (ws_readyState s = CLOSED)))
  end.

(** One firing of the timers a call still has, the one created first
    first.  A throw is the [reject] that fails [Promise.all]. *)
Definition run_timers (p : Pollers) : M Pollers :=
  ppc <- (if poll_pc p then timer_pc else ret false) ;;
  pws <- (if poll_ws p then timer_ws else ret false) ;;
  ret {| poll_pc := ppc; poll_ws := pws |}.

(** 800 ms of the outside world: a closing socket gets nearer to CLOSED.
    While a call of [disconnect] waits the socket gives no event to the
    class: its close event finds the empty handler of line 241, and the error
    event of a socket that [close()] interrupts while connecting, whose
    handler (line 279) would be one more call of [disconnect] made meanwhile
    (see [Overlap] for such calls), is not delivered. *)
Definition tick_ws (s : WebSocket) : WebSocket :=
  match ws_readyState s, ws_closeDelay s with
  | CLOSING, 0 => ws_set_readyState CLOSED s
  | CLOSING, S n =>
      {| ws_readyState := CLOSING; ws_onclose := ws_onclose s; ws_onmessage := ws_onmessage s;
         ws_closeDelay := n |}
  | _, _ => s
  end.
Definition env_tick : World → World := with_ws tick_ws.

Definition settled (p : Pollers) : bool := negb (poll_pc p) && negb (poll_ws p).

(** [await Promise.all([closeWebSocketConnection, closePeerConnection])],
    observed for at most [rounds] timer periods. *)
Fixpoint await_closing (rounds : nat) (p : Pollers) : M unit :=
  if settled p then ret tt
  else match rounds with
       | 0 => fun w => (StillWaiting, w)
       | S r =>
           modify env_tick ;;
           p' <- run_timers p ;;
           await_closing r p'
       end.

(** Lines 264-267. *)
Definition disconnect_end : M unit :=
  modify (with_this (set_ws None)) ;;
  modify (with_this (set_pc None)) ;;
  modify (with_this (set_removeCodec false)) ;;
  modify (with_this (set_dataChannels [])).

Definition disconnect (rounds : nat) : M unit :=
  p <- disconnect_begin ;;
  await_closing rounds p ;;
  disconnect_end.

(** ** Answering, and the remaining engine calls *)

(** [_createAnswer], line 491 *)
Definition _createAnswer (rounds : nat) : M unit :=
  pc <- gets (fun w => _pc (this w)) ;;
  match pc with
  | None => ret tt
  | Some _ =>
      try_catch
        (created <- createAnswer ;;
         _traceLog "create answer sdp, sdp=" ;;
         setLocalDescription created ;;
         d <- localDescription ;;
         _sendSdp d)
        (fun error =>
           disconnect rounds ;;
           invoke "disconnect" (Disconnected "CREATE-ANSWER-ERROR" (Some error)))
  end.

(** [_setAnswer], line 506 *)
Definition _setAnswer (d : SessionDescription) : M unit :=
  setRemoteDescription d ;;
  _traceLog "set answer sdp=".

(** [_setOffer], line 511 *)
Definition _setOffer (rounds : nat) (d : SessionDescription) : M unit :=
  pc <- _createPeerConnection ;;
  modify (with_this (set_pc (Some pc))) ;;
  try_catch
    (setRemoteDescription d ;;
     _traceLog "set offer sdp=" ;;
     _createAnswer rounds)
    (fun error =>
       disconnect rounds ;;
       invoke "disconnect" (Disconnected "SET-OFFER-ERROR" (Some error))).

(** [_addIceCandidate], line 523 *)
Definition _addIceCandidate (candidate : string) : M unit :=
  try_catch
    (pc <- gets (fun w => _pc (this w)) ;;
     ok <- gets (fun w => addIceCandidate_ok (env w)) ;;
     match pc with
     | Some _ => if ok then ret tt else throw (JsError "OperationError" "addIceCandidate")
     | None => ret tt
     end)
    (fun _ => _traceLog "invalid ice candidate").

(** ** Handlers of the peer connection (installed at lines 389-420) *)

(** [pc.ontrack]: the stream id is that of the [MediaStream] just built. *)
Definition pc_ontrack (t : Track) (streamId : string) : M unit :=
  _traceLog "peer.ontrack()" ;;
  modify (with_pc (pc_push_track t)) ;;
  modify (with_this (set_remoteStreamId (Some streamId))) ;;
  invoke "addstream" (TrackEvent t streamId).

(** [pc.onicecandidate] *)
Definition pc_onicecandidate (candidate : option string) : M unit :=
  _traceLog "peer.onicecandidate()" ;;
  match candidate with
  | Some c => _sendIceCandidate c
  | None => _traceLog "empty ice event"
  end.

(** [pc.oniceconnectionstatechange], line 405 *)
Definition pc_oniceconnectionstatechange_handler (rounds : nat) (st : IceConnectionState) : M unit :=
  _traceLog "ICE connection Status has changed to " ;;
  match st with
  | IceConnected => modify (with_this (set_isNegotiating false))
  | IceFailed =>
      disconnect rounds ;;
      invoke "disconnect" (Disconnected "ICE-CONNECTION-STATE-FAILED" None)
  | _ => ret tt
  end.

(** ** [connect] and [_signaling] *)

(** [ws.onclose], by the closure installed. *)
Definition ws_onclose_handler (rounds : nat) (h : WsOnClose) : M unit :=
  match h with
  | OnCloseReject => settle (Rejected (Reason "WS-CLOSED"))
  | OnCloseBeforeAccept => disconnect rounds ;; invoke "disconnect" RawCloseEvent
  | OnCloseAfterAccept => disconnect rounds ;; invoke "disconnect" (Disconnected "WS-CLOSED" None)
  | OnCloseNoop => ret tt
  end.

(** [ws.onerror], line 279 *)
Definition ws_onerror_handler (rounds : nat) : M unit :=
  disconnect rounds ;;
  settle (Rejected (Reason "WS-CLOSED")).

Definition description_of (t : SdpType) (o : JsonObject) : SessionDescription :=
  {| sd_type := t; sd_sdp := RawSdp (j_sdp o) |}.

(** The branch on [message.type], lines 301-331. *)
Definition dispatch (rounds : nat) (o : JsonObject) : M unit :=
  let type_is (t : string) := bool_decide (j_type o = Some t) in
  if type_is "ping" then _sendWs Pong
  else if type_is "close" then invoke "close" RawMessageEvent
  else if type_is "accept" then
    pc <- gets (fun w => _pc (this w)) ;;
    match pc with
    | None => created <- _createPeerConnection ;; modify (with_this (set_pc (Some created)))
    | Some _ => ret tt
    end ;;
    addDataChannel "dataChannel" ;;
    _sendOffer ;;
    invoke "connect" (ConnectInfo (j_authzMetadata o)) ;;
    modify (with_ws (ws_set_onclose OnCloseAfterAccept)) ;;
    settle Fulfilled
  else if type_is "reject" then
    disconnect rounds ;;
    invoke "disconnect" (Disconnected "REJECTED" None) ;;
    settle (Rejected (Reason "REJECTED"))
  else if type_is "offer" then detached (_setOffer rounds (description_of offer o))
  else if type_is "answer" then _setAnswer (description_of answer o)
  else if type_is "candidate" then
    match j_ice o with
    | Some ice =>
        _traceLog "Received ICE candidate ..." ;;
        detached (_addIceCandidate ice)
    | None => ret tt
    end
  else ret tt.

(** [ws.onmessage], line 295 *)
Definition ws_onmessage_handler (rounds : nat) (data : EventData) : M unit :=
  try_catch
    match data with
    | Binary => ret tt
    | Text None => throw (JsError "SyntaxError" "JSON.parse")
    | Text (Some JNull) => throw (NullDereference "type")
    | Text (Some JPrimitive) => ret tt
    | Text (Some (JObj o)) => dispatch rounds o
    end
    (fun error =>
       disconnect rounds ;;
       invoke "disconnect" (Disconnected "SIGNALING-ERROR" (Some error))).

(** [ws.onopen], line 283 *)
Definition ws_onopen_handler : M unit :=
  c <- gets (fun w => this w) ;;
  _sendWs (RegisterMessage (roomId c) (o_clientId (options c)) (authnMetadata c)) ;;
  modify (with_ws (ws_set_onmessage true)).

(** The executor of [_signaling], line 270.  The promise it creates is the
    one [connect] awaits; a throw of the executor rejects it. *)
Definition _signaling : M unit :=
  modify (with_connecting (Some Unsettled)) ;;
  ws <- gets (fun w => _ws (this w)) ;;
  match ws with
  | Some _ => settle (Rejected (Reason "WebSocket Connnection Already Exists!"))
  | None =>
      e <- gets (fun w => env w) ;;
      if socket_constructible e then
        modify (with_this (set_ws (Some {| ws_readyState := CONNECTING; ws_onclose := OnCloseReject;
                                           ws_onmessage := false;
                                           ws_closeDelay := socket_closeDelay e |}))) ;;
        modify (with_ws (ws_set_onclose OnCloseBeforeAccept))
      else settle (Rejected (JsError "SyntaxError" "WebSocket"))
  end.

(** [connect], line 150, up to its [await]: the outcome of the awaited
    handshake is then found in [connecting]. *)
Definition connect (s : option MediaStream) (authn : option string) : M unit :=
  c <- gets (fun w => this w) ;;
  if bool_decide (is_Some (_ws c)) || bool_decide (is_Some (_pc c)) then
    _traceLog "connection already exists" ;;
    throw AlreadyConnectedError
  else
    modify (with_this (set_stream s)) ;;
    modify (with_this (set_authnMetadata authn)) ;;
    _signaling.

(** ** The event loop *)

(** What can happen to a connection: a call of the public API, or an event
    of one of the browser objects it owns. *)
Inductive Event :=
| CallOn (kind : string) (callback : Callback)
| CallConnect (s : option MediaStream) (authn : option string)
| CallAddDataChannel (channelId : string)
| CallSendData (params : string) (channelId : string)
| CallDisconnect
| SocketOpen
| SocketMessage (data : EventData)
| SocketClose
| SocketError
| EngineTrack (t : Track) (streamId : string)
| EngineIceCandidate (candidate : option string)
| EngineIceState (st : IceConnectionState)
| EngineDataChannel (label : string)
| ChannelOpen (id : nat)
| ChannelClosing (id : nat)
| ChannelClose (id : nat)
| ChannelError (id : nat)
| ChannelMessage (id : nat) (data : string).

Definition readyState_of (id : nat) : M (option DcReadyState) :=
  gets (fun w => match channels w !! id with
                 | Some d => Some (dc_readyState d)
                 | None => None
                 end).

(** The browser first updates the object the event is about, then runs the
    handler the class installed on it, if any.  An event that the object
    cannot give in its state does nothing: a socket opens once, delivers
    messages while OPEN only and closes once; a closed engine is silent; a
    channel opens unless it is closing or closed.  A socket that fails is
    closed first; its error event is followed by its close event, which goes
    to the close handler the socket had when it failed ([disconnect] leaves
    the handler of a closed socket in place, line 240). *)
Definition step (rounds : nat) (ev : Event) : M unit :=
  match ev with
  | CallOn kind callback => on kind callback
  | CallConnect s authn => connect s authn
  | CallAddDataChannel channelId => addDataChannel channelId
  | CallSendData params channelId => sendData params channelId
  | CallDisconnect => disconnect rounds
  | SocketOpen =>
      ws <- gets (fun w => _ws (this w)) ;;
      match ws with
      | Some s =>
          if bool_decide (ws_readyState s = CONNECTING)
          then modify (with_ws (ws_set_readyState OPEN)) ;; ws_onopen_handler
          else ret tt
      | None => ret tt
      end
  | SocketMessage data =>
      ws <- gets (fun w => _ws (this w)) ;;
      match ws with
      | Some s =>
          if bool_decide (ws_readyState s = OPEN) && ws_onmessage s
          then ws_onmessage_handler rounds data
          else ret tt
      | None => ret tt
      end
  | SocketClose =>
      ws <- gets (fun w => _ws (this w)) ;;
      match ws with
      | Some s =>
          if bool_decide (ws_readyState s = CLOSED) then ret tt
          else modify (with_ws (ws_set_readyState CLOSED)) ;; ws_onclose_handler rounds (ws_onclose s)
      | None => ret tt
      end
  | SocketError =>
      ws <- gets (fun w => _ws (this w)) ;;
      match ws with
      | Some s =>
          if bool_decide (ws_readyState s = CLOSED) then ret tt
          else
            modify (with_ws (ws_set_readyState CLOSED)) ;;
            detached (ws_onerror_handler rounds) ;;
            ws_onclose_handler rounds (ws_onclose s)
      | None => ret tt
      end
  | EngineTrack t streamId =>
      pc <- gets (fun w => _pc (this w)) ;;
      match pc with
      | Some p => if pc_closed p then ret tt else pc_ontrack t streamId
      | None => ret tt
      end
  | EngineIceCandidate candidate =>
      pc <- gets (fun w => _pc (this w)) ;;
      match pc with
      | Some p => if pc_closed p then ret tt else pc_onicecandidate candidate
      | None => ret tt
      end
  | EngineIceState st =>
      pc <- gets (fun w => _pc (this w)) ;;
      match pc with
      | Some p =>
          if negb (pc_closed p) && pc_oniceconnectionstatechange p
          then pc_oniceconnectionstatechange_handler rounds st
          else ret tt
      | None => ret tt
      end
  | EngineDataChannel label =>
      pc <- gets (fun w => _pc (this w)) ;;
      match pc with
      | Some p =>
          if pc_closed p then ret tt
          else (id <- new_channel label RemoteHandlers DcOpen ;; _onDataChannel id)
      | None => ret tt
      end
  | ChannelOpen id =>
      st <- readyState_of id ;;
      match st with
      | Some DcConnecting | Some DcOpen =>
          modify (with_channels (alter (set_readyState DcOpen) id)) ;; dc_onopen id
      | _ => ret tt
      end
  | ChannelClosing id =>
      st <- readyState_of id ;;
      match st with
      | Some DcConnecting | Some DcOpen =>
          modify (with_channels (alter (set_readyState DcClosing) id))
      | _ => ret tt
      end
  | ChannelClose id =>
      st <- readyState_of id ;;
      match st with
      | Some DcClosed | None => ret tt
      | _ => modify (with_channels (alter (set_readyState DcClosed) id)) ;; dc_onclose id
      end
  | ChannelError id => dc_onerror id
  | ChannelMessage id data =>
      st <- readyState_of id ;;
      match st with
      | Some DcOpen => dc_onmessage id data
      | _ => ret tt
      end
  end.

(** A sequence of events, each handled to completion; the results are kept
    in order (a [Throw] there is an exception nobody caught, or the rejection
    handed back to the caller of the API). *)
Fixpoint exec (rounds : nat) (evs : list Event) (w : World) : list (Res unit) * World :=
  match evs with
  | [] => ([], w)
  | ev :: evs' =>
      let '(r, w') := step rounds ev w in
      let '(rs, w'') := exec rounds evs' w' in
      (r :: rs, w'')
  end.

(** ** Overlapping calls of [disconnect]

    A call suspended on [Promise.all] leaves its timers behind; a second call
    made meanwhile adds its own.  Every 800 ms the timers fire in the order
    they were created; the continuation of a call (lines 264-267) runs as
    soon as its last timer has resolved, before the next timer fires. *)
Module Overlap.

Inductive Call :=
| Suspended (p : Pollers)
| Returned
| Raised (e : Error).

(** The timers of one call fire; the call resumes if that settles it. *)
Definition resume (c : Call) (w : World) : Call * World :=
  match c with
  | Suspended p =>
      match run_timers p w with
      | (Ok p', w') =>
          if settled p' then (Returned, snd (disconnect_end w')) else (Suspended p', w')
      | (Throw e, w') => (Raised e, w')
      | (StillWaiting, w') => (c, w')
      end
  | _ => (c, w)
  end.

Fixpoint resume_all (cs : list Call) (w : World) : list Call * World :=
  match cs with
  | [] => ([], w)
  | c :: cs' =>
      let '(c', w') := resume c w in
      let '(cs'', w'') := resume_all cs' w' in
      (c' :: cs'', w'')
  end.

(** The synchronous part of a call ([disconnect_begin] neither throws nor
    waits, so that it always leaves a suspended call). *)
Definition start (w : World) : Call * World :=
  match disconnect_begin w with
  | (Ok p, w') => (Suspended p, w')
  | (Throw e, w') => (Raised e, w')
  | (StillWaiting, w') => (Suspended {| poll_pc := true; poll_ws := true |}, w')
  end.

(** The microtasks at the end of the turn: a call that started no timer
    resumes at once. *)
Definition resume_settled (c : Call) (w : World) : Call * World :=
  match c with
  | Suspended p => if settled p then (Returned, snd (disconnect_end w)) else (c, w)
  | _ => (c, w)
  end.

Fixpoint microtasks (cs : list Call) (w : World) : list Call * World :=
  match cs with
  | [] => ([], w)
  | c :: cs' =>
      let '(c', w') := resume_settled c w in
      let '(cs'', w'') := microtasks cs' w' in
      (c' :: cs'', w'')
  end.

Fixpoint start_all (n : nat) (w : World) : list Call * World :=
  match n with
  | 0 => ([], w)
  | S n' =>
      let '(c, w') := start w in
      let '(cs, w'') := start_all n' w' in
      (c :: cs, w'')
  end.

Fixpoint periods (rounds : nat) (cs : list Call) (w : World) : list Call * World :=
  match rounds with
  | 0 => (cs, w)
  | S r =>
      let '(cs', w') := resume_all cs (env_tick w) in
      periods r cs' w'
  end.

(** [n] calls of [disconnect()] made in one turn, none of them awaited
    before the next, then [rounds] timer periods. *)
Definition calls (n rounds : nat) (w : World) : list Call * World :=
  let '(cs, w') := start_all n w in
  let '(cs', w'') := microtasks cs w' in
  periods rounds cs' w''.

Definition raises (c : Call) : bool :=
  match c with
  | Raised _ => true
  | _ => false
  end.

End Overlap.

(** * The vocabulary of the statements *)

(** ** Relations that every statement of the class respects

    [keeps R m]: whatever the world and whatever the result, running [m]
    leads to a world related by [R].  A relation is [Tolerant] when it
    contains each elementary update the class performs, except the write to
    the callback table, which only [on] makes, and except a write of [true]
    to [_isNegotiating], which nothing makes. *)

Definition keeps (R : relation World) {A} (m : M A) : Prop :=
  ∀ w, R w (snd (m w)).

Class Tolerant (R : relation World) := {
  tolerant_preorder :: PreOrder R;
  tol_log t w : R w (log t w);
  tol_emit e w : R w (emit e w);
  tol_connecting p w : R w (with_connecting p w);
  tol_channels f w : R w (with_channels f w);
  tol_stream v w : R w (with_this (set_stream v) w);
  tol_remoteStreamId v w : R w (with_this (set_remoteStreamId v) w);
  tol_authnMetadata v w : R w (with_this (set_authnMetadata v) w);
  tol_clear_flag w : R w (with_this (set_isNegotiating false) w);
  tol_removeCodec v w : R w (with_this (set_removeCodec v) w);
  tol_ws v w : R w (with_this (set_ws v) w);
  tol_pc v w : R w (with_this (set_pc v) w);
  tol_dataChannels v w : R w (with_this (set_dataChannels v) w) }.

(** [_isNegotiating] can only fall. *)
Definition flag_only_falls : relation World :=
  λ w w', _isNegotiating (this w') = true → _isNegotiating (this w) = true.

(** No property named [close] appears in the callback table. *)
Definition close_stays_absent : relation World :=
  λ w w', own (_callbacks (this w)) !! "close" = None →
          own (_callbacks (this w')) !! "close" = None.

(** The five kinds of the constructor stay own properties of the table. *)
Definition subscribed (w : World) : Prop :=
  ∀ k, k ∈ event_kinds → is_Some (own (_callbacks (this w)) !! k).

Definition stays_subscribed : relation World :=
  λ w w', subscribed w → subscribed w'.

(** ** Worlds that events lead to *)

Definition reachable (w : World) : Prop :=
  ∃ url room opts dbg e rounds evs,
    w = snd (exec rounds evs (new_World (new_Connection url room opts dbg) e)).

(** ** Teardown in closed form *)

(** The world a completed [disconnect] leaves: every registered channel
    closed, every local track stopped, the transient fields reset and the
    three references dropped. *)
Definition close_registered (w : World) : list DataChannel :=
  foldl (λ chs id, alter dc_close id chs) (channels w) (_dataChannels (this w)).

Definition stops (w : World) : list Effect :=
  match stream (this w) with
  | Some s => TrackStop <$> getTracks s
  | None => []
  end.

Definition torn_down (w : World) : World :=
  {| this := {| debug := debug (this w); roomId := roomId (this w);
                signalingUrl := signalingUrl (this w); options := options (this w);
                stream := None; remoteStreamId := None; authnMetadata := None;
                _isNegotiating := false; _removeCodec := false; _ws := None; _pc := None;
                _dataChannels := []; _callbacks := _callbacks (this w) |};
     channels := close_registered w;
     trace := (trace w ++ stops w)%list;
     console := console w;
     connecting := connecting w;
     env := env w |}.

(** The timer periods the socket of the world still needs to close. *)
Definition ws_delay (w : World) : nat :=
  match _ws (this w) with
  | Some s => ws_closeDelay s
  | None => 0
  end.

(** Several effects at once, and a console replaced. *)
Definition emits (es : list Effect) (w : World) : World :=
  {| this := this w; channels := channels w; trace := (trace w ++ es)%list; console := console w;
     connecting := connecting w; env := env w |}.

Definition set_console (l : list string) (w : World) : World :=
  {| this := this w; channels := channels w; trace := trace w; console := l;
     connecting := connecting w; env := env w |}.

(** The state the constructor builds and every completed teardown
    restores: no socket, no engine, no channel, and the transient fields
    cleared. *)
Definition idle (w : World) : Prop :=
  _ws (this w) = None ∧ _pc (this w) = None ∧ _dataChannels (this w) = []
  ∧ stream (this w) = None ∧ remoteStreamId (this w) = None ∧ authnMetadata (this w) = None
  ∧ _isNegotiating (this w) = false ∧ _removeCodec (this w) = false.

(** What the specification asks of the world after a teardown. *)
Definition cleared (w : World) : Prop :=
  _dataChannels (this w) = [] ∧ _pc (this w) = None ∧ _ws (this w) = None.

(** ** Reading the trace *)





(** ** Concrete worlds *)

(** A browser whose engine answers every request, and whose sockets are
    closed by the first timer period after [close()]. *)
Definition chrome : Env :=
  {| browser := "chrome"; socket_constructible := true; engine_constructible := true;
     has_setCodecPreferences := true; createOffer_result := Some "v=0 (offer)";
     createAnswer_result := Some "v=0 (answer)"; setLocalDescription_ok := true;
     setRemoteDescription_ok := true; addIceCandidate_ok := true; socket_closeDelay := 0 |}.

(** The same browser with an engine that cannot produce an offer. *)
Definition offerless : Env :=
  {| browser := "chrome"; socket_constructible := true; engine_constructible := true;
     has_setCodecPreferences := true; createOffer_result := None;
     createAnswer_result := Some "v=0 (answer)"; setLocalDescription_ok := true;
     setRemoteDescription_ok := true; addIceCandidate_ok := true; socket_closeDelay := 0 |}.

Definition fresh_in (e : Env) : World :=
  new_World (connection "wss://signaling.example/ws" "room" (defaultOptions "client") false) e.

Definition fresh : World := fresh_in chrome.

(** A text frame carrying [{"type": t}]. *)
Definition frame (t : string) : EventData := Text (Some (JObj (message_of_type t))).

(** [connect()] was called and the socket has opened: the register message
    is out. *)
Definition registering : World :=
  snd (exec 1 [CallConnect None None; SocketOpen] fresh).

(** The handshake went through and the default channel has opened. *)
Definition established : World :=
  snd (exec 1 [SocketMessage (frame "accept"); ChannelOpen 0; SocketMessage (frame "answer");
               EngineIceState IceConnected] registering).

(** Two channels labelled ["chat"] are asked for before either has opened
    (the check of line 164 looks at the registered channels only), both open,
    and the peer starts closing the first. *)
Definition shadowed : World :=
  snd (exec 1 [CallAddDataChannel "chat"; CallAddDataChannel "chat";
               ChannelOpen 1; ChannelOpen 2; ChannelClosing 1] established).

(** Register, accept, offer sent, answer received, engine connected. *)
Definition negotiated : World :=
  snd (exec 1 [SocketMessage (frame "accept"); SocketMessage (frame "answer");
               EngineIceState IceConnected] registering).

(** ** What makes the class tear the connection down *)

Inductive Trigger :=
| ExplicitCall                     (* the application calls disconnect() *)
| RejectReceived                   (* a reject message *)
| CloseReceived                    (* a close message *)
| SocketFailed                     (* ws.onerror *)
| SocketClosed (accepted : bool)   (* ws.onclose, before or after the accept *)
| EngineFailed.                    (* iceConnectionState 'failed' *)

Definition handler_of (rounds : nat) (t : Trigger) : M unit :=
  match t with
  | ExplicitCall => disconnect rounds
  | RejectReceived => ws_onmessage_handler rounds (frame "reject")
  | CloseReceived => ws_onmessage_handler rounds (frame "close")
  | SocketFailed => ws_onerror_handler rounds
  | SocketClosed accepted =>
      ws_onclose_handler rounds (if accepted then OnCloseAfterAccept else OnCloseBeforeAccept)
  | EngineFailed => pc_oniceconnectionstatechange_handler rounds IceFailed
  end.

(** ** Guards

    A finer reading of the elementary updates, for the properties that
    depend on when an update is made: a line goes to the console only while
    [debug] is set; a callback is called only through one of the kinds the
    class names at a call site, and it is the entry the table holds at that
    moment; the list of channels never shrinks; and a handle put into the
    registry is that of an existing channel. *)

(** The kinds at the call sites [this._callbacks.kind(...)] of the class. *)
Definition called_kinds : list string := ["connect"; "disconnect"; "addstream"; "data"; "close"].

Definition permitted (w : World) (e : Effect) : Prop :=
  match e with
  | Fire kind cb _ => kind ∈ called_kinds ∧ own (_callbacks (this w)) !! kind = Some cb
  | _ => True
  end.

Definition valid_handles (chs : list DataChannel) (l : list nat) : Prop :=
  Forall (λ id, (id < length chs)%nat) l.

(** Every registered handle is that of a channel. *)
Definition well_formed (w : World) : Prop :=
  valid_handles (channels w) (_dataChannels (this w)).

Class Guarded (R : relation World) := {
  guarded_preorder :: PreOrder R;
  grd_log t w : debug (this w) = true → R w (log t w);
  grd_emit e w : permitted w e → R w (emit e w);
  grd_connecting p w : R w (with_connecting p w);
  grd_channels (f : list DataChannel → list DataChannel) w :
    (∀ chs, (length chs ≤ length (f chs))%nat) → R w (with_channels f w);
  grd_stream v w : R w (with_this (set_stream v) w);
  grd_remoteStreamId v w : R w (with_this (set_remoteStreamId v) w);
  grd_authnMetadata v w : R w (with_this (set_authnMetadata v) w);
  grd_clear_flag w : R w (with_this (set_isNegotiating false) w);
  grd_removeCodec v w : R w (with_this (set_removeCodec v) w);
  grd_ws v w : R w (with_this (set_ws v) w);
  grd_pc v w : R w (with_this (set_pc v) w);
  grd_dataChannels v w :
    (well_formed w → valid_handles (channels w) v) → R w (with_this (set_dataChannels v) w) }.

(** The arguments of the constructor stay what they were. *)
Definition config_fixed : relation World :=
  λ w w', debug (this w') = debug (this w) ∧ roomId (this w') = roomId (this w)
          ∧ signalingUrl (this w') = signalingUrl (this w)
          ∧ options (this w') = options (this w) ∧ env w' = env w.

Definition callbacks_fixed : relation World :=
  λ w w', _callbacks (this w') = _callbacks (this w).

(** Without [debug] the console is left alone. *)
Definition quiet : relation World :=
  λ w w', debug (this w) = false → debug (this w') = false ∧ console w' = console w.

(** The kinds that have a subscriber to call. *)
Definition announced (e : Effect) : Prop :=
  match e with
  | Fire kind _ _ => kind ∈ ["connect"; "disconnect"; "addstream"; "data"]
  | _ => True
  end.

Definition announces : relation World :=
  λ w w', own (_callbacks (this w)) !! "close" = None →
          own (_callbacks (this w')) !! "close" = None
          ∧ ∃ es, trace w' = (trace w ++ es)%list ∧ Forall announced es.

Definition stays_well_formed : relation World :=
  λ w w', well_formed w → well_formed w'.

Definition calls_on (ev : Event) : bool :=
  match ev with
  | CallOn _ _ => true
  | _ => false
  end.

(** ** Messages, offers and tracks *)

(** The values of [message.type] that [onmessage] has a branch for. *)
Definition message_types : list string :=
  ["ping"; "close"; "accept"; "reject"; "offer"; "answer"; "candidate"].

(** The offer that [_sendOffer] makes of the text the engine produced
    (lines 474-481). *)
Definition offered (w : World) (text : string) : SessionDescription :=
  {| sd_type := offer;
     sd_sdp := match _removeCodec (this w), v_codec (o_video (options (this w))) with
               | true, Some keep => strip_codecs keep (RawSdp text)
               | _, _ => RawSdp text
               end |}.

(** The codecs taken out of a description. *)
Fixpoint removed_codecs (s : Sdp) : list VideoCodecOption :=
  match s with
  | RawSdp _ => []
  | removeCodec s' c => (removed_codecs s' ++ [c])%list
  end.

(** [this.stream && this.stream.getAudioTracks()[0]], and the same for
    video (lines 354 and 360). *)
Definition local_track (k : MediaKind) (c : Connection) : option Track :=
  s ← stream c; head (match k with audio => audioTracks s | video => videoTracks s end).

Definition direction_of (k : MediaKind) (o : ConnectionOptions) : ConnectionDirection :=
  match k with
  | audio => a_direction (o_audio o)
  | video => v_direction (o_video o)
  end.

(** The engine has a transceiver of kind [k] whose sender carries [t]. *)
Definition carries (k : MediaKind) (t : Track) (p : PeerConnection) : Prop :=
  ∃ tr, tr ∈ pc_transceivers p ∧ tr_kind tr = k ∧ tr_sender tr = Some t.

(** ** More concrete worlds *)

(** A local stream with one audio and one video track. *)
Definition camera : MediaStream := {| audioTracks := [1]; videoTracks := [2] |}.

(** Options that ask for H264. *)
Definition h264_options : ConnectionOptions :=
  {| o_audio := {| a_direction := sendrecv; a_enabled := true |};
     o_video := {| v_codec := Some H264; v_direction := sendrecv; v_enabled := true |};
     o_clientId := "client";
     o_iceServers := ["stun:stun.l.google.com:19302"] |}.

(** A browser whose transceivers have no [setCodecPreferences]. *)
Definition legacy : Env :=
  {| browser := "chrome"; socket_constructible := true; engine_constructible := true;
     has_setCodecPreferences := false; createOffer_result := Some "v=0 (offer)";
     createAnswer_result := Some "v=0 (answer)"; setLocalDescription_ok := true;
     setRemoteDescription_ok := true; addIceCandidate_ok := true; socket_closeDelay := 0 |}.

(** An engine that refuses every remote description. *)
Definition deaf : Env :=
  {| browser := "chrome"; socket_constructible := true; engine_constructible := true;
     has_setCodecPreferences := true; createOffer_result := Some "v=0 (offer)";
     createAnswer_result := Some "v=0 (answer)"; setLocalDescription_ok := true;
     setRemoteDescription_ok := false; addIceCandidate_ok := true; socket_closeDelay := 0 |}.

(** [connect(camera)] was called on a connection that asks for H264. *)
Definition filming : World :=
  snd (connect (Some camera) None
         (new_World (connection "wss://signaling.example/ws" "room" h264_options false) chrome)).

(** The same connection, accepted, in the browser without
    [setCodecPreferences]. *)
Definition accepted_legacy : World :=
  snd (exec 1 [CallConnect (Some camera) None; SocketOpen; SocketMessage (frame "accept")]
         (new_World (connection "wss://signaling.example/ws" "room" h264_options false) legacy)).

(** The peer has announced a channel labelled ["chat"] on the established
    connection. *)
Definition chatting : World := snd (step 1 (EngineDataChannel "chat") established).

(** The engine has made the channel that the peer announces, and is about
    to hand it to [ondatachannel]. *)
Definition announcing (label : string) (w : World) : World :=
  snd (new_channel label RemoteHandlers DcOpen w).

(** [connect(camera)] went through and the default channel has opened. *)
Definition on_air : World :=
  snd (exec 1 [CallConnect (Some camera) None; SocketOpen; SocketMessage (frame "accept");
               ChannelOpen 0] fresh).

(** An engine that takes the offer of the peer and cannot answer it. *)
Definition answerless : Env :=
  {| browser := "chrome"; socket_constructible := true; engine_constructible := true;
     has_setCodecPreferences := true; createOffer_result := Some "v=0 (offer)";
     createAnswer_result := None; setLocalDescription_ok := true;
     setRemoteDescription_ok := true; addIceCandidate_ok := true; socket_closeDelay := 0 |}.

(** * Properties *)

(** ** Every statement keeps a tolerant relation *)

Section Keeps.
Context (R : relation World) `{!Tolerant R}.

Lemma keeps_ret {A} (a : A) : keeps R (ret a).
Proof. intros w. reflexivity. Qed.

Lemma keeps_throw {A} e : keeps R (@throw A e).
Proof. intros w. reflexivity. Qed.

Lemma keeps_gets {A} (f : World → A) : keeps R (gets f).
Proof. intros w. reflexivity. Qed.

Lemma keeps_modify f : (∀ w, R w (f w)) → keeps R (modify f).
Proof. intros Hf w. apply Hf. Qed.

Lemma keeps_bind {A B} (m : M A) (k : A → M B) :
  keeps R m → (∀ a, keeps R (k a)) → keeps R (bind m k).
Proof.
  intros Hm Hk w. unfold bind. specialize (Hm w).
  destruct (m w) as [[a|e|] w']; simpl in *; try assumption.
  etransitivity; [exact Hm | apply Hk].
Qed.

Lemma keeps_try_catch {A} (m : M A) h :
  keeps R m → (∀ e, keeps R (h e)) → keeps R (try_catch m h).
Proof.
  intros Hm Hh w. unfold try_catch. specialize (Hm w).
  destruct (m w) as [[a|e|] w']; simpl in *; try assumption.
  etransitivity; [exact Hm | apply Hh].
Qed.

Lemma keeps_detached m : keeps R m → keeps R (detached m).
Proof.
  intros Hm w. unfold detached. specialize (Hm w).
  destruct (m w) as [[a|e|] w']; simpl in *; try assumption.
  etransitivity; [exact Hm | apply tol_emit].
Qed.

Lemma keeps_when b m : keeps R m → keeps R (when b m).
Proof. intros Hm. destruct b; [exact Hm | apply keeps_ret]. Qed.

Lemma keeps_forEach {A} (l : list A) f : (∀ x, keeps R (f x)) → keeps R (forEach l f).
Proof.
  intros Hf. induction l as [|x l IH]; simpl; [apply keeps_ret|].
  apply keeps_bind; [apply Hf | intros _; exact IH].
Qed.

Lemma tol_with_pc f w : R w (with_pc f w).
Proof. exact (tol_pc (f <$> _pc (this w)) w). Qed.

Lemma tol_with_ws f w : R w (with_ws f w).
Proof. exact (tol_ws (f <$> _ws (this w)) w). Qed.

Lemma tol_settle p w :
  R w match connecting w with Some Unsettled => with_connecting (Some p) w | _ => w end.
Proof. destruct (connecting w) as [[]|]; first [apply tol_connecting | reflexivity]. Qed.

End Keeps.

(** An elementary update, recognised by its head. *)
Ltac tolerated :=
  intros;
  lazymatch goal with
  | |- ?R _ _ =>
      first [ apply (tol_log (R:=R)) | apply (tol_emit (R:=R)) | apply (tol_connecting (R:=R))
            | apply (tol_channels (R:=R)) | apply (tol_stream (R:=R))
            | apply (tol_remoteStreamId (R:=R)) | apply (tol_authnMetadata (R:=R))
            | apply (tol_clear_flag (R:=R)) | apply (tol_removeCodec (R:=R))
            | apply (tol_ws (R:=R)) | apply (tol_pc (R:=R)) | apply (tol_dataChannels (R:=R))
            | apply (tol_with_pc R) | apply (tol_with_ws R) | apply (tol_settle R)
            | reflexivity ]
  end.

(** Walks down a computation; [known] closes the calls of functions that
    already have their lemma. *)
Ltac keeps_walk known :=
  repeat
    lazymatch goal with
    | |- keeps ?R (bind _ _) => apply (keeps_bind R); [|intros ?]
    | |- keeps ?R (ret _) => apply (keeps_ret R)
    | |- keeps ?R (throw _) => apply (keeps_throw R)
    | |- keeps ?R (gets _) => apply (keeps_gets R)
    | |- keeps ?R (modify _) => apply (keeps_modify R); tolerated
    | |- keeps ?R (try_catch _ _) => apply (keeps_try_catch R); [|intros ?]
    | |- keeps ?R (detached _) => apply (keeps_detached R)
    | |- keeps ?R (when _ _) => apply (keeps_when R)
    | |- keeps ?R (forEach _ _) => apply (keeps_forEach R); intros ?
    | |- keeps _ (match ?x with _ => _ end) => destruct x
    | |- keeps _ (let _ := _ in _) => cbv zeta
    | |- keeps _ _ => known
    end.

Create HintDb keeps.

Section KeepsClass.
Context (R : relation World) `{!Tolerant R}.

Local Ltac walk := keeps_walk ltac:(solve [eauto with nocore keeps]).

Lemma keeps__traceLog t : keeps R (_traceLog t).
Proof. unfold _traceLog. walk. Qed.
Hint Resolve keeps__traceLog : keeps.

Lemma keeps_ws_send s m : keeps R (ws_send s m).
Proof. unfold ws_send. walk. Qed.
Hint Resolve keeps_ws_send : keeps.

Lemma keeps__sendWs m : keeps R (_sendWs m).
Proof. unfold _sendWs. walk. Qed.
Hint Resolve keeps__sendWs : keeps.

Lemma keeps__sendSdp d : keeps R (_sendSdp d).
Proof. unfold _sendSdp. walk. Qed.
Hint Resolve keeps__sendSdp : keeps.

Lemma keeps__findDataChannel c : keeps R (_findDataChannel c).
Proof. unfold _findDataChannel. walk. Qed.
Hint Resolve keeps__findDataChannel : keeps.

Lemma keeps_invoke k a : keeps R (invoke k a).
Proof. unfold invoke. walk. Qed.
Hint Resolve keeps_invoke : keeps.

Lemma keeps_settle p : keeps R (settle p).
Proof. unfold settle. walk. Qed.
Hint Resolve keeps_settle : keeps.

Lemma keeps_new_channel l h st : keeps R (new_channel l h st).
Proof. unfold new_channel. walk. Qed.
Hint Resolve keeps_new_channel : keeps.

Lemma keeps_addDataChannel c : keeps R (addDataChannel c).
Proof. unfold addDataChannel. walk. Qed.
Hint Resolve keeps_addDataChannel : keeps.

Lemma keeps_sendData p c : keeps R (sendData p c).
Proof. unfold sendData. walk. Qed.

Lemma keeps_unregister_label c : keeps R (unregister_label c).
Proof. unfold unregister_label. walk. Qed.
Hint Resolve keeps_unregister_label : keeps.

Lemma keeps_dc_onopen id : keeps R (dc_onopen id).
Proof. unfold dc_onopen, handlers_of. walk. Qed.

Lemma keeps_dc_onclose id : keeps R (dc_onclose id).
Proof. unfold dc_onclose, handlers_of. walk. Qed.

Lemma keeps_dc_onerror id : keeps R (dc_onerror id).
Proof. unfold dc_onerror, handlers_of. walk. Qed.

Lemma keeps_dc_onmessage id d : keeps R (dc_onmessage id d).
Proof. unfold dc_onmessage, handlers_of. walk. Qed.

Lemma keeps__onDataChannel id : keeps R (_onDataChannel id).
Proof. unfold _onDataChannel, handlers_of. walk. Qed.

Lemma keeps__getTransceiver p k t : keeps R (_getTransceiver p k t).
Proof. unfold _getTransceiver. walk. Qed.
Hint Resolve keeps__getTransceiver : keeps.

Lemma keeps_prefer_codec o i p : keeps R (prefer_codec o i p).
Proof. unfold prefer_codec. walk. Qed.
Hint Resolve keeps_prefer_codec : keeps.

Lemma keeps__createPeerConnection : keeps R _createPeerConnection.
Proof. unfold _createPeerConnection. walk. Qed.
Hint Resolve keeps__createPeerConnection : keeps.

Lemma keeps_createOffer : keeps R createOffer.
Proof. unfold createOffer. walk. Qed.
Lemma keeps_createAnswer : keeps R createAnswer.
Proof. unfold createAnswer. walk. Qed.
Lemma keeps_setLocalDescription d : keeps R (setLocalDescription d).
Proof. unfold setLocalDescription. walk. Qed.
Lemma keeps_setRemoteDescription d : keeps R (setRemoteDescription d).
Proof. unfold setRemoteDescription. walk. Qed.
Lemma keeps_localDescription : keeps R localDescription.
Proof. unfold localDescription. walk. Qed.
Hint Resolve keeps_createOffer keeps_createAnswer keeps_setLocalDescription
  keeps_setRemoteDescription keeps_localDescription : keeps.

Lemma keeps__sendOffer : keeps R _sendOffer.
Proof. unfold _sendOffer. walk. Qed.
Hint Resolve keeps__sendOffer : keeps.

Lemma keeps_closePeerConnection : keeps R closePeerConnection.
Proof. unfold closePeerConnection. walk. Qed.
Lemma keeps_closeWebSocketConnection : keeps R closeWebSocketConnection.
Proof. unfold closeWebSocketConnection. walk. Qed.
Hint Resolve keeps_closePeerConnection keeps_closeWebSocketConnection : keeps.

Lemma keeps_disconnect_begin : keeps R disconnect_begin.
Proof. unfold disconnect_begin. walk. Qed.

Lemma keeps_timer_pc : keeps R timer_pc.
Proof. unfold timer_pc. walk. Qed.
Lemma keeps_timer_ws : keeps R timer_ws.
Proof. unfold timer_ws. walk. Qed.
Hint Resolve keeps_timer_pc keeps_timer_ws : keeps.

Lemma keeps_run_timers p : keeps R (run_timers p).
Proof. unfold run_timers. walk. Qed.

Lemma keeps_await_closing rounds p : keeps R (await_closing rounds p).
Proof.
  revert p. induction rounds as [|r IH]; intros p; simpl.
  - destruct (settled p); [apply (keeps_ret R) | intros w; reflexivity].
  - destruct (settled p); [apply (keeps_ret R)|].
    apply (keeps_bind R); [apply (keeps_modify R); intros w; apply (tol_with_ws R)|].
    intros _. apply (keeps_bind R); [apply keeps_run_timers | exact IH].
Qed.

Lemma keeps_disconnect_end : keeps R disconnect_end.
Proof. unfold disconnect_end. walk. Qed.

Lemma keeps_disconnect rounds : keeps R (disconnect rounds).
Proof.
  unfold disconnect. apply (keeps_bind R); [apply keeps_disconnect_begin | intros p].
  apply (keeps_bind R); [apply keeps_await_closing | intros _; apply keeps_disconnect_end].
Qed.
Hint Resolve keeps_disconnect : keeps.

Lemma keeps__createAnswer rounds : keeps R (_createAnswer rounds).
Proof. unfold _createAnswer. walk. Qed.
Hint Resolve keeps__createAnswer : keeps.

Lemma keeps__setAnswer d : keeps R (_setAnswer d).
Proof. unfold _setAnswer. walk. Qed.

Lemma keeps__setOffer rounds d : keeps R (_setOffer rounds d).
Proof. unfold _setOffer. walk. Qed.

Lemma keeps__addIceCandidate c : keeps R (_addIceCandidate c).
Proof. unfold _addIceCandidate. walk. Qed.
Hint Resolve keeps__setAnswer keeps__setOffer keeps__addIceCandidate : keeps.

Lemma keeps_pc_ontrack t s : keeps R (pc_ontrack t s).
Proof. unfold pc_ontrack. walk. Qed.

Lemma keeps_pc_onicecandidate c : keeps R (pc_onicecandidate c).
Proof. unfold pc_onicecandidate, _sendIceCandidate. walk. Qed.

Lemma keeps_pc_oniceconnectionstatechange_handler rounds st :
  keeps R (pc_oniceconnectionstatechange_handler rounds st).
Proof. unfold pc_oniceconnectionstatechange_handler. walk. Qed.

Lemma keeps_ws_onclose_handler rounds h : keeps R (ws_onclose_handler rounds h).
Proof. unfold ws_onclose_handler. walk. Qed.

Lemma keeps_ws_onerror_handler rounds : keeps R (ws_onerror_handler rounds).
Proof. unfold ws_onerror_handler. walk. Qed.

Lemma keeps_dispatch rounds o : keeps R (dispatch rounds o).
Proof. unfold dispatch. walk. Qed.
Hint Resolve keeps_dispatch : keeps.

Lemma keeps_ws_onmessage_handler rounds data : keeps R (ws_onmessage_handler rounds data).
Proof. unfold ws_onmessage_handler. walk. Qed.

Lemma keeps_ws_onopen_handler : keeps R ws_onopen_handler.
Proof. unfold ws_onopen_handler. walk. Qed.

Lemma keeps__signaling : keeps R _signaling.
Proof. unfold _signaling. walk. Qed.
Hint Resolve keeps__signaling : keeps.

Lemma keeps_connect s a : keeps R (connect s a).
Proof. unfold connect. walk. Qed.

Hint Resolve keeps_sendData keeps_dc_onopen keeps_dc_onclose keeps_dc_onerror
  keeps_dc_onmessage keeps__onDataChannel keeps_pc_ontrack keeps_pc_onicecandidate
  keeps_pc_oniceconnectionstatechange_handler keeps_ws_onclose_handler
  keeps_ws_onerror_handler keeps_ws_onmessage_handler keeps_ws_onopen_handler
  keeps_connect : keeps.

(** Every event but a call of [on] keeps a tolerant relation; so does
    [on] if it is shown to. *)
Lemma keeps_step rounds ev :
  (∀ kind callback, keeps R (on kind callback)) → keeps R (step rounds ev).
Proof. intros Hon. destruct ev; simpl; unfold handlers_of, readyState_of; walk. Qed.

Lemma keeps_exec rounds evs w :
  (∀ kind callback, keeps R (on kind callback)) → R w (snd (exec rounds evs w)).
Proof.
  intros Hon. revert w. induction evs as [|ev evs IH]; intros w; simpl; [reflexivity|].
  pose proof (keeps_step rounds ev Hon w) as Hs.
  destruct (step rounds ev w) as [r w']. simpl in Hs.
  specialize (IH w'). destruct (exec rounds evs w') as [rs w'']. simpl in *.
  etransitivity; eassumption.
Qed.

End KeepsClass.

(** ** The three relations are tolerant, and [on] keeps them *)

#[local] Ltac tolerant_by_computation :=
  split; [split; [intros w; hnf; tauto | intros w1 w2 w3; unfold flag_only_falls,
    close_stays_absent, stays_subscribed; tauto] | ..];
  intros; hnf; simpl; first [tauto | discriminate | done].

#[global] Instance flag_only_falls_tolerant : Tolerant flag_only_falls.
Proof. tolerant_by_computation. Qed.

#[global] Instance close_stays_absent_tolerant : Tolerant close_stays_absent.
Proof. tolerant_by_computation. Qed.

#[global] Instance stays_subscribed_tolerant : Tolerant stays_subscribed.
Proof. tolerant_by_computation. Qed.

Lemma on_flag_only_falls kind callback : keeps flag_only_falls (on kind callback).
Proof.
  intros w. unfold on, bind, gets, modify, throw. simpl.
  destruct (has_property kind _); [|hnf; tauto].
  destruct (set_property kind callback _); hnf; simpl; tauto.
Qed.

Lemma close_not_inherited t : inherited "close" t = false.
Proof. unfold inherited. destruct (proto t); reflexivity. Qed.

Lemma on_close_stays_absent kind callback : keeps close_stays_absent (on kind callback).
Proof.
  intros w Hclose. unfold on, bind, gets, modify, throw. simpl.
  destruct (has_property kind _) eqn:Hhas; [|exact Hclose].
  unfold set_property.
  destruct (decide (kind = "close")) as [->|Hne].
  { unfold has_property in Hhas. rewrite close_not_inherited, orb_false_r in Hhas.
    apply bool_decide_eq_true in Hhas. rewrite Hclose in Hhas. by destruct Hhas. }
  repeat case_match; simplify_eq; simpl; try exact Hclose; by rewrite lookup_insert_ne.
Qed.

Lemma on_stays_subscribed kind callback : keeps stays_subscribed (on kind callback).
Proof.
  intros w Hsub. unfold on, bind, gets, modify, throw. simpl.
  destruct (has_property kind _); [|exact Hsub].
  unfold set_property.
  repeat case_match; simplify_eq; simpl; try exact Hsub; intros k Hk; simpl;
    (destruct (decide (kind = k)) as [->|Hne];
     [rewrite lookup_insert_eq; eauto | rewrite lookup_insert_ne by done; auto]).
Qed.

(** ** What holds of every reachable world *)

Lemma reachable_flag w : reachable w → _isNegotiating (this w) = false.
Proof.
  intros (url & room & opts & dbg & e & rounds & evs & ->).
  pose proof (keeps_exec flag_only_falls rounds evs
    (new_World (new_Connection url room opts dbg) e) on_flag_only_falls) as H.
  destruct (_isNegotiating _) eqn:E; [|reflexivity]. by apply H in E.
Qed.

Lemma reachable_no_close w : reachable w → own (_callbacks (this w)) !! "close" = None.
Proof.
  intros (url & room & opts & dbg & e & rounds & evs & ->).
  by apply (keeps_exec close_stays_absent rounds evs _ on_close_stays_absent).
Qed.

Lemma reachable_subscribed w : reachable w → subscribed w.
Proof.
  intros (url & room & opts & dbg & e & rounds & evs & ->).
  apply (keeps_exec stays_subscribed rounds evs _ on_stays_subscribed).
  intros k Hk. simpl. unfold event_kinds in Hk.
  repeat (apply elem_of_cons in Hk as [->|Hk]; [by vm_compute; eauto|]).
  by apply elem_of_nil in Hk.
Qed.

(** ** [disconnect] reaches the closed form *)

Lemma emits_cons e es w : emits es (emit e w) = emits (e :: es) w.
Proof. unfold emits, emit. simpl. by rewrite <- app_assoc. Qed.

Lemma emits_nil w : emits [] w = w.
Proof. unfold emits. by rewrite app_nil_r. Qed.

Lemma forEach_close l w :
  forEach l (λ id, modify (with_channels (alter dc_close id))) w
  = (Ok tt, with_channels (λ chs, foldl (λ chs id, alter dc_close id chs) chs l) w).
Proof.
  revert w. induction l as [|id l IH]; intros w; simpl; [reflexivity|].
  unfold bind, modify. simpl. by rewrite IH.
Qed.

Lemma forEach_stop l w :
  forEach l (λ t, modify (emit (TrackStop t))) w = (Ok tt, emits (TrackStop <$> l) w).
Proof.
  revert w. induction l as [|t l IH]; intros w; simpl.
  - unfold ret. by rewrite emits_nil.
  - unfold bind, modify. simpl. by rewrite IH, emits_cons.
Qed.

(** Unfolds the monad around the statements at hand. *)
Ltac steps :=
  cbv beta iota zeta delta
    [bind ret gets modify throw try_catch detached when
     with_this with_channels with_connecting with_ws with_pc emit log
     set_stream set_remoteStreamId set_authnMetadata set_isNegotiating set_removeCodec
     set_ws set_pc set_dataChannels set_callbacks
     this channels trace console connecting env
     debug roomId signalingUrl options stream remoteStreamId authnMetadata
     _isNegotiating _removeCodec _ws _pc _dataChannels _callbacks];
  simpl.

(** Once the timers are running, a socket that is closing gets closed
    within its delay, and the wait ends; nothing but the socket has changed
    meanwhile. *)
Lemma await_closing_settles rounds p w :
  (poll_pc p = true → ∃ q, _pc (this w) = Some q ∧ pc_closed q = true) →
  (poll_ws p = true →
   ∃ s, _ws (this w) = Some s ∧ ws_readyState s ≠ CONNECTING ∧ ws_readyState s ≠ OPEN
        ∧ ws_closeDelay s < rounds) →
  0 < rounds →
  ∃ s', await_closing rounds p w = (Ok tt, with_this (set_ws s') w).
Proof.
  revert p w. induction rounds as [|r IH]; intros [ppc pws] w Hpc Hws Hr; [lia|].
  destruct w as [[dbg rm url op st rs au neg rc ws pc dcs cbs] chs tr cn cg e].
  simpl in *. unfold settled. simpl.
  destruct ppc, pws; simpl; [| | |by eexists].
  all: try (destruct Hpc as (q & -> & Hclosed); [done|]).
  all: try (destruct Hws as (s & -> & Hc & Ho & Hd); [done|]).
  all: unfold run_timers, timer_pc, timer_ws, env_tick; steps; rewrite ?Hclosed; simpl.
  2: { destruct r; simpl; by eexists. }
  all: unfold tick_ws.
  all: destruct (ws_readyState s) eqn:Est; try done; simpl.
  all: try (destruct (ws_closeDelay s) as [|n] eqn:En; simpl).
  all: try rewrite Est; simpl.
  all: try (destruct r; simpl; by eexists).
  all: edestruct (IH {| poll_pc := false; poll_ws := true |}) as (s' & Hs');
    [| | |rewrite Hs'; by eexists]; simpl; try done; try lia.
  all: intros _; eexists; split; [reflexivity|]; simpl; repeat split; try done; lia.
Qed.

(** Running a computation statement by statement. *)
Lemma bind_ok {A B} (m : M A) (k : A → M B) w a w' : m w = (Ok a, w') → bind m k w = k a w'.
Proof. unfold bind. by intros ->. Qed.

Lemma bind_assoc {A B C} (m : M A) (k1 : A → M B) (k2 : B → M C) w :
  bind (bind m k1) k2 w = bind m (λ a, bind (k1 a) k2) w.
Proof. unfold bind. by destruct (m w) as [[]]. Qed.

(** Consumes the first statement when its outcome is at hand. *)
Ltac next :=
  rewrite ?bind_assoc;
  erewrite bind_ok; [|first [reflexivity | apply forEach_close | apply forEach_stop]].

(** Names every field of the world and of [this]. *)
Ltac open_world w :=
  destruct w as [[the_debug the_roomId the_url the_options the_stream the_remoteStreamId
                  the_authn the_flag the_removeCodec the_ws the_pc the_dcs the_callbacks]
                 the_channels the_trace the_console the_connecting the_env];
  simpl in *; simplify_eq.

Lemma closePeerConnection_spec w :
  ∃ b pc', closePeerConnection w = (Ok b, with_this (set_pc pc') w)
    ∧ (b = true → ∃ q, pc' = Some q ∧ pc_closed q = true).
Proof.
  destruct (_pc (this w)) as [q|] eqn:Hpc;
    [destruct (bool_decide (browser (env w) = "safari")) eqn:Hb; [|destruct (pc_closed q) eqn:Hq]|].
  all: open_world w; unfold closePeerConnection; steps; rewrite ?Hb, ?Hq.
  - exists false, None. by split.
  - exists false, (Some q). by split.
  - exists true, (Some (pc_set_closed (pc_set_onice false q))). split; [done|]. by eauto.
  - exists false, None. by split.
Qed.

Lemma closeWebSocketConnection_spec w :
  ∃ b ws', closeWebSocketConnection w = (Ok b, with_this (set_ws ws') w)
    ∧ (b = true → ∃ s, ws' = Some s ∧ ws_readyState s ≠ CONNECTING
         ∧ ws_readyState s ≠ OPEN ∧ ws_closeDelay s = ws_delay w).
Proof.
  destruct (_ws (this w)) as [s|] eqn:Hws;
    [destruct (bool_decide (ws_readyState s = CLOSED)) eqn:Hst|].
  all: open_world w; unfold closeWebSocketConnection, ws_delay; steps; rewrite ?Hst.
  - exists false, (Some s). by split.
  - exists true, (Some (ws_close (ws_set_onclose OnCloseNoop s))).
    split; [done|]. intros _. eexists. split; [reflexivity|].
    apply bool_decide_eq_false in Hst.
    unfold ws_close. simpl. destruct (ws_readyState s) eqn:Est; simpl; rewrite ?Est; done.
  - exists false, None. by split.
Qed.

(** What the synchronous part of [disconnect] leaves behind: timers that
    will resolve, and a world the continuation turns into [torn_down]. *)
Lemma disconnect_begin_spec w :
  ∃ p w1, disconnect_begin w = (Ok p, w1)
    ∧ (poll_pc p = true → ∃ q, _pc (this w1) = Some q ∧ pc_closed q = true)
    ∧ (poll_ws p = true → ∃ s, _ws (this w1) = Some s ∧ ws_readyState s ≠ CONNECTING
         ∧ ws_readyState s ≠ OPEN ∧ ws_closeDelay s = ws_delay w)
    ∧ (∀ s', disconnect_end (with_this (set_ws s') w1) = (Ok tt, torn_down w))
    ∧ _isNegotiating (this w1) = false.
Proof.
  unfold disconnect_begin. do 2 next.
  match goal with |- context [bind closePeerConnection _ ?w1] =>
    destruct (closePeerConnection_spec w1) as (ppc & pc' & Hpc & Hq) end.
  rewrite (bind_ok _ _ _ _ _ Hpc).
  match goal with |- context [bind closeWebSocketConnection _ ?w1] =>
    destruct (closeWebSocketConnection_spec w1) as (pws & ws' & Hws & Hs) end.
  rewrite (bind_ok _ _ _ _ _ Hws). next.
  destruct (stream (this w)) as [s0|] eqn:Hst; simpl; rewrite Hst; repeat next.
  all: do 2 eexists; (split; [reflexivity|]); split; [|split; [|split; [|reflexivity]]].
  all: try (intros s'; clear Hpc Hws; open_world w;
            unfold torn_down, stops, close_registered, disconnect_end, emits; steps;
            rewrite ?app_nil_r; reflexivity).
  all: simpl; intros Hp; first [destruct (Hq Hp) as (q & -> & ?) | destruct (Hs Hp) as (s & -> & ?)].
  all: eexists; split; [reflexivity|]; done.
Qed.

(** A [disconnect] that no other call interleaves with completes. *)
Lemma disconnect_alone rounds w :
  ws_delay w < rounds → disconnect rounds w = (Ok tt, torn_down w).
Proof.
  intros Hd. destruct (disconnect_begin_spec w) as (p & w1 & Hbegin & Hpc & Hws & Hend & _).
  unfold disconnect. rewrite (bind_ok _ _ _ _ _ Hbegin).
  destruct (await_closing_settles rounds p w1) as (s' & Hawait); [done| |lia|].
  { intros Hp. destruct (Hws Hp) as (s & ? & ? & ? & ?). exists s. repeat split; try done. lia. }
  rewrite (bind_ok _ _ _ _ _ Hawait). apply Hend.
Qed.

(** ** C1: [disconnect] *)

Lemma torn_down_idle w : idle (torn_down w).
Proof. by repeat split. Qed.

Lemma torn_down_of_idle w : idle w → torn_down w = w.
Proof.
  intros (? & ? & ? & ? & ? & ? & ? & ?). open_world w.
  unfold torn_down, stops, close_registered. simpl. by rewrite app_nil_r.
Qed.

(** A call from a world without socket and engine needs no timer at all. *)
Lemma disconnect_idle rounds w : idle w → disconnect rounds w = (Ok tt, w).
Proof.
  intros (? & ? & ? & ? & ? & ? & ? & ?). open_world w.
  unfold disconnect, disconnect_begin, closePeerConnection, closeWebSocketConnection, disconnect_end.
  steps. by destruct rounds.
Qed.

(** C1, as the code has it.  A call of [disconnect()] that runs alone (no
    other call of it suspended meanwhile) completes without throwing once the
    socket has had the time to close; a second call right after it completes
    too and leaves the world exactly as the first one left it; and a call
    from the idle state changes nothing. *)
Theorem disconnect_alone_idempotent rounds rounds' w :
  ws_delay w < rounds →
  ∃ w1, disconnect rounds w = (Ok tt, w1)
        ∧ disconnect rounds' w1 = (Ok tt, w1)
        ∧ (idle w → w1 = w).
Proof.
  intros Hd. exists (torn_down w). split; [by apply disconnect_alone|]. split.
  - apply disconnect_idle, torn_down_idle.
  - apply torn_down_of_idle.
Qed.

Lemma disconnect_alone_idempotent_witness :
  ∃ w1, disconnect 1 established = (Ok tt, w1)
        ∧ disconnect 0 w1 = (Ok tt, w1)
        ∧ (idle established → w1 = established).
Proof. apply (disconnect_alone_idempotent 1 0 established). vm_compute. lia. Defined.

(** A single call goes the same way in the timer-by-timer model. *)
Example disconnect_single_call :
  Overlap.calls 1 1 established = ([Overlap.Returned], torn_down established).
Proof. by vm_compute. Qed.

(** C1 as the specification states it fails: of two calls made in one turn
    on an established connection, the first returns and the second is
    rejected with the string of line 245, its timer finding [this._ws]
    already cleared by the continuation of the first. *)
Lemma disconnect_overlapping_raises :
  fst (Overlap.calls 2 1 established)
  = [Overlap.Returned; Overlap.Raised (Reason "WebSocket Closing Error")].
Proof. vm_compute. reflexivity. Qed.

(** ** C2: a second [connect] *)

(** C2.  While a socket or an engine exists, [connect] is rejected with the
    error of line 153; no field of [this] has changed, no channel, nothing
    was sent and no callback fired, and the pending [connect] is as it was.
    (With [debug] set, one line went to the console.) *)
Theorem connect_while_connected_rejected s authn w :
  is_Some (_ws (this w)) ∨ is_Some (_pc (this w)) →
  ∃ w', connect s authn w = (Throw AlreadyConnectedError, w')
        ∧ this w' = this w ∧ channels w' = channels w ∧ trace w' = trace w
        ∧ connecting w' = connecting w ∧ env w' = env w.
Proof.
  intros H. open_world w. unfold connect, _traceLog. steps.
  match goal with |- context [bool_decide ?P || bool_decide ?Q] =>
    assert (bool_decide P || bool_decide Q = true) as ->
  end.
  { destruct H as [H|H]; apply orb_true_iff; [left|right]; by apply bool_decide_eq_true. }
  by destruct the_debug; eexists.
Qed.

Lemma connect_while_connected_rejected_witness :
  ∃ w', connect None (Some "token") established = (Throw AlreadyConnectedError, w')
        ∧ this w' = this established ∧ channels w' = channels established
        ∧ trace w' = trace established ∧ connecting w' = connecting established
        ∧ env w' = env established.
Proof.
  apply (connect_while_connected_rejected None (Some "token") established).
  left. vm_compute. eauto.
Defined.

(** ** C10: frames that are not text *)

(** C10.  The message handler returns at once on a payload that is not a
    string: the world is the same, whatever it was, and so it is when the
    frame is delivered through the event loop. *)
Theorem binary_message_ignored rounds w :
  ws_onmessage_handler rounds Binary w = (Ok tt, w)
  ∧ step rounds (SocketMessage Binary) w = (Ok tt, w).
Proof.
  split; [reflexivity|].
  open_world w. unfold step. steps.
  match goal with |- context [match ?ws with Some _ => _ | None => _ end] =>
    destruct ws as [s|]; [|reflexivity]
  end.
  by destruct (bool_decide (ws_readyState s = OPEN) && ws_onmessage s).
Qed.

(** ** Handlers that tear down *)

(** Unfolds the monad and leaves the worlds as they are written. *)
Ltac unbind :=
  cbv beta iota zeta delta [bind ret gets modify throw try_catch detached when].

Lemma invoke_cases kind arg w :
  (∃ cb, own (_callbacks (this w)) !! kind = Some cb
         ∧ invoke kind arg w = (Ok tt, emit (Fire kind cb arg) w))
  ∨ (own (_callbacks (this w)) !! kind = None
     ∧ invoke kind arg w = (Throw (NotAFunction kind), w)).
Proof.
  unfold invoke. unbind. simpl.
  destruct (own (_callbacks (this w)) !! kind) as [cb|]; [left; eauto | right; eauto].
Qed.

Lemma invoke_ok kind arg w cb :
  own (_callbacks (this w)) !! kind = Some cb →
  invoke kind arg w = (Ok tt, emit (Fire kind cb arg) w).
Proof. intros H. destruct (invoke_cases kind arg w) as [(? & ? & ->)|(? & ->)]; congruence. Qed.

Lemma invoke_missing kind arg w :
  own (_callbacks (this w)) !! kind = None →
  invoke kind arg w = (Throw (NotAFunction kind), w).
Proof. intros H. destruct (invoke_cases kind arg w) as [(? & ? & ->)|(? & ->)]; congruence. Qed.

Lemma settle_spec p w : ∃ c, settle p w = (Ok tt, with_connecting c w).
Proof.
  unfold settle. unbind. destruct (connecting w) as [[]|] eqn:E; eexists; try reflexivity.
  all: by rewrite <- E.
Qed.

Lemma settle_unsettled p w :
  connecting w = Some Unsettled → settle p w = (Ok tt, with_connecting (Some p) w).
Proof. intros H. unfold settle. unbind. by rewrite H. Qed.

(** Rewrites the teardowns of the goal into their closed form; [Hd] bounds
    the closing delay of the socket. *)
Ltac teardown Hd :=
  match goal with
  | |- context [disconnect ?r ?W] =>
      rewrite (disconnect_alone r W) by first [exact Hd | unfold ws_delay; simpl; lia]
  end.

(** ** C7: what a teardown leaves *)

(** C7.  Whatever triggers it, the teardown runs to its end once the socket
    has had the time to close, and then the registry of data channels is
    empty and the references to the engine and to the socket are cleared.
    (The table has no [close] entry: see [reachable_no_close].) *)
Theorem teardown_clears rounds t w :
  ws_delay w < rounds →
  own (_callbacks (this w)) !! "close" = None →
  ∃ r w', handler_of rounds t w = (r, w') ∧ r ≠ StillWaiting ∧ cleared w'.
Proof.
  intros Hd Hclose.
  destruct t as [| | | |[]|]; simpl;
    unfold ws_onmessage_handler, frame, dispatch, ws_onerror_handler, ws_onclose_handler,
      pc_oniceconnectionstatechange_handler, _traceLog; simpl; unbind;
    try destruct (debug (this w)); simpl.
  all: repeat first
    [ teardown Hd
    | match goal with |- context [invoke ?k ?a ?W] =>
        destruct (invoke_cases k a W) as [(? & ? & ->)|(? & ->)]; [try congruence|] end
    | match goal with |- context [settle ?p ?W] => destruct (settle_spec p W) as (? & ->) end
    | progress simpl ].
  all: eexists _, _; (split; [reflexivity|]); split; [done | by repeat split].
Qed.

Lemma teardown_clears_witness :
  ∃ r w', handler_of 1 EngineFailed established = (r, w') ∧ r ≠ StillWaiting ∧ cleared w'.
Proof. apply (teardown_clears 1 EngineFailed established); vm_compute; [lia | reflexivity]. Defined.

(** The explicit call in particular: it returns, and leaves a cleared world. *)
Lemma disconnect_clears rounds w :
  ws_delay w < rounds → ∃ w', disconnect rounds w = (Ok tt, w') ∧ cleared w'.
Proof. intros Hd. exists (torn_down w). split; [by apply disconnect_alone | by repeat split]. Qed.

(** ** C6: reject *)

Lemma dispatch_reject rounds o :
  j_type o = Some "reject" →
  dispatch rounds o
  = (disconnect rounds ;;
     invoke "disconnect" (Disconnected "REJECTED" None) ;;
     settle (Rejected (Reason "REJECTED"))).
Proof. intros H. unfold dispatch. rewrite H. reflexivity. Qed.





Example register_then_reject :
  let w := snd (exec 1 [CallConnect None None; SocketOpen; SocketMessage (frame "reject")] fresh) in
  trace w = [WsSend (RegisterMessage "room" "client" None);
             Fire "disconnect" Initial (Disconnected "REJECTED" None)]
  ∧ connecting w = Some (Rejected (Reason "REJECTED"))
  ∧ _pc (this w) = None.
Proof. vm_compute. auto. Qed.


(** The settling of the promise comes last (line 320).  If the call of line
    319 fails, as it does when nothing callable is under the key, the
    [catch] of line 332 tears down once more, its own call of the subscriber
    fails as well, and the promise is left as it was. *)
Lemma reject_call_fails_leaves_pending rounds w o :
  j_type o = Some "reject" →
  ws_delay w < rounds →
  own (_callbacks (this w)) !! "disconnect" = None →
  ∃ w', ws_onmessage_handler rounds (Text (Some (JObj o))) w
        = (Throw (NotAFunction "disconnect"), w')
        ∧ connecting w' = connecting w.
Proof.
  intros Hty Hd Hcb.
  assert (Hd' : ws_delay (torn_down w) < rounds) by (unfold ws_delay in *; simpl; lia).
  unfold ws_onmessage_handler. rewrite (dispatch_reject _ _ Hty).
  unfold try_catch. unbind. rewrite (disconnect_alone rounds w Hd).
  unfold invoke at 1. unbind. simpl. rewrite Hcb.
  rewrite (disconnect_alone rounds _ Hd').
  unfold invoke. unbind. simpl. rewrite Hcb. by eexists.
Qed.

(** ** C4: the close message *)

Lemma reachable_established : reachable established.
Proof.
  exists "wss://signaling.example/ws", "room", (defaultOptions "client"), false, chrome, 1,
    [CallConnect None None; SocketOpen; SocketMessage (frame "accept"); ChannelOpen 0;
     SocketMessage (frame "answer"); EngineIceState IceConnected].
  vm_compute. reflexivity.
Qed.

(** C4, what the code does.  The handler of a close message calls
    [this._callbacks.close], a property the table never has; the TypeError
    lands in the [catch] of line 332, which tears the connection down and
    raises the disconnect event tagged SIGNALING-ERROR, the tag of a
    malformed message, with the TypeError as its error. *)
Theorem close_message_is_a_signaling_error rounds w :
  reachable w →
  ws_delay w < rounds →
  ∃ cb,
    ws_onmessage_handler rounds (frame "close") w
    = (Ok tt, emit (Fire "disconnect" cb
                      (Disconnected "SIGNALING-ERROR" (Some (NotAFunction "close"))))
                   (torn_down w)).
Proof.
  intros Hr Hd.
  pose proof (reachable_no_close w Hr) as Hclose.
  destruct (reachable_subscribed w Hr "disconnect") as [cb Hcb]; [set_solver|].
  exists cb. unfold ws_onmessage_handler, frame, dispatch. simpl. unbind.
  rewrite (invoke_missing _ _ _ Hclose). teardown Hd.
  by rewrite (invoke_ok _ _ _ cb) by exact Hcb.
Qed.

Lemma close_message_is_a_signaling_error_witness :
  ∃ cb,
    ws_onmessage_handler 1 (frame "close") established
    = (Ok tt, emit (Fire "disconnect" cb
                      (Disconnected "SIGNALING-ERROR" (Some (NotAFunction "close"))))
                   (torn_down established)).
Proof.
  apply (close_message_is_a_signaling_error 1 established reachable_established).
  vm_compute. lia.
Defined.

Example close_message_trace :
  trace (snd (step 1 (SocketMessage (frame "close")) registering))
  = [WsSend (RegisterMessage "room" "client" None);
     Fire "disconnect" Initial
       (Disconnected "SIGNALING-ERROR" (Some (JsError "TypeError" "close is not a function")))].
Proof. vm_compute. reflexivity. Qed.

(** ** C9: [on] *)

(** A kind that is an own property of the table gets the new subscriber in
    place of the previous one. *)
Lemma on_known_kind kind callback w :
  is_Some (own (_callbacks (this w)) !! kind) →
  on kind callback w
  = (Ok tt, with_this (set_callbacks {| own := <[kind := callback]> (own (_callbacks (this w)));
                                        proto := proto (_callbacks (this w)) |}) w).
Proof.
  intros H. unfold on, has_property, set_property. unbind.
  by rewrite (bool_decide_eq_true_2 _ H).
Qed.

(** A kind that is no property of the table, own or inherited, is ignored. *)
Lemma on_unknown_kind kind callback w :
  has_property kind (_callbacks (this w)) = false → on kind callback w = (Ok tt, w).
Proof. intros H. unfold on. unbind. by rewrite H. Qed.

(** C9, what the code does.  [kind in this._callbacks] is also true of the
    names the table inherits from [Object.prototype]: [on("toString", f)]
    passes the test of line 139 and writes a sixth entry into the table. *)
Theorem on_inherited_kind_is_stored :
  let w := snd (on "toString" (Subscriber 1) fresh) in
  own (_callbacks (this fresh)) !! "toString" = None
  ∧ own (_callbacks (this w)) !! "toString" = Some (Subscriber 1)
  ∧ _callbacks (this w) ≠ _callbacks (this fresh).
Proof.
  split; [by vm_compute|]. split; [by vm_compute|].
  intros H. apply (f_equal (λ t, own t !! "toString")) in H. by vm_compute in H.
Qed.

(** ** C3: the negotiation flag *)

Lemma disconnect_clears_flag rounds w : _isNegotiating (this (snd (disconnect rounds w))) = false.
Proof.
  destruct (disconnect_begin_spec w) as (p & w1 & Hbegin & _ & _ & _ & Hflag).
  unfold disconnect. rewrite (bind_ok _ _ _ _ _ Hbegin).
  assert (keeps flag_only_falls (await_closing rounds p ;; disconnect_end)) as Hk.
  { apply (keeps_bind flag_only_falls);
      [apply keeps_await_closing | intros _; apply keeps_disconnect_end]; exact _. }
  specialize (Hk w1). destruct (_isNegotiating (this (snd _))) eqn:E; [|reflexivity].
  apply Hk in E. congruence.
Qed.

(** C3, as the code has it.  The constructor sets the flag to false and
    nothing raises it: an event that finds it false leaves it false,
    whatever the event and whatever the world; the engine's report of the
    connected state writes false to it, and so does every teardown.  In the
    scenario register, accept, offer sent, answer received, connected, the
    flag is false at the end (as it was all along). *)
Theorem negotiation_flag_never_raised :
  (∀ url room opts dbg, _isNegotiating (new_Connection url room opts dbg) = false)
  ∧ (∀ rounds ev w,
       _isNegotiating (this w) = false →
       _isNegotiating (this (snd (step rounds ev w))) = false)
  ∧ (∀ rounds w,
       _isNegotiating (this (snd (pc_oniceconnectionstatechange_handler rounds IceConnected w)))
       = false)
  ∧ (∀ rounds w, _isNegotiating (this (snd (disconnect rounds w))) = false)
  ∧ _isNegotiating (this negotiated) = false.
Proof.
  split; [reflexivity|]. split; [|split; [|split]].
  - intros rounds ev w Hw.
    pose proof (keeps_step flag_only_falls rounds ev on_flag_only_falls w) as Hk.
    destruct (_isNegotiating (this (snd _))) eqn:E; [|reflexivity].
    apply Hk in E. congruence.
  - intros rounds w. unfold pc_oniceconnectionstatechange_handler, _traceLog. unbind.
    by destruct (debug (this w)).
  - apply disconnect_clears_flag.
  - by vm_compute.
Qed.

Lemma negotiation_flag_never_raised_witness :
  _isNegotiating (this (snd (step 1 (SocketMessage (frame "accept")) registering))) = false.
Proof.
  apply (proj1 (proj2 negotiation_flag_never_raised) 1 (SocketMessage (frame "accept"))
           registering).
  vm_compute. reflexivity.
Defined.

(** C3 as the specification states it fails: the accept has been handled,
    the offer created and sent, and the flag is false. *)
Lemma offer_sent_flag_still_false :
  let w := snd (step 1 (SocketMessage (frame "accept")) registering) in
  trace w = [WsSend (RegisterMessage "room" "client" None);
             NewPeerConnection;
             WsSend (Description {| sd_type := offer; sd_sdp := RawSdp "v=0 (offer)" |});
             Fire "connect" Initial (ConnectInfo None)]
  ∧ _isNegotiating (this w) = false.
Proof. by vm_compute. Qed.

(** ** C8: sending on a data channel *)

Lemma label_is_alter_readyState chs st i label id :
  label_is (alter (set_readyState st) i chs) label id = label_is chs label id.
Proof.
  unfold label_is. destruct (decide (i = id)) as [->|Hne].
  - rewrite list_lookup_alter_eq. by destruct (chs !! id).
  - by rewrite list_lookup_alter_ne.
Qed.

Lemma find_app_none {A} (f : A → bool) l x :
  List.find f l = None → f x = true → List.find f (l ++ [x]) = Some x.
Proof.
  induction l as [|y l IH]; simpl; intros H Hx; [by rewrite Hx|].
  destruct (f y); [done | by apply IH].
Qed.

Lemma find_ext {A} (f g : A → bool) l : (∀ x, f x = g x) → List.find f l = List.find g l.
Proof. intros H. induction l as [|x l IH]; simpl; [done|]. by rewrite H, IH. Qed.

Lemma sendData_rejects params label w :
  (∀ id d, id ∈ _dataChannels (this w) → channels w !! id = Some d →
           dc_label d = label → dc_readyState d ≠ DcOpen) →
  ∃ w', sendData params label w = (Throw ChannelNotOpenError, w') ∧ trace w' = trace w.
Proof.
  intros Hnone. unfold sendData, _traceLog, _findDataChannel. unbind.
  destruct (debug (this w)); simpl.
  all: try change (find_channel (log _ w) label) with (find_channel w label).
  all: try change (channels (log _ w)) with (channels w).
  all: destruct (find_channel w label) as [id|] eqn:Hfind; [|by eexists].
  all: unfold find_channel in Hfind; apply find_some in Hfind as [Hin Hlabel].
  all: apply list_elem_of_In in Hin; unfold label_is in Hlabel.
  all: destruct (channels w !! id) as [d|] eqn:Hd; [|discriminate Hlabel].
  all: apply bool_decide_eq_true in Hlabel.
  all: rewrite (bool_decide_eq_false_2 _ (Hnone id d Hin Hd Hlabel)); by eexists.
Qed.

Lemma sendData_sends params label w id d :
  find_channel w label = Some id → channels w !! id = Some d → dc_readyState d = DcOpen →
  ∃ w', sendData params label w = (Ok tt, w') ∧ trace w' = (trace w ++ [DcSend id params])%list.
Proof.
  intros Hfind Hd Hopen. unfold sendData, _traceLog, _findDataChannel. unbind.
  destruct (debug (this w)); simpl.
  all: try change (find_channel (log _ w) label) with (find_channel w label).
  all: try change (channels (log _ w)) with (channels w).
  all: rewrite Hfind, Hd, (bool_decide_eq_true_2 _ Hopen); by eexists.
Qed.

(** The [onopen] of a channel made by [addDataChannel] registers it. *)
Lemma channel_open_registers rounds w id d :
  channels w !! id = Some d → dc_handlers d = LocalHandlers →
  dc_readyState d = DcConnecting →
  ∃ w', step rounds (ChannelOpen id) w = (Ok tt, w')
        ∧ channels w' = alter (set_readyState DcOpen) id (channels w)
        ∧ _dataChannels (this w') = (_dataChannels (this w) ++ [id])%list.
Proof.
  intros Hd Hlocal Hst. unfold step, dc_onopen, handlers_of, readyState_of, _traceLog.
  unbind. simpl.
  rewrite Hd. simpl. rewrite Hst. simpl.
  rewrite list_lookup_alter_eq, Hd. simpl. rewrite Hlocal.
  destruct (debug (this w)); by eexists.
Qed.

Lemma find_first {A} (f : A → bool) before x after :
  (∀ y, y ∈ before → f y = false) → f x = true →
  List.find f (before ++ x :: after) = Some x.
Proof.
  intros Hb Hx. induction before as [|y l IH]; simpl; [by rewrite Hx|].
  rewrite (Hb y) by left. apply IH. intros z Hz. apply Hb. by right.
Qed.

Lemma find_none_all {A} (f : A → bool) l :
  (∀ y, y ∈ l → f y = false) → List.find f l = None.
Proof.
  intros H. induction l as [|y l IH]; simpl; [done|].
  rewrite (H y) by left. apply IH. intros z Hz. apply H. by right.
Qed.

Lemma sendData_closed params label w id d :
  find_channel w label = Some id → channels w !! id = Some d → dc_readyState d ≠ DcOpen →
  ∃ w', sendData params label w = (Throw ChannelNotOpenError, w') ∧ trace w' = trace w.
Proof.
  intros Hfind Hd Hopen. unfold sendData, _traceLog, _findDataChannel. unbind.
  destruct (debug (this w)); simpl.
  all: try change (find_channel (log _ w) label) with (find_channel w label).
  all: try change (channels (log _ w)) with (channels w).
  all: rewrite Hfind, Hd, (bool_decide_eq_false_2 _ Hopen); by eexists.
Qed.

(** C8, what the code does.  [sendData] is decided by the first registered
    channel that carries the label, and by that one alone: it hands the
    payload to it if it is open, and fails with the rejection of line 201,
    sending nothing, if it is not, whatever the channels registered after it.
    So it fails whenever no registered channel with the label is open, and
    succeeds right after the [onopen] of a channel made by [addDataChannel]
    if no registered channel had the label before.  With one channel per
    label this is what the specification asks; the registry can hold a label
    twice, though, [addDataChannel] checking the registered channels (line
    164) while a channel is registered on opening only (line 184), and then
    an open channel behind a closing one is not found. *)
Theorem sendData_first_match params label w :
  ((∀ id d, id ∈ _dataChannels (this w) → channels w !! id = Some d →
            dc_label d = label → dc_readyState d ≠ DcOpen) →
   ∃ w', sendData params label w = (Throw ChannelNotOpenError, w') ∧ trace w' = trace w)
  ∧ (∀ before id after d,
       _dataChannels (this w) = (before ++ id :: after)%list →
       (∀ x, x ∈ before → label_is (channels w) label x = false) →
       channels w !! id = Some d → dc_label d = label →
       ∃ w', sendData params label w
             = (if bool_decide (dc_readyState d = DcOpen) then Ok tt
                else Throw ChannelNotOpenError, w')
             ∧ trace w' = (trace w ++ if bool_decide (dc_readyState d = DcOpen)
                                      then [DcSend id params] else [])%list)
  ∧ (∀ rounds id d, channels w !! id = Some d → dc_handlers d = LocalHandlers →
                    dc_readyState d = DcConnecting → dc_label d = label →
                    (∀ x, x ∈ _dataChannels (this w) → label_is (channels w) label x = false) →
     ∃ w1 w2, step rounds (ChannelOpen id) w = (Ok tt, w1)
              ∧ sendData params label w1 = (Ok tt, w2)
              ∧ trace w2 = (trace w1 ++ [DcSend id params])%list).
Proof.
  split; [apply sendData_rejects|]. split.
  - intros before id after d Hreg Hbefore Hd Hlabel.
    assert (Hfind : find_channel w label = Some id).
    { unfold find_channel. rewrite Hreg. apply find_first; [exact Hbefore|].
      unfold label_is. rewrite Hd. by apply bool_decide_eq_true. }
    destruct (decide (dc_readyState d = DcOpen)) as [Hopen|Hopen].
    + rewrite (bool_decide_eq_true_2 _ Hopen). by apply (sendData_sends _ _ _ _ d).
    + rewrite (bool_decide_eq_false_2 _ Hopen), app_nil_r.
      by apply (sendData_closed _ _ _ id d).
  - intros rounds id d Hd Hlocal Hst Hlabel Hnone.
    destruct (channel_open_registers rounds w id d Hd Hlocal Hst) as (w1 & Hstep & Hchs & Hreg).
    exists w1.
    destruct (sendData_sends params label w1 id (set_readyState DcOpen d)) as (w2 & Hsend & Ht);
      [| |done|by exists w2].
    + unfold find_channel. rewrite Hreg, Hchs. apply find_app_none.
      * rewrite <- (find_none_all _ _ Hnone). apply find_ext.
        intros x. apply label_is_alter_readyState.
      * rewrite label_is_alter_readyState. unfold label_is. rewrite Hd.
        by apply bool_decide_eq_true.
    + by rewrite Hchs, list_lookup_alter_eq, Hd.
Qed.

(** In the world [shadowed] the registry is [0; 1; 2]: channel 1, closing,
    is the first labelled ["chat"] and decides, although channel 2 behind it
    carries the label too and is open. *)
Lemma sendData_first_match_witness :
  _dataChannels (this shadowed) = [0; 1; 2]
  ∧ channels shadowed !! 2 = Some {| dc_label := "chat"; dc_readyState := DcOpen;
                                     dc_handlers := LocalHandlers |}
  ∧ ∃ w', sendData "hello" "chat" shadowed = (Throw ChannelNotOpenError, w')
          ∧ trace w' = (trace shadowed ++ [])%list.
Proof.
  split; [by vm_compute|]. split; [by vm_compute|].
  apply (proj1 (proj2 (sendData_first_match "hello" "chat" shadowed))
           [0] 1 [2] {| dc_label := "chat"; dc_readyState := DcClosing;
                        dc_handlers := LocalHandlers |}).
  - by vm_compute.
  - intros x Hx. apply list_elem_of_singleton in Hx as ->. by vm_compute.
  - by vm_compute.
  - reflexivity.
Defined.

(** The same on the default channel: right after its [onopen], [sendData]
    goes through. *)
Example sendData_after_open :
  fst (sendData "hello" "dataChannel"
         (snd (exec 1 [SocketMessage (frame "accept"); ChannelOpen 0] registering)))
  = Ok tt.
Proof. by vm_compute. Qed.

(** The run that leads to [shadowed]: both calls of [addDataChannel] are
    fulfilled, the second channel is registered and open, and [sendData] on
    the label is rejected, [find] having stopped at the first. *)
Lemma sendData_open_channel_shadowed :
  fst (exec 1 [CallAddDataChannel "chat"; CallAddDataChannel "chat";
               ChannelOpen 1; ChannelOpen 2; ChannelClosing 1] established)
  = [Ok tt; Ok tt; Ok tt; Ok tt; Ok tt]
  ∧ _dataChannels (this shadowed) = [0; 1; 2]
  ∧ channels shadowed !! 1 = Some {| dc_label := "chat"; dc_readyState := DcClosing;
                                     dc_handlers := LocalHandlers |}
  ∧ channels shadowed !! 2 = Some {| dc_label := "chat"; dc_readyState := DcOpen;
                                     dc_handlers := LocalHandlers |}
  ∧ fst (sendData "hello" "chat" shadowed) = Throw ChannelNotOpenError.
Proof. by vm_compute. Qed.

(** ** C5: accept *)

Lemma last_index_app f l x i acc :
  last_index f (l ++ [x]) i acc
  = if f x then Some (i + length l) else last_index f l i acc.
Proof.
  revert i acc. induction l as [|y l IH]; intros i acc; simpl.
  - destruct (f x); [f_equal; lia | done].
  - rewrite IH. destruct (f x); [f_equal; lia | done].
Qed.

Lemma _getTransceiver_addTrack k t p w :
  _getTransceiver (addTrack k t p) k t w = (Ok (length (pc_transceivers p)), w).
Proof.
  unfold _getTransceiver, addTrack. simpl. rewrite last_index_app.
  unfold sends. simpl. by rewrite !bool_decide_eq_true_2.
Qed.

Lemma prefer_codec_spec o i p w :
  ∃ p' rc cn,
    prefer_codec o i p w = (Ok p', set_console cn (with_this (set_removeCodec rc) w))
    ∧ pc_closed p' = pc_closed p.
Proof.
  unfold prefer_codec, _traceLog. unbind.
  destruct (_isVideoCodecSpecified o); [destruct (has_setCodecPreferences (env w));
    [destruct (debug (this w))|]|]; simpl.
  - exists (setCodecPreferences i (default VP9 (v_codec (o_video o))) p),
      (_removeCodec (this w)), (console w ++ ["video codecs="])%list. by split.
  - exists (setCodecPreferences i (default VP9 (v_codec (o_video o))) p),
      (_removeCodec (this w)), (console w). by split.
  - exists p, true, (console w). by split.
  - exists p, (_removeCodec (this w)), (console w). by split.
Qed.

Lemma _createPeerConnection_spec w :
  engine_constructible (env w) = true →
  ∃ p rc cn,
    _createPeerConnection w
    = (Ok p, set_console cn (with_this (set_removeCodec rc) (emit NewPeerConnection w)))
    ∧ pc_closed p = false.
Proof.
  intros Hc. unfold _createPeerConnection. unbind. rewrite Hc. simpl.
  set (pa := match stream (this w) ≫= (λ s, head (audioTracks s)) with
             | Some _ => _ | None => _ end).
  assert (pc_closed pa = false) as Hpa.
  { subst pa. repeat case_match; reflexivity. }
  clearbody pa.
  destruct (stream (this w) ≫= (λ s, head (videoTracks s))) as [t|];
    [case_bool_decide|]; try destruct (v_enabled (o_video (options (this w)))).
  all: rewrite ?_getTransceiver_addTrack.
  all: try match goal with |- context [prefer_codec ?o ?i ?p ?W] =>
         destruct (prefer_codec_spec o i p W) as (p' & rc & cn & -> & Hp') end.
  all: eexists _, _, _; (split; [reflexivity|]); simpl; rewrite ?Hp'; done.
Qed.

Lemma addDataChannel_spec label w p :
  _pc (this w) = Some p → pc_closed p = false → find_channel w label = None →
  addDataChannel label w
  = (Ok tt, with_channels (λ chs, chs ++ [{| dc_label := label; dc_readyState := DcConnecting;
                                              dc_handlers := LocalHandlers |}])%list w).
Proof.
  intros Hpc Hopen Hfind. unfold addDataChannel, _findDataChannel, new_channel. unbind.
  by rewrite Hpc, Hfind, Hopen.
Qed.

Lemma _sendOffer_spec w p s text :
  _pc (this w) = Some p → _ws (this w) = Some s → ws_readyState s = OPEN →
  createOffer_result (env w) = Some text → setLocalDescription_ok (env w) = true →
  ∃ p' cn d,
    _sendOffer w
    = (Ok tt, set_console cn (with_this (set_pc (Some p')) (emit (WsSend (Description d)) w)))
    ∧ sd_type d = offer.
Proof.
  intros Hpc Hws Hopen Hoffer Hlocal. open_world w.
  unfold _sendOffer, createOffer, setLocalDescription, localDescription, _sendSdp, _sendWs,
    ws_send, _traceLog, set_console.
  steps.
  destruct (bool_decide (browser the_env = "safari")); simpl.
  all: try (destruct (v_enabled (o_video the_options)
                      && bool_decide (v_direction (o_video the_options) = sendrecv)); simpl).
  all: try (destruct (a_enabled (o_audio the_options)
                      && bool_decide (a_direction (o_audio the_options) = sendrecv)); simpl).
  all: rewrite Hoffer; simpl; destruct the_debug; simpl; rewrite Hlocal; simpl; rewrite Hopen.
  all: eexists _, _, _; (split; [reflexivity|]).
  all: destruct the_removeCodec, (v_codec (o_video the_options)); reflexivity.
Qed.

Lemma dispatch_accept rounds o :
  j_type o = Some "accept" →
  dispatch rounds o
  = (pc <- gets (fun w => _pc (this w)) ;;
     match pc with
     | None => created <- _createPeerConnection ;; modify (with_this (set_pc (Some created)))
     | Some _ => ret tt
     end ;;
     addDataChannel "dataChannel" ;;
     _sendOffer ;;
     invoke "connect" (ConnectInfo (j_authzMetadata o)) ;;
     modify (with_ws (ws_set_onclose OnCloseAfterAccept)) ;;
     settle Fulfilled).
Proof. intros H. unfold dispatch. rewrite H. reflexivity. Qed.

Lemma try_catch_ok {A} (m : M A) h w a w' : m w = (Ok a, w') → try_catch m h w = (Ok a, w').
Proof. unfold try_catch. by intros ->. Qed.

Lemma dispatch_accept_ok rounds w o s cb text :
  j_type o = Some "accept" →
  _ws (this w) = Some s → ws_readyState s = OPEN →
  match _pc (this w) with
  | Some p => pc_closed p = false
  | None => engine_constructible (env w) = true
  end →
  find_channel w "dataChannel" = None →
  createOffer_result (env w) = Some text →
  setLocalDescription_ok (env w) = true →
  own (_callbacks (this w)) !! "connect" = Some cb →
  ∃ w' d,
    dispatch rounds o w = (Ok tt, w')
    ∧ sd_type d = offer
    ∧ trace w'
      = (trace w ++ match _pc (this w) with Some _ => [] | None => [NewPeerConnection] end
         ++ [WsSend (Description d); Fire "connect" cb (ConnectInfo (j_authzMetadata o))])%list.
Proof.
  intros Hty Hws Hopen Hpc Hfind Hoffer Hlocal Hcb.
  rewrite (dispatch_accept _ _ Hty). next.
  destruct (_pc (this w)) as [p|] eqn:Hp.
  - next.
    rewrite (bind_ok _ _ _ _ _ (addDataChannel_spec "dataChannel" w p Hp Hpc Hfind)).
    match goal with |- context [bind _sendOffer _ ?W] =>
      destruct (_sendOffer_spec W p s text) as (p' & cn & d & Hsend & Hd); try done end.
    rewrite (bind_ok _ _ _ _ _ Hsend).
    match goal with |- context [bind (invoke ?k ?a) _ ?W] =>
      rewrite (bind_ok _ _ _ _ _ (invoke_ok k a W cb Hcb)) end.
    next.
    match goal with |- context [settle ?p ?W] => destruct (settle_spec p W) as (c & ->) end.
    eexists _, d. split; [reflexivity|]. split; [done|]. simpl. by rewrite <- app_assoc.
  - rewrite bind_assoc.
    destruct (_createPeerConnection_spec w Hpc) as (p & rc & cn0 & Hcreate & Hclosed).
    rewrite (bind_ok _ _ _ _ _ Hcreate). next.
    match goal with |- context [bind (addDataChannel ?l) _ ?W] =>
      rewrite (bind_ok _ _ _ _ _ (addDataChannel_spec l W p eq_refl Hclosed Hfind)) end.
    match goal with |- context [bind _sendOffer _ ?W] =>
      destruct (_sendOffer_spec W p s text) as (p' & cn & d & Hsend & Hd); try done end.
    rewrite (bind_ok _ _ _ _ _ Hsend).
    match goal with |- context [bind (invoke ?k ?a) _ ?W] =>
      rewrite (bind_ok _ _ _ _ _ (invoke_ok k a W cb Hcb)) end.
    next.
    match goal with |- context [settle ?p ?W] => destruct (settle_spec p W) as (c & ->) end.
    eexists _, d. split; [reflexivity|]. split; [done|]. simpl. by rewrite <- !app_assoc.
Qed.

(** C5, as the code has it.  An accept message that arrives on an open
    socket, while no channel labelled ["dataChannel"] is registered, with an
    engine that can be created (unless one exists already, not closed) and
    that produces and applies the offer, leads to exactly this: the engine is
    created if there was none, one offer is sent, and then the connect
    callback fires with the metadata of the message. *)
Theorem accept_sends_offer_then_connect rounds w o s cb text :
  j_type o = Some "accept" →
  _ws (this w) = Some s → ws_readyState s = OPEN →
  match _pc (this w) with
  | Some p => pc_closed p = false
  | None => engine_constructible (env w) = true
  end →
  find_channel w "dataChannel" = None →
  createOffer_result (env w) = Some text →
  setLocalDescription_ok (env w) = true →
  own (_callbacks (this w)) !! "connect" = Some cb →
  ∃ w' d,
    ws_onmessage_handler rounds (Text (Some (JObj o))) w = (Ok tt, w')
    ∧ sd_type d = offer
    ∧ trace w'
      = (trace w ++ match _pc (this w) with Some _ => [] | None => [NewPeerConnection] end
         ++ [WsSend (Description d); Fire "connect" cb (ConnectInfo (j_authzMetadata o))])%list.
Proof.
  intros Hty Hws Hopen Hpc Hfind Hoffer Hlocal Hcb.
  destruct (dispatch_accept_ok rounds w o s cb text) as (w' & d & Hrun & Hd & Htrace); try done.
  exists w', d. unfold ws_onmessage_handler. by rewrite (try_catch_ok _ _ _ _ _ Hrun).
Qed.

Lemma accept_sends_offer_then_connect_witness :
  ∃ w' d,
    ws_onmessage_handler 1 (frame "accept") registering = (Ok tt, w')
    ∧ sd_type d = offer
    ∧ trace w'
      = (trace registering
         ++ match _pc (this registering) with Some _ => [] | None => [NewPeerConnection] end
         ++ [WsSend (Description d); Fire "connect" Initial (ConnectInfo None)])%list.
Proof.
  apply (accept_sends_offer_then_connect 1 registering (message_of_type "accept")
           {| ws_readyState := OPEN; ws_onclose := OnCloseBeforeAccept; ws_onmessage := true;
              ws_closeDelay := 0 |} Initial "v=0 (offer)"); by vm_compute.
Defined.

(** C5 as the specification states it fails.  With an engine whose
    [createOffer] rejects, the accept is followed by no offer and no connect
    event: the rejection lands in the [catch] of line 332, which tears down
    and raises the disconnect event. *)
Lemma accept_without_offer :
  let w0 := snd (exec 1 [CallConnect None None; SocketOpen] (fresh_in offerless)) in
  let w := snd (step 1 (SocketMessage (frame "accept")) w0) in
  trace w = [WsSend (RegisterMessage "room" "client" None);
             NewPeerConnection;
             Fire "disconnect" Initial
               (Disconnected "SIGNALING-ERROR" (Some (JsError "OperationError" "createOffer")))]
  ∧ connecting w = Some Unsettled.
Proof. by vm_compute. Qed.

(** So it does on a second accept that finds the default channel open:
    [addDataChannel] rejects, nothing is sent, and the connection is torn
    down. *)
Example second_accept_tears_down :
  let w := snd (step 1 (SocketMessage (frame "accept")) established) in
  trace w = (trace established
             ++ [Fire "disconnect" Initial
                   (Disconnected "SIGNALING-ERROR" (Some ChannelAlreadyExistsError))])%list
  ∧ cleared w.
Proof. by vm_compute. Qed.

(** * Further properties of the class *)

(** ** Every statement keeps a guarded relation *)

#[global] Instance tolerant_guarded R : Tolerant R → Guarded R.
Proof.
  intros H. split; try apply H; intros.
  - apply tol_log.
  - apply tol_emit.
  - apply tol_channels.
  - apply tol_dataChannels.
Qed.

Section Sequencing.
Context (R : relation World) `{!PreOrder R}.

Lemma guarded_ret {A} (a : A) : keeps R (ret a).
Proof. intros w. reflexivity. Qed.

Lemma guarded_throw {A} e : keeps R (@throw A e).
Proof. intros w. reflexivity. Qed.

Lemma guarded_gets {A} (f : World → A) : keeps R (gets f).
Proof. intros w. reflexivity. Qed.

Lemma guarded_modify f : (∀ w, R w (f w)) → keeps R (modify f).
Proof. intros Hf w. apply Hf. Qed.

Lemma guarded_bind {A B} (m : M A) (k : A → M B) :
  keeps R m → (∀ a, keeps R (k a)) → keeps R (bind m k).
Proof.
  intros Hm Hk w. unfold bind. specialize (Hm w).
  destruct (m w) as [[a|e|] w']; simpl in *; try assumption.
  etransitivity; [exact Hm | apply Hk].
Qed.

Lemma guarded_try_catch {A} (m : M A) h :
  keeps R m → (∀ e, keeps R (h e)) → keeps R (try_catch m h).
Proof.
  intros Hm Hh w. unfold try_catch. specialize (Hm w).
  destruct (m w) as [[a|e|] w']; simpl in *; try assumption.
  etransitivity; [exact Hm | apply Hh].
Qed.

Lemma guarded_when b m : keeps R m → keeps R (when b m).
Proof. intros Hm. destruct b; [exact Hm | apply guarded_ret]. Qed.

Lemma guarded_forEach {A} (l : list A) f : (∀ x, keeps R (f x)) → keeps R (forEach l f).
Proof.
  intros Hf. induction l as [|x l IH]; simpl; [apply guarded_ret|].
  apply guarded_bind; [apply Hf | intros _; exact IH].
Qed.

End Sequencing.

Section GuardedUpdates.
Context (R : relation World) `{!Guarded R}.

Lemma guarded_detached m : keeps R m → keeps R (detached m).
Proof.
  intros Hm w. unfold detached. specialize (Hm w).
  destruct (m w) as [[a|e|] w']; simpl in *; try assumption.
  etransitivity; [exact Hm | by apply grd_emit].
Qed.

Lemma grd_with_pc f w : R w (with_pc f w).
Proof. exact (grd_pc (f <$> _pc (this w)) w). Qed.

Lemma grd_with_ws f w : R w (with_ws f w).
Proof. exact (grd_ws (f <$> _ws (this w)) w). Qed.

Lemma grd_settle p w :
  R w match connecting w with Some Unsettled => with_connecting (Some p) w | _ => w end.
Proof. destruct (connecting w) as [[]|]; first [apply grd_connecting | reflexivity]. Qed.

End GuardedUpdates.

(** An elementary update whose guard holds whatever the world. *)
Ltac guarded_update :=
  intros;
  lazymatch goal with
  | |- ?R _ _ =>
      first [ apply (grd_emit (R:=R)); exact I
            | apply (grd_connecting (R:=R))
            | apply (grd_channels (R:=R)); intros ?; rewrite ?length_app, ?length_alter; simpl; lia
            | apply (grd_stream (R:=R))
            | apply (grd_remoteStreamId (R:=R)) | apply (grd_authnMetadata (R:=R))
            | apply (grd_clear_flag (R:=R)) | apply (grd_removeCodec (R:=R))
            | apply (grd_ws (R:=R)) | apply (grd_pc (R:=R))
            | apply (grd_dataChannels (R:=R)); intros _; constructor
            | apply (grd_with_pc R) | apply (grd_with_ws R) | apply (grd_settle R)
            | reflexivity ]
  end.

Ltac guarded_walk known :=
  repeat
    lazymatch goal with
    | |- keeps ?R (bind _ _) => apply (guarded_bind R); [|intros ?]
    | |- keeps ?R (ret _) => apply (guarded_ret R)
    | |- keeps ?R (throw _) => apply (guarded_throw R)
    | |- keeps ?R (gets _) => apply (guarded_gets R)
    | |- keeps ?R (modify _) => apply (guarded_modify R); guarded_update
    | |- keeps ?R (try_catch _ _) => apply (guarded_try_catch R); [|intros ?]
    | |- keeps ?R (detached _) => apply (guarded_detached R)
    | |- keeps ?R (when _ _) => apply (guarded_when R)
    | |- keeps ?R (forEach _ _) => apply (guarded_forEach R); intros ?
    | |- keeps _ (match ?x with _ => _ end) => destruct x
    | |- keeps _ (let _ := _ in _) => cbv zeta
    | |- keeps _ _ => known
    end.

Create HintDb guarded.

Section GuardedClass.
Context (R : relation World) `{!Guarded R}.

Local Ltac walk := guarded_walk ltac:(solve [eauto with nocore guarded]).

Lemma guarded__traceLog t : keeps R (_traceLog t).
Proof.
  intros w. unfold _traceLog, bind, gets, modify, ret. simpl.
  destruct (debug (this w)) eqn:E; simpl; [by apply grd_log | reflexivity].
Qed.
Hint Resolve guarded__traceLog : guarded.

Lemma guarded_ws_send s m : keeps R (ws_send s m).
Proof. unfold ws_send. walk. Qed.
Hint Resolve guarded_ws_send : guarded.

Lemma guarded__sendWs m : keeps R (_sendWs m).
Proof. unfold _sendWs. walk. Qed.
Hint Resolve guarded__sendWs : guarded.

Lemma guarded__sendSdp d : keeps R (_sendSdp d).
Proof. unfold _sendSdp. walk. Qed.
Hint Resolve guarded__sendSdp : guarded.

Lemma guarded__findDataChannel c : keeps R (_findDataChannel c).
Proof. unfold _findDataChannel. walk. Qed.
Hint Resolve guarded__findDataChannel : guarded.

(** The callback called is the one the table holds. *)
Lemma guarded_invoke k a : k ∈ called_kinds → keeps R (invoke k a).
Proof.
  intros Hk w. unfold invoke, bind, gets, modify, throw. simpl.
  destruct (own (_callbacks (this w)) !! k) as [cb|] eqn:E; simpl; [|reflexivity].
  apply grd_emit. by split.
Qed.

Lemma guarded_invoke_connect a : keeps R (invoke "connect" a).
Proof. apply guarded_invoke. unfold called_kinds. rewrite !elem_of_cons. tauto. Qed.
Lemma guarded_invoke_disconnect a : keeps R (invoke "disconnect" a).
Proof. apply guarded_invoke. unfold called_kinds. rewrite !elem_of_cons. tauto. Qed.
Lemma guarded_invoke_addstream a : keeps R (invoke "addstream" a).
Proof. apply guarded_invoke. unfold called_kinds. rewrite !elem_of_cons. tauto. Qed.
Lemma guarded_invoke_data a : keeps R (invoke "data" a).
Proof. apply guarded_invoke. unfold called_kinds. rewrite !elem_of_cons. tauto. Qed.
Lemma guarded_invoke_close a : keeps R (invoke "close" a).
Proof. apply guarded_invoke. unfold called_kinds. rewrite !elem_of_cons. tauto. Qed.
Hint Resolve guarded_invoke_connect guarded_invoke_disconnect guarded_invoke_addstream
  guarded_invoke_data guarded_invoke_close : guarded.

Lemma guarded_settle p : keeps R (settle p).
Proof. unfold settle. walk. Qed.
Hint Resolve guarded_settle : guarded.

Lemma guarded_new_channel l h st : keeps R (new_channel l h st).
Proof. unfold new_channel. walk. Qed.
Hint Resolve guarded_new_channel : guarded.

Lemma guarded_addDataChannel c : keeps R (addDataChannel c).
Proof. unfold addDataChannel. walk. Qed.
Hint Resolve guarded_addDataChannel : guarded.

Lemma guarded_sendData p c : keeps R (sendData p c).
Proof. unfold sendData. walk. Qed.

Lemma valid_handles_filter chs (P : nat → Prop) `{!∀ x, Decision (P x)} l :
  valid_handles chs l → valid_handles chs (filter P l).
Proof.
  unfold valid_handles. rewrite !Forall_forall. intros Hl x Hx. apply Hl.
  by apply list_elem_of_filter in Hx as [_ Hx].
Qed.

Lemma guarded_unregister_label c : keeps R (unregister_label c).
Proof.
  unfold unregister_label. apply (guarded_modify R). intros w.
  apply grd_dataChannels. apply valid_handles_filter.
Qed.
Hint Resolve guarded_unregister_label : guarded.

Lemma _traceLog_cases t w :
  ∃ w1, _traceLog t w = (Ok tt, w1) ∧ R w w1 ∧ channels w1 = channels w ∧ this w1 = this w.
Proof.
  pose proof (guarded__traceLog t w) as Hlog. revert Hlog.
  unfold _traceLog, bind, gets, modify, ret. simpl.
  destruct (debug (this w)); simpl; intros Hlog; by eexists.
Qed.

(** The handle that [onopen] registers is that of the channel it fired on. *)
Lemma guarded_dc_onopen id : keeps R (dc_onopen id).
Proof.
  intros w. unfold dc_onopen, handlers_of. unbind. simpl.
  destruct (channels w !! id) as [d|] eqn:Hd; [|reflexivity].
  destruct (_traceLog_cases "datachannel onopen=>" w) as (w1 & -> & HR & Hchs & Hthis).
  destruct (dc_handlers d); simpl; [|exact HR].
  etransitivity; [exact HR|].
  apply grd_dataChannels. intros Hwf. apply Forall_app. split; [exact Hwf|].
  apply Forall_singleton. rewrite Hchs. by apply lookup_lt_Some in Hd.
Qed.

Lemma guarded_dc_onclose id : keeps R (dc_onclose id).
Proof. unfold dc_onclose, handlers_of. walk. Qed.

Lemma guarded_dc_onerror id : keeps R (dc_onerror id).
Proof. unfold dc_onerror, handlers_of. walk. Qed.

Lemma guarded_dc_onmessage id d : keeps R (dc_onmessage id d).
Proof. unfold dc_onmessage, handlers_of. walk. Qed.

(** So is the handle that [_onDataChannel] registers, or puts in the place
    of the entries with its label. *)
Lemma guarded__onDataChannel id : keeps R (_onDataChannel id).
Proof.
  intros w. destruct (_traceLog_cases "on data channel" w) as (w1 & Hlog & HR & Hchs & Hthis).
  unfold _onDataChannel. rewrite (bind_ok _ _ _ _ _ Hlog).
  unfold handlers_of, _findDataChannel. unbind. simpl.
  destruct (_pc (this w1)); [|exact HR].
  destruct (channels w1 !! id) as [d|] eqn:Hd; [|exact HR].
  apply lookup_lt_Some in Hd.
  case_bool_decide; [exact HR|].
  etransitivity; [exact HR|].
  etransitivity; [apply (grd_channels (alter (set_handlers RemoteHandlers) id));
                  intros chs; by rewrite length_alter|].
  destruct (find_channel _ _); simpl; apply grd_dataChannels.
  all: unfold well_formed, valid_handles; simpl; setoid_rewrite length_alter; intros Hwf.
  - apply Forall_fmap. eapply Forall_impl; [exact Hwf|].
    intros c Hc. simpl. by case_match.
  - apply Forall_app. split; [exact Hwf | by apply Forall_singleton].
Qed.

Lemma guarded__getTransceiver p k t : keeps R (_getTransceiver p k t).
Proof. unfold _getTransceiver. walk. Qed.
Hint Resolve guarded__getTransceiver : guarded.

Lemma guarded_prefer_codec o i p : keeps R (prefer_codec o i p).
Proof. unfold prefer_codec. walk. Qed.
Hint Resolve guarded_prefer_codec : guarded.

Lemma guarded__createPeerConnection : keeps R _createPeerConnection.
Proof. unfold _createPeerConnection. walk. Qed.
Hint Resolve guarded__createPeerConnection : guarded.

Lemma guarded_createOffer : keeps R createOffer.
Proof. unfold createOffer. walk. Qed.
Lemma guarded_createAnswer : keeps R createAnswer.
Proof. unfold createAnswer. walk. Qed.
Lemma guarded_setLocalDescription d : keeps R (setLocalDescription d).
Proof. unfold setLocalDescription. walk. Qed.
Lemma guarded_setRemoteDescription d : keeps R (setRemoteDescription d).
Proof. unfold setRemoteDescription. walk. Qed.
Lemma guarded_localDescription : keeps R localDescription.
Proof. unfold localDescription. walk. Qed.
Hint Resolve guarded_createOffer guarded_createAnswer guarded_setLocalDescription
  guarded_setRemoteDescription guarded_localDescription : guarded.

Lemma guarded__sendOffer : keeps R _sendOffer.
Proof. unfold _sendOffer. walk. Qed.
Hint Resolve guarded__sendOffer : guarded.

Lemma guarded_closePeerConnection : keeps R closePeerConnection.
Proof. unfold closePeerConnection. walk. Qed.
Lemma guarded_closeWebSocketConnection : keeps R closeWebSocketConnection.
Proof. unfold closeWebSocketConnection. walk. Qed.
Hint Resolve guarded_closePeerConnection guarded_closeWebSocketConnection : guarded.

Lemma guarded_disconnect_begin : keeps R disconnect_begin.
Proof. unfold disconnect_begin. walk. Qed.

Lemma guarded_timer_pc : keeps R timer_pc.
Proof. unfold timer_pc. walk. Qed.
Lemma guarded_timer_ws : keeps R timer_ws.
Proof. unfold timer_ws. walk. Qed.
Hint Resolve guarded_timer_pc guarded_timer_ws : guarded.

Lemma guarded_run_timers p : keeps R (run_timers p).
Proof. unfold run_timers. walk. Qed.

Lemma guarded_await_closing rounds p : keeps R (await_closing rounds p).
Proof.
  revert p. induction rounds as [|r IH]; intros p; simpl.
  - destruct (settled p); [apply (guarded_ret R) | intros w; reflexivity].
  - destruct (settled p); [apply (guarded_ret R)|].
    apply (guarded_bind R); [apply (guarded_modify R); intros w; apply (grd_with_ws R)|].
    intros _. apply (guarded_bind R); [apply guarded_run_timers | exact IH].
Qed.

Lemma guarded_disconnect_end : keeps R disconnect_end.
Proof. unfold disconnect_end. walk. Qed.

Lemma guarded_disconnect rounds : keeps R (disconnect rounds).
Proof.
  unfold disconnect. apply (guarded_bind R); [apply guarded_disconnect_begin | intros p].
  apply (guarded_bind R); [apply guarded_await_closing | intros _; apply guarded_disconnect_end].
Qed.
Hint Resolve guarded_disconnect : guarded.

Lemma guarded__createAnswer rounds : keeps R (_createAnswer rounds).
Proof. unfold _createAnswer. walk. Qed.
Hint Resolve guarded__createAnswer : guarded.

Lemma guarded__setAnswer d : keeps R (_setAnswer d).
Proof. unfold _setAnswer. walk. Qed.

Lemma guarded__setOffer rounds d : keeps R (_setOffer rounds d).
Proof. unfold _setOffer. walk. Qed.

Lemma guarded__addIceCandidate c : keeps R (_addIceCandidate c).
Proof. unfold _addIceCandidate. walk. Qed.
Hint Resolve guarded__setAnswer guarded__setOffer guarded__addIceCandidate : guarded.

Lemma guarded_pc_ontrack t s : keeps R (pc_ontrack t s).
Proof. unfold pc_ontrack. walk. Qed.

Lemma guarded_pc_onicecandidate c : keeps R (pc_onicecandidate c).
Proof. unfold pc_onicecandidate, _sendIceCandidate. walk. Qed.

Lemma guarded_pc_oniceconnectionstatechange_handler rounds st :
  keeps R (pc_oniceconnectionstatechange_handler rounds st).
Proof. unfold pc_oniceconnectionstatechange_handler. walk. Qed.

Lemma guarded_ws_onclose_handler rounds h : keeps R (ws_onclose_handler rounds h).
Proof. unfold ws_onclose_handler. walk. Qed.

Lemma guarded_ws_onerror_handler rounds : keeps R (ws_onerror_handler rounds).
Proof. unfold ws_onerror_handler. walk. Qed.

Lemma guarded_dispatch rounds o : keeps R (dispatch rounds o).
Proof. unfold dispatch. walk. Qed.
Hint Resolve guarded_dispatch : guarded.

Lemma guarded_ws_onmessage_handler rounds data : keeps R (ws_onmessage_handler rounds data).
Proof. unfold ws_onmessage_handler. walk. Qed.

Lemma guarded_ws_onopen_handler : keeps R ws_onopen_handler.
Proof. unfold ws_onopen_handler. walk. Qed.

Lemma guarded__signaling : keeps R _signaling.
Proof. unfold _signaling. walk. Qed.
Hint Resolve guarded__signaling : guarded.

Lemma guarded_connect s a : keeps R (connect s a).
Proof. unfold connect. walk. Qed.

Hint Resolve guarded_sendData guarded_dc_onopen guarded_dc_onclose guarded_dc_onerror
  guarded_dc_onmessage guarded__onDataChannel guarded_pc_ontrack guarded_pc_onicecandidate
  guarded_pc_oniceconnectionstatechange_handler guarded_ws_onclose_handler
  guarded_ws_onerror_handler guarded_ws_onmessage_handler guarded_ws_onopen_handler
  guarded_connect : guarded.

(** Every event keeps a guarded relation, provided that the calls of [on]
    among them do. *)
Lemma guarded_step rounds ev :
  (∀ kind callback, ev = CallOn kind callback → keeps R (on kind callback)) →
  keeps R (step rounds ev).
Proof.
  intros Hon. destruct ev; simpl; unfold handlers_of, readyState_of;
    try (by apply Hon); walk.
Qed.

Lemma guarded_exec rounds evs w :
  (∀ kind callback, CallOn kind callback ∈ evs → keeps R (on kind callback)) →
  R w (snd (exec rounds evs w)).
Proof.
  revert w. induction evs as [|ev evs IH]; intros w Hon; simpl; [reflexivity|].
  assert (keeps R (step rounds ev)) as Hs.
  { apply guarded_step. intros kind callback ->. apply Hon. left. }
  specialize (Hs w). destruct (step rounds ev w) as [r w']. simpl in Hs.
  specialize (IH w'). destruct (exec rounds evs w') as [rs w'']. simpl in *.
  etransitivity; [exact Hs|]. apply IH. intros kind callback Hin. apply Hon. by right.
Qed.

End GuardedClass.

(** ** The relations are guarded, and [on] keeps them *)

#[global] Instance config_fixed_tolerant : Tolerant config_fixed.
Proof.
  split; [split|..].
  1: by intros w.
  1: intros w1 w2 w3 (? & ? & ? & ? & ?) (? & ? & ? & ? & ?); repeat split; congruence.
  all: intros; by repeat split.
Qed.

#[global] Instance callbacks_fixed_tolerant : Tolerant callbacks_fixed.
Proof.
  split; [split|..].
  1: by intros w.
  1: intros w1 w2 w3; unfold callbacks_fixed; congruence.
  all: intros; reflexivity.
Qed.

#[global] Instance quiet_guarded : Guarded quiet.
Proof.
  split; [split|..].
  1: by intros w.
  1: intros w1 w2 w3 H12 H23 Hd; destruct (H12 Hd) as [Hd2 <-]; by apply H23.
  all: intros; intros Hd; simpl; first [congruence | by split].
Qed.

Lemma announces_nothing w w' :
  own (_callbacks (this w')) = own (_callbacks (this w)) → trace w' = trace w → announces w w'.
Proof. intros Hown Htrace Hc. rewrite Hown, Htrace. split; [done|]. exists []. by rewrite app_nil_r. Qed.

#[global] Instance announces_guarded : Guarded announces.
Proof.
  split; [split|..].
  1: by intros w; apply announces_nothing.
  1: { intros w1 w2 w3 H12 H23 Hc. destruct (H12 Hc) as (Hc2 & es & Ht & Hes).
       destruct (H23 Hc2) as (Hc3 & es' & Ht' & Hes'). split; [done|].
       exists (es ++ es')%list. split; [by rewrite Ht', Ht, app_assoc | by apply Forall_app]. }
  2: { intros e w He Hc. split; [done|]. exists [e]. split; [done|]. apply Forall_singleton.
       destruct e; simpl in *; try done. destruct He as [Hk Hcb].
       unfold called_kinds in Hk. rewrite !elem_of_cons in Hk. rewrite !elem_of_cons.
       destruct Hk as [->|[->|[->|[->|[->|Hk]]]]]; try tauto; congruence. }
  all: intros; by apply announces_nothing.
Qed.

#[global] Instance stays_well_formed_guarded : Guarded stays_well_formed.
Proof.
  split; [split|..].
  1: by intros w Hw.
  1: intros w1 w2 w3 H12 H23 Hw; by apply H23, H12.
  all: intros; intros Hw; unfold well_formed, valid_handles in *; simpl in *; try done.
  - eapply Forall_impl; [exact Hw|]. intros id Hid. simpl in *.
    match goal with H : ∀ chs, _ |- _ => specialize (H (channels w)) end. lia.
  - auto.
Qed.

(** [on] writes to the callback table and to nothing else. *)
Lemma on_writes_callbacks_only kind callback w :
  ∃ t, snd (on kind callback w) = with_this (set_callbacks t) w.
Proof.
  unfold on. unbind. destruct (has_property kind _); [destruct (set_property kind callback _)|];
    simpl; first [by eexists | by exists (_callbacks (this w))].
Qed.

Lemma on_config_fixed kind callback : keeps config_fixed (on kind callback).
Proof. intros w. destruct (on_writes_callbacks_only kind callback w) as [t ->]. by repeat split. Qed.

Lemma on_quiet kind callback : keeps quiet (on kind callback).
Proof. intros w. destruct (on_writes_callbacks_only kind callback w) as [t ->]. by intros Hd. Qed.

Lemma on_stays_well_formed kind callback : keeps stays_well_formed (on kind callback).
Proof. intros w. destruct (on_writes_callbacks_only kind callback w) as [t ->]. by intros Hw. Qed.

Lemma on_announces kind callback : keeps announces (on kind callback).
Proof.
  intros w Hc. split; [by apply (on_close_stays_absent kind callback w)|].
  destruct (on_writes_callbacks_only kind callback w) as [t ->].
  exists []. simpl. by rewrite app_nil_r.
Qed.

Lemma reachable_well_formed w : reachable w → well_formed w.
Proof.
  intros (url & room & opts & dbg & e & rounds & evs & ->).
  apply (guarded_exec stays_well_formed rounds evs).
  - intros kind callback _. apply on_stays_well_formed.
  - constructor.
Qed.

(** ** What no event does *)

(** X1.  No event changes what the constructor was given: whatever happens
    to a connection, its [debug] flag, its room, its signaling URL and its
    options are those it was built with. *)
Theorem configuration_never_changes rounds evs w :
  let w' := snd (exec rounds evs w) in
  debug (this w') = debug (this w) ∧ roomId (this w') = roomId (this w)
  ∧ signalingUrl (this w') = signalingUrl (this w) ∧ options (this w') = options (this w).
Proof.
  destruct (guarded_exec config_fixed rounds evs w) as (? & ? & ? & ? & ?); [|done].
  intros kind callback _. apply on_config_fixed.
Qed.

(** X2.  Only [on] writes to the callback table: a sequence of events
    without a call of [on] leaves the table as it was.  In particular a
    teardown keeps the subscribers. *)
Theorem callbacks_change_by_on_only rounds evs w :
  existsb calls_on evs = false →
  _callbacks (this (snd (exec rounds evs w))) = _callbacks (this w).
Proof.
  intros Hevs. apply (guarded_exec callbacks_fixed rounds evs w).
  intros kind callback Hin. exfalso.
  assert (existsb calls_on evs = true) as Hc; [|congruence].
  apply existsb_exists. exists (CallOn kind callback). split; [|done].
  by apply list_elem_of_In.
Qed.

Lemma callbacks_change_by_on_only_witness :
  _callbacks (this (snd (exec 1 [CallConnect None None; SocketOpen;
                                 SocketMessage (frame "accept"); CallDisconnect] fresh)))
  = _callbacks (this fresh).
Proof.
  apply (callbacks_change_by_on_only 1
           [CallConnect None None; SocketOpen; SocketMessage (frame "accept"); CallDisconnect]
           fresh).
  reflexivity.
Defined.

(** X3.  A connection built without [debug] never writes to the console,
    whatever the events. *)
Theorem nothing_logged_without_debug rounds evs w :
  debug (this w) = false → console (snd (exec rounds evs w)) = console w.
Proof.
  intros Hd. apply (guarded_exec quiet rounds evs w); [|done].
  intros kind callback _. apply on_quiet.
Qed.

Lemma nothing_logged_without_debug_witness :
  console (snd (exec 1 [CallConnect None None; SocketOpen; SocketMessage (frame "accept");
                        SocketMessage (frame "close")] fresh))
  = console fresh.
Proof.
  apply (nothing_logged_without_debug 1
           [CallConnect None None; SocketOpen; SocketMessage (frame "accept");
            SocketMessage (frame "close")] fresh).
  reflexivity.
Defined.

(** X4.  The class only ever calls the subscribers of four kinds: every
    callback called on the way to a reachable world is of kind connect,
    disconnect, addstream or data.  The subscriber of removestream, which
    the constructor installs and [on] accepts, is never called. *)
Theorem only_four_kinds_are_fired w kind cb arg :
  reachable w → Fire kind cb arg ∈ trace w →
  kind ∈ ["connect"; "disconnect"; "addstream"; "data"].
Proof.
  intros (url & room & opts & dbg & e & rounds & evs & ->) Hin.
  destruct (guarded_exec announces rounds evs
              (new_World (new_Connection url room opts dbg) e)) as (_ & es & Htrace & Hes).
  - intros k c _. apply on_announces.
  - reflexivity.
  - rewrite Htrace in Hin. simpl in Hin. rewrite Forall_forall in Hes. exact (Hes _ Hin).
Qed.

Lemma only_four_kinds_are_fired_witness :
  "connect" ∈ ["connect"; "disconnect"; "addstream"; "data"].
Proof.
  apply (only_four_kinds_are_fired established "connect" Initial (ConnectInfo None)
           reachable_established).
  vm_compute. repeat constructor.
Defined.

(** ** Subscribers *)

(** X5.  For each of the five kinds of the constructor, [on(kind, f)] puts
    [f] in the place of the previous subscriber: the next call of that kind
    goes to [f], and the subscribers of the other kinds are untouched. *)
Theorem on_replaces_the_subscriber kind callback arg w :
  kind ∈ event_kinds → reachable w →
  ∃ w', on kind callback w = (Ok tt, w')
    ∧ invoke kind arg w' = (Ok tt, emit (Fire kind callback arg) w')
    ∧ ∀ k, k ≠ kind → own (_callbacks (this w')) !! k = own (_callbacks (this w)) !! k.
Proof.
  intros Hkind Hr. pose proof (reachable_subscribed w Hr kind Hkind) as Hsome.
  rewrite (on_known_kind kind callback w Hsome). eexists. split; [reflexivity|]. split.
  - apply invoke_ok. simpl. by rewrite lookup_insert_eq.
  - intros k Hne. simpl. by rewrite lookup_insert_ne.
Qed.

Lemma on_replaces_the_subscriber_witness :
  ∃ w', on "data" (Subscriber 7) established = (Ok tt, w')
    ∧ invoke "data" (DataEvent "dataChannel" "hello") w'
      = (Ok tt, emit (Fire "data" (Subscriber 7) (DataEvent "dataChannel" "hello")) w')
    ∧ ∀ k, k ≠ "data" →
           own (_callbacks (this w')) !! k = own (_callbacks (this established)) !! k.
Proof.
  apply (on_replaces_the_subscriber "data" (Subscriber 7) (DataEvent "dataChannel" "hello")
           established).
  - unfold event_kinds. repeat constructor.
  - exact reachable_established.
Defined.

(** ** Data channels *)

Lemma label_is_app chs d label id :
  (id < length chs)%nat → label_is (chs ++ [d])%list label id = label_is chs label id.
Proof. intros Hid. unfold label_is. by rewrite lookup_app_l. Qed.

Lemma find_channel_new_channel w d label :
  well_formed w →
  find_channel (with_channels (λ chs, chs ++ [d])%list w) label = find_channel w label.
Proof.
  unfold find_channel, well_formed, valid_handles. simpl.
  induction (_dataChannels (this w)) as [|id l IH]; intros Hwf; simpl; [done|].
  apply Forall_cons in Hwf as [Hid Hl]. rewrite label_is_app by done.
  destruct (label_is (channels w) label id); [done | by apply IH].
Qed.

Lemma find_channel_none w label id d :
  find_channel w label = None → id ∈ _dataChannels (this w) → channels w !! id = Some d →
  dc_label d ≠ label.
Proof.
  unfold find_channel. intros Hfind Hin Hd Hlabel.
  apply list_elem_of_In in Hin. pose proof (find_none _ _ Hfind id Hin) as Hno.
  unfold label_is in Hno. rewrite Hd in Hno. by apply bool_decide_eq_false in Hno.
Qed.

Lemma find_channel_is_Some w id d :
  id ∈ _dataChannels (this w) → channels w !! id = Some d →
  is_Some (find_channel w (dc_label d)).
Proof.
  intros Hin Hd. destruct (find_channel w (dc_label d)) eqn:Hfind; [by eexists|].
  by destruct (find_channel_none w _ id d Hfind Hin Hd).
Qed.

(** X6.  [addDataChannel] is rejected with the string of line 163 while
    there is no engine, and with that of line 166 when a channel with the
    label is registered; neither changes anything.  When it succeeds it has
    created one channel, still connecting, and registered nothing: the
    channel enters the registry when it opens, and until then [sendData] on
    its label is rejected. *)
Theorem addDataChannel_registers_nothing label w :
  (_pc (this w) = None → addDataChannel label w = (Throw EngineNotReadyError, w))
  ∧ (∀ p id, _pc (this w) = Some p → find_channel w label = Some id →
       addDataChannel label w = (Throw ChannelAlreadyExistsError, w))
  ∧ (∀ w', reachable w → addDataChannel label w = (Ok tt, w') →
       this w' = this w ∧ trace w' = trace w
       ∧ channels w' = (channels w ++ [{| dc_label := label; dc_readyState := DcConnecting;
                                          dc_handlers := LocalHandlers |}])%list
       ∧ ∀ params, fst (sendData params label w') = Throw ChannelNotOpenError).
Proof.
  split; [|split].
  - intros Hpc. unfold addDataChannel. unbind. by rewrite Hpc.
  - intros p id Hpc Hfind. unfold addDataChannel, _findDataChannel. unbind. by rewrite Hpc, Hfind.
  - intros w' Hr. pose proof (reachable_well_formed w Hr) as Hwf.
    unfold addDataChannel, _findDataChannel, new_channel. unbind.
    destruct (_pc (this w)) as [p|]; [|done].
    destruct (find_channel w label) eqn:Hfind; [done|].
    destruct (pc_closed p); [done|]. intros [= <-].
    split; [done|]. split; [done|]. split; [done|]. intros params.
    match goal with |- context [sendData _ _ ?W] =>
      destruct (sendData_rejects params label W) as (w2 & -> & _); [|done] end.
    intros id d Hin Hd Hlabel.
    assert (find_channel (with_channels (λ chs, chs ++ [{| dc_label := label;
              dc_readyState := DcConnecting; dc_handlers := LocalHandlers |}])%list w) label
            = None) as Hnone by (by rewrite find_channel_new_channel).
    by destruct (find_channel_none _ _ _ _ Hnone Hin Hd).
Qed.

Lemma addDataChannel_registers_nothing_witness :
  fst (addDataChannel "chat" established) = Ok tt
  ∧ fst (sendData "hello" "chat" (snd (addDataChannel "chat" established)))
    = Throw ChannelNotOpenError.
Proof.
  split; [by vm_compute|].
  apply (proj2 (proj2 (addDataChannel_registers_nothing "chat" established))
           (snd (addDataChannel "chat" established)) reachable_established).
  by vm_compute.
Defined.

Lemma find_filter_out {A} (f g : A → bool) l :
  (∀ x, g x = true → f x = false) →
  List.find g (filter (λ x, f x = false) l) = List.find g l.
Proof.
  intros Hfg. induction l as [|x l IH]; [done|]. rewrite filter_cons.
  destruct (decide (f x = false)) as [Hx|Hx]; simpl.
  - by rewrite IH.
  - destruct (g x) eqn:Hg; [by rewrite (Hfg x Hg) in Hx | exact IH].
Qed.

Lemma find_filter_self {A} (f : A → bool) l :
  List.find f (filter (λ x, f x = false) l) = None.
Proof.
  induction l as [|x l IH]; [done|]. rewrite filter_cons.
  destruct (decide (f x = false)) as [Hx|Hx]; simpl; [by rewrite Hx | exact IH].
Qed.

Lemma label_is_functional chs l1 l2 id :
  label_is chs l1 id = true → l1 ≠ l2 → label_is chs l2 id = false.
Proof.
  unfold label_is. destruct (chs !! id) as [d|]; [|done].
  intros H1 Hne. apply bool_decide_eq_true in H1. apply bool_decide_eq_false. congruence.
Qed.

Lemma unregister_label_spec label w :
  ∃ w', unregister_label label w = (Ok tt, w')
    ∧ channels w' = channels w
    ∧ find_channel w' label = None
    ∧ ∀ l, l ≠ label → find_channel w' l = find_channel w l.
Proof.
  eexists. split; [reflexivity|]. split; [done|]. unfold find_channel. simpl. split.
  - apply find_filter_self.
  - intros l Hne. apply find_filter_out. intros id Hl.
    by apply (label_is_functional _ l label).
Qed.

Lemma local_handlers_unregister id d w :
  channels w !! id = Some d → dc_handlers d = LocalHandlers →
  ∀ title, ∃ w',
    (d <- handlers_of id ;;
     match d with
     | Some d =>
         _traceLog title ;;
         match dc_handlers d with
         | LocalHandlers => unregister_label (dc_label d)
         | RemoteHandlers => ret tt
         end
     | None => ret tt
     end) w = (Ok tt, w')
    ∧ find_channel w' (dc_label d) = None
    ∧ ∀ l, l ≠ dc_label d → find_channel w' l = find_channel w l.
Proof.
  intros Hd Hlocal title. unfold handlers_of, _traceLog. unbind. simpl.
  rewrite Hd. simpl. rewrite Hlocal.
  destruct (debug (this w)); simpl.
  all: match goal with |- context [unregister_label ?l ?W] =>
         destruct (unregister_label_spec l W) as (w' & -> & _ & Hnone & Hother) end.
  all: by exists w'.
Qed.

(** X7.  The [onclose] and the [onerror] of a channel made by
    [addDataChannel] take every channel with its label out of the registry
    (lines 171 and 175 filter by label), and leave the lookups of the other
    labels as they were. *)
Theorem local_channel_close_unregisters_label id d w :
  channels w !! id = Some d → dc_handlers d = LocalHandlers →
  let unregistered (r : Res unit * World) :=
    fst r = Ok tt ∧ find_channel (snd r) (dc_label d) = None
    ∧ ∀ l, l ≠ dc_label d → find_channel (snd r) l = find_channel w l in
  unregistered (dc_onclose id w) ∧ unregistered (dc_onerror id w).
Proof.
  intros Hd Hlocal unregistered. subst unregistered. cbv beta.
  destruct (local_handlers_unregister id d w Hd Hlocal "datachannel onclosed=>")
    as (w1 & H1 & ? & ?).
  destruct (local_handlers_unregister id d w Hd Hlocal "datachannel onerror=>")
    as (w2 & H2 & ? & ?).
  unfold dc_onclose, dc_onerror. rewrite H1, H2. by repeat split.
Qed.

Lemma local_channel_close_unregisters_label_witness :
  find_channel established "dataChannel" = Some 0
  ∧ find_channel (snd (dc_onclose 0 established)) "dataChannel" = None.
Proof.
  split; [by vm_compute|].
  apply (local_channel_close_unregisters_label 0
           {| dc_label := "dataChannel"; dc_readyState := DcOpen; dc_handlers := LocalHandlers |}
           established); by vm_compute.
Defined.

Lemma label_is_alter_handlers chs h i label id :
  label_is (alter (set_handlers h) i chs) label id = label_is chs label id.
Proof.
  unfold label_is. destruct (decide (i = id)) as [->|Hne].
  - rewrite list_lookup_alter_eq. by destruct (chs !! id).
  - by rewrite list_lookup_alter_ne.
Qed.

Lemma find_label_alter_handlers chs h i label l :
  List.find (label_is (alter (set_handlers h) i chs) label) l = List.find (label_is chs label) l.
Proof. apply find_ext. intros x. apply label_is_alter_handlers. Qed.

Lemma find_channel_alter_handlers w h i label :
  find_channel (with_channels (alter (set_handlers h) i) w) label = find_channel w label.
Proof. unfold find_channel. simpl. apply find_label_alter_handlers. Qed.

Lemma find_channel_alter_readyState w st i label :
  find_channel (with_channels (alter (set_readyState st) i) w) label = find_channel w label.
Proof. unfold find_channel. simpl. apply find_ext. intros x. apply label_is_alter_readyState. Qed.

Lemma find_replace_self (f : nat → bool) l id :
  f id = true →
  List.find f (map (λ c, if f c then id else c) l)
  = (if List.find f l is Some _ then Some id else None).
Proof.
  intros Hid. induction l as [|x l IH]; [done|]. simpl.
  destruct (f x) eqn:Hx; [by rewrite Hid | by rewrite Hx].
Qed.

Lemma find_replace_other (f g : nat → bool) l id :
  g id = false → (∀ x, f x = true → g x = false) →
  List.find g (map (λ c, if f c then id else c) l) = List.find g l.
Proof.
  intros Hid Hfg. induction l as [|x l IH]; [done|]. simpl.
  destruct (f x) eqn:Hx; [by rewrite Hid, (Hfg _ Hx) | by rewrite IH].
Qed.

Lemma find_app_other {A} (f : A → bool) l x :
  f x = false → List.find f (l ++ [x])%list = List.find f l.
Proof.
  intros Hx. induction l as [|y l IH]; simpl; [by rewrite Hx|]. by rewrite IH.
Qed.

Lemma _traceLog_spec t w : ∃ cn, _traceLog t w = (Ok tt, set_console cn w).
Proof.
  unfold _traceLog. unbind. destruct w as [c chs tr cn cg e]. simpl.
  destruct (debug c); by eexists.
Qed.

Lemma map_label_alter_handlers chs h i label id l :
  map (λ c, if label_is (alter (set_handlers h) i chs) label c then id else c) l
  = map (λ c : nat, if label_is chs label c then id else c) l.
Proof. apply map_ext. intros c. by rewrite label_is_alter_handlers. Qed.

(** X8.  A channel announced by the peer takes over its label.
    [_onDataChannel] gives it the handlers of lines 431-444 and changes the
    registry, and nothing else but the console: the channel is appended when
    no registered channel had its label, and written over every registered
    channel with its label otherwise, the others staying where they are.
    Either way the lookup of its label yields the new channel from then on,
    and the lookups of the other labels are as they were. *)
Theorem remote_channel_takes_over_label id d p w :
  _pc (this w) = Some p → channels w !! id = Some d → dc_label d ≠ "" →
  ∃ w' cn,
    _onDataChannel id w = (Ok tt, w')
    ∧ w' = with_this
             (set_dataChannels
                (if find_channel w (dc_label d) is Some _
                 then map (λ c, if label_is (channels w) (dc_label d) c then id else c)
                          (_dataChannels (this w))
                 else (_dataChannels (this w) ++ [id])%list))
             (with_channels (alter (set_handlers RemoteHandlers) id) (set_console cn w))
    ∧ find_channel w' (dc_label d) = Some id
    ∧ length (_dataChannels (this w'))
      = (length (_dataChannels (this w))
         + if find_channel w (dc_label d) is Some _ then 0 else 1)%nat
    ∧ ∀ l, l ≠ dc_label d → find_channel w' l = find_channel w l.
Proof.
  intros Hpc Hd Hlabel.
  destruct (_traceLog_spec "on data channel" w) as (cn & Hlog).
  unfold _onDataChannel. rewrite (bind_ok _ _ _ _ _ Hlog).
  unfold handlers_of, _findDataChannel. unbind.
  change (_pc (this (set_console cn w))) with (_pc (this w)).
  change (channels (set_console cn w)) with (channels w).
  rewrite Hpc, Hd. cbv beta iota. rewrite (bool_decide_eq_false_2 _ Hlabel).
  rewrite find_channel_alter_handlers.
  change (find_channel (set_console cn w) (dc_label d)) with (find_channel w (dc_label d)).
  assert (label_is (alter (set_handlers RemoteHandlers) id (channels w)) (dc_label d) id = true)
    as Hself.
  { rewrite label_is_alter_handlers. unfold label_is. rewrite Hd. by apply bool_decide_eq_true. }
  assert (∀ l x, label_is (alter (set_handlers RemoteHandlers) id (channels w)) (dc_label d) x
                 = true → l ≠ dc_label d →
                 label_is (alter (set_handlers RemoteHandlers) id (channels w)) l x = false)
    as Hother.
  { intros l x Hx Hne. by apply (label_is_functional _ (dc_label d) l). }
  destruct (find_channel w (dc_label d)) as [old|] eqn:Hfind.
  - eexists _, cn. split; [reflexivity|]. unfold find_channel. simpl. split; [|split; [|split]].
    + unfold with_this, with_channels, set_console. simpl.
      by rewrite map_label_alter_handlers.
    + rewrite find_replace_self by exact Hself.
      rewrite find_label_alter_handlers. unfold find_channel in Hfind. by rewrite Hfind.
    + by rewrite length_map, Nat.add_0_r.
    + intros l Hne. rewrite find_replace_other; [| by apply Hother | intros x Hx; by apply Hother].
      apply find_label_alter_handlers.
  - eexists _, cn. split; [reflexivity|]. unfold find_channel. simpl. split; [|split; [|split]].
    + reflexivity.
    + apply find_app_none; [|exact Hself].
      rewrite find_label_alter_handlers. exact Hfind.
    + by rewrite length_app.
    + intros l Hne. rewrite find_app_other by (by apply Hother).
      apply find_label_alter_handlers.
Qed.

(** The peer announces ["chat"]: on the established connection, where the
    label is free, the channel is appended; in the world [shadowed], where
    two registered channels have the label, it replaces both. *)
Lemma remote_channel_takes_over_label_witness :
  (∃ w', _onDataChannel 1 (announcing "chat" established) = (Ok tt, w')
         ∧ _dataChannels (this w') = [0; 1]
         ∧ find_channel w' "chat" = Some 1
         ∧ find_channel w' "dataChannel" = Some 0)
  ∧ (∃ w', _onDataChannel 3 (announcing "chat" shadowed) = (Ok tt, w')
           ∧ _dataChannels (this w') = [0; 3; 3]
           ∧ find_channel w' "chat" = Some 3
           ∧ find_channel w' "dataChannel" = Some 0).
Proof.
  split.
  - destruct (remote_channel_takes_over_label 1
                {| dc_label := "chat"; dc_readyState := DcOpen; dc_handlers := RemoteHandlers |}
                (default fresh_pc (_pc (this established))) (announcing "chat" established))
      as (w' & cn & Hrun & -> & Hfind & _ & Hrest); [by vm_compute | by vm_compute | done |].
    eexists. split; [exact Hrun|]. split; [by vm_compute|]. split; [exact Hfind|].
    by rewrite Hrest.
  - destruct (remote_channel_takes_over_label 3
                {| dc_label := "chat"; dc_readyState := DcOpen; dc_handlers := RemoteHandlers |}
                (default fresh_pc (_pc (this shadowed))) (announcing "chat" shadowed))
      as (w' & cn & Hrun & -> & Hfind & _ & Hrest); [by vm_compute | by vm_compute | done |].
    eexists. split; [exact Hrun|]. split; [by vm_compute|]. split; [exact Hfind|].
    by rewrite Hrest.
Defined.

(** X9.  A channel announced by the peer stays in the registry when it
    closes or fails, its handlers of lines 434-439 only logging: from then
    on [addDataChannel] with its label is rejected with the string of line
    166. *)
Theorem remote_channel_stays_registered rounds id d w :
  channels w !! id = Some d → dc_handlers d = RemoteHandlers →
  ∀ ev, ev = ChannelClose id ∨ ev = ChannelError id →
  ∃ w', step rounds ev w = (Ok tt, w')
    ∧ _dataChannels (this w') = _dataChannels (this w)
    ∧ (id ∈ _dataChannels (this w) → is_Some (_pc (this w)) →
       addDataChannel (dc_label d) w' = (Throw ChannelAlreadyExistsError, w')).
Proof.
  intros Hd Hremote ev Hev.
  assert (∀ w', this w' = this w → find_channel w' (dc_label d) = find_channel w (dc_label d) →
            id ∈ _dataChannels (this w) → is_Some (_pc (this w)) →
            addDataChannel (dc_label d) w' = (Throw ChannelAlreadyExistsError, w')) as Hadd.
  { intros w' Hthis Hfind Hin [p Hpc]. unfold addDataChannel, _findDataChannel. unbind.
    rewrite Hthis, Hpc, Hfind. by destruct (find_channel_is_Some w id d Hin Hd) as [x ->]. }
  destruct Hev as [-> | ->]; unfold step, readyState_of, dc_onclose, dc_onerror, handlers_of,
    _traceLog; unbind; rewrite ?Hd.
  - destruct (dc_readyState d) eqn:Hst; cbv beta iota; simpl.
    4: { exists w. split; [done|]. split; [done|]. by apply Hadd. }
    all: rewrite list_lookup_alter_eq, Hd; simpl; rewrite Hremote.
    all: destruct (debug (this w)); simpl.
    all: eexists; (split; [reflexivity|]); (split; [done|]).
    all: apply Hadd; [done|].
    all: first [apply (find_channel_alter_readyState (log _ w)) | apply find_channel_alter_readyState].
  - rewrite Hremote. destruct (debug (this w)); simpl.
    all: eexists; (split; [reflexivity|]); (split; [done|]).
    all: by apply Hadd.
Qed.

Lemma remote_channel_stays_registered_witness :
  ∃ w', step 1 (ChannelClose 1) chatting = (Ok tt, w')
    ∧ _dataChannels (this w') = _dataChannels (this chatting)
    ∧ (1 ∈ _dataChannels (this chatting) → is_Some (_pc (this chatting)) →
       addDataChannel "chat" w' = (Throw ChannelAlreadyExistsError, w')).
Proof.
  apply (remote_channel_stays_registered 1 1
           {| dc_label := "chat"; dc_readyState := DcOpen; dc_handlers := RemoteHandlers |}
           chatting); [by vm_compute | by vm_compute | by left].
Defined.



(** ** The socket and [connect] *)

(** X11.  [connect] on a connection without socket and engine sends
    nothing: it leaves a socket that is connecting, with the close handler of
    line 340 (the one of line 276 has been replaced before it could run), and
    a pending promise.  When the socket opens, exactly one message is sent
    on it: the register message with the room, the client id of the options
    and the metadata given to [connect]. *)
Theorem connect_registers_on_open rounds s authn w :
  _ws (this w) = None → _pc (this w) = None → socket_constructible (env w) = true →
  ∃ w1 w2 sock,
    connect s authn w = (Ok tt, w1)
    ∧ trace w1 = trace w ∧ connecting w1 = Some Unsettled
    ∧ _ws (this w1) = Some sock ∧ ws_readyState sock = CONNECTING
    ∧ ws_onclose sock = OnCloseBeforeAccept
    ∧ step rounds SocketOpen w1 = (Ok tt, w2)
    ∧ trace w2 = (trace w ++ [WsSend (RegisterMessage (roomId (this w))
                                        (o_clientId (options (this w))) authn)])%list.
Proof.
  intros Hws Hpc Hsock. open_world w.
  unfold connect, _signaling, settle, step, ws_onopen_handler, _sendWs, ws_send. steps.
  rewrite Hsock. simpl. by eexists _, _, _.
Qed.

Lemma connect_registers_on_open_witness :
  ∃ w1 w2 sock,
    connect None (Some "token") fresh = (Ok tt, w1)
    ∧ trace w1 = trace fresh ∧ connecting w1 = Some Unsettled
    ∧ _ws (this w1) = Some sock ∧ ws_readyState sock = CONNECTING
    ∧ ws_onclose sock = OnCloseBeforeAccept
    ∧ step 1 SocketOpen w1 = (Ok tt, w2)
    ∧ trace w2 = (trace fresh ++ [WsSend (RegisterMessage (roomId (this fresh))
                                            (o_clientId (options (this fresh)))
                                            (Some "token"))])%list.
Proof. apply (connect_registers_on_open 1 None (Some "token") fresh); reflexivity. Defined.

Lemma _sendOffer_sends w p s text :
  _pc (this w) = Some p → _ws (this w) = Some s → ws_readyState s = OPEN →
  createOffer_result (env w) = Some text → setLocalDescription_ok (env w) = true →
  ∃ p' cn,
    _sendOffer w
    = (Ok tt, set_console cn (with_this (set_pc (Some p'))
                                (emit (WsSend (Description (offered w text))) w)))
    ∧ pc_localDescription p' = Some (offered w text)
    ∧ pc_closed p' = pc_closed p.
Proof.
  intros Hpc Hws Hopen Hoffer Hlocal. open_world w.
  unfold _sendOffer, createOffer, setLocalDescription, localDescription, _sendSdp, _sendWs,
    ws_send, _traceLog, set_console, offered.
  steps.
  destruct (bool_decide (browser the_env = "safari")); simpl.
  all: try (destruct (v_enabled (o_video the_options)
                      && bool_decide (v_direction (o_video the_options) = sendrecv)); simpl).
  all: try (destruct (a_enabled (o_audio the_options)
                      && bool_decide (a_direction (o_audio the_options) = sendrecv)); simpl).
  all: rewrite Hoffer; simpl; destruct the_debug; simpl; rewrite Hlocal; simpl; rewrite Hopen.
  all: destruct the_removeCodec, (v_codec (o_video the_options)); simpl.
  all: eexists _, _; (split; [reflexivity|]); by split.
Qed.

(** X12.  An accept message handled to its end fulfils the pending
    [connect()] and replaces the close handler of the socket by that of line
    311.  It leaves an engine that is not closed and has the offer as its
    local description, and one more channel, labelled ["dataChannel"], still
    connecting and not yet in the registry. *)
Theorem accept_fulfils_connect rounds w o s cb text :
  j_type o = Some "accept" →
  _ws (this w) = Some s → ws_readyState s = OPEN →
  match _pc (this w) with
  | Some p => pc_closed p = false
  | None => engine_constructible (env w) = true
  end →
  find_channel w "dataChannel" = None →
  createOffer_result (env w) = Some text →
  setLocalDescription_ok (env w) = true →
  own (_callbacks (this w)) !! "connect" = Some cb →
  connecting w = Some Unsettled →
  ∃ w' p d,
    ws_onmessage_handler rounds (Text (Some (JObj o))) w = (Ok tt, w')
    ∧ connecting w' = Some Fulfilled
    ∧ _ws (this w') = Some (ws_set_onclose OnCloseAfterAccept s)
    ∧ _pc (this w') = Some p ∧ pc_closed p = false
    ∧ pc_localDescription p = Some d ∧ sd_type d = offer
    ∧ channels w' = (channels w ++ [{| dc_label := "dataChannel"; dc_readyState := DcConnecting;
                                        dc_handlers := LocalHandlers |}])%list
    ∧ _dataChannels (this w') = _dataChannels (this w).
Proof.
  intros Hty Hws Hopen Hpc Hfind Hoffer Hlocal Hcb Hconn.
  assert (∃ w' p d, dispatch rounds o w = (Ok tt, w')
    ∧ connecting w' = Some Fulfilled
    ∧ _ws (this w') = Some (ws_set_onclose OnCloseAfterAccept s)
    ∧ _pc (this w') = Some p ∧ pc_closed p = false
    ∧ pc_localDescription p = Some d ∧ sd_type d = offer
    ∧ channels w' = (channels w ++ [{| dc_label := "dataChannel"; dc_readyState := DcConnecting;
                                        dc_handlers := LocalHandlers |}])%list
    ∧ _dataChannels (this w') = _dataChannels (this w)) as (w' & p & d & Hrun & Hrest).
  2: { exists w', p, d. unfold ws_onmessage_handler. by rewrite (try_catch_ok _ _ _ _ _ Hrun). }
  rewrite (dispatch_accept _ _ Hty). next.
  destruct (_pc (this w)) as [p|] eqn:Hp.
  - next.
    rewrite (bind_ok _ _ _ _ _ (addDataChannel_spec "dataChannel" w p Hp Hpc Hfind)).
    match goal with |- context [bind _sendOffer _ ?W] =>
      destruct (_sendOffer_sends W p s text) as (p' & cn & Hsend & Hd & Hclosed); try done end.
    rewrite (bind_ok _ _ _ _ _ Hsend).
    match goal with |- context [bind (invoke ?k ?a) _ ?W] =>
      rewrite (bind_ok _ _ _ _ _ (invoke_ok k a W cb Hcb)) end.
    next. rewrite settle_unsettled by exact Hconn.
    eexists _, p', _. split; [reflexivity|]. simpl. rewrite Hws, Hclosed, Hd. by repeat split.
  - rewrite bind_assoc.
    destruct (_createPeerConnection_spec w Hpc) as (p & rc & cn0 & Hcreate & Hclosed0).
    rewrite (bind_ok _ _ _ _ _ Hcreate). next.
    match goal with |- context [bind (addDataChannel ?l) _ ?W] =>
      rewrite (bind_ok _ _ _ _ _ (addDataChannel_spec l W p eq_refl Hclosed0 Hfind)) end.
    match goal with |- context [bind _sendOffer _ ?W] =>
      destruct (_sendOffer_sends W p s text) as (p' & cn & Hsend & Hd & Hclosed); try done end.
    rewrite (bind_ok _ _ _ _ _ Hsend).
    match goal with |- context [bind (invoke ?k ?a) _ ?W] =>
      rewrite (bind_ok _ _ _ _ _ (invoke_ok k a W cb Hcb)) end.
    next. rewrite settle_unsettled by exact Hconn.
    eexists _, p', _. split; [reflexivity|]. simpl. rewrite Hws, Hclosed, Hd. by repeat split.
Qed.

Lemma accept_fulfils_connect_witness :
  ∃ w' p d,
    ws_onmessage_handler 1 (frame "accept") registering = (Ok tt, w')
    ∧ connecting w' = Some Fulfilled
    ∧ _ws (this w')
      = Some (ws_set_onclose OnCloseAfterAccept
                {| ws_readyState := OPEN; ws_onclose := OnCloseBeforeAccept;
                   ws_onmessage := true; ws_closeDelay := 0 |})
    ∧ _pc (this w') = Some p ∧ pc_closed p = false
    ∧ pc_localDescription p = Some d ∧ sd_type d = offer
    ∧ channels w' = (channels registering
                     ++ [{| dc_label := "dataChannel"; dc_readyState := DcConnecting;
                            dc_handlers := LocalHandlers |}])%list
    ∧ _dataChannels (this w') = _dataChannels (this registering).
Proof.
  apply (accept_fulfils_connect 1 registering (message_of_type "accept")
           {| ws_readyState := OPEN; ws_onclose := OnCloseBeforeAccept; ws_onmessage := true;
              ws_closeDelay := 0 |} Initial "v=0 (offer)"); by vm_compute.
Defined.

(** X13.  When the socket closes, the connection is torn down and the
    subscriber of disconnect is called: with the bare close event before the
    accept, with the reason WS-CLOSED after it.  The promise of [connect()]
    is not touched: a socket that closes before the accept leaves it
    pending. *)
Theorem socket_close_is_reported rounds w s cb :
  _ws (this w) = Some s → ws_readyState s ≠ CLOSED → ws_delay w < rounds →
  own (_callbacks (this w)) !! "disconnect" = Some cb →
  ws_onclose s = OnCloseBeforeAccept ∨ ws_onclose s = OnCloseAfterAccept →
  let arg := match ws_onclose s with
             | OnCloseAfterAccept => Disconnected "WS-CLOSED" None
             | _ => RawCloseEvent
             end in
  ∃ w', step rounds SocketClose w = (Ok tt, w')
    ∧ trace w' = (trace w ++ stops w ++ [Fire "disconnect" cb arg])%list
    ∧ cleared w' ∧ connecting w' = connecting w.
Proof.
  intros Hws Hopen Hd Hcb Hh arg. subst arg. unfold ws_delay in Hd. open_world w.
  unfold step, ws_onclose_handler. unbind. simpl.
  rewrite (bool_decide_eq_false_2 _ Hopen).
  destruct Hh as [-> | ->]; simpl.
  all: rewrite disconnect_alone by exact Hd; erewrite invoke_ok by exact Hcb.
  all: eexists; (split; [reflexivity|]); unfold stops; simpl; rewrite <- ?app_assoc;
    by repeat split.
Qed.

Lemma socket_close_is_reported_witness :
  ∃ w', step 1 SocketClose registering = (Ok tt, w')
    ∧ trace w' = (trace registering ++ stops registering
                  ++ [Fire "disconnect" Initial RawCloseEvent])%list
    ∧ cleared w' ∧ connecting w' = Some Unsettled.
Proof.
  apply (socket_close_is_reported 1 registering
           {| ws_readyState := OPEN; ws_onclose := OnCloseBeforeAccept; ws_onmessage := true;
              ws_closeDelay := 0 |} Initial);
    [by vm_compute | discriminate | vm_compute; lia | by vm_compute | by left].
Defined.



(** ** Teardown *)

(** X15.  After a completed [disconnect] the same object connects again:
    [connect] is accepted, opens a new socket and leaves a pending promise,
    and the subscribers are those that were registered before the
    teardown. *)
Theorem reconnect_after_teardown rounds s authn w :
  ws_delay w < rounds → socket_constructible (env w) = true →
  ∃ w1 w2 sock,
    disconnect rounds w = (Ok tt, w1)
    ∧ connect s authn w1 = (Ok tt, w2)
    ∧ _ws (this w2) = Some sock ∧ ws_readyState sock = CONNECTING
    ∧ connecting w2 = Some Unsettled
    ∧ stream (this w2) = s ∧ authnMetadata (this w2) = authn
    ∧ _callbacks (this w2) = _callbacks (this w).
Proof.
  intros Hd Hsock. rewrite disconnect_alone by exact Hd. exists (torn_down w).
  unfold connect, _signaling, settle, torn_down. clear Hd. open_world w. steps.
  rewrite Hsock. simpl. by eexists _, _.
Qed.

Lemma reconnect_after_teardown_witness :
  ∃ w1 w2 sock,
    disconnect 1 established = (Ok tt, w1)
    ∧ connect (Some camera) None w1 = (Ok tt, w2)
    ∧ _ws (this w2) = Some sock ∧ ws_readyState sock = CONNECTING
    ∧ connecting w2 = Some Unsettled
    ∧ stream (this w2) = Some camera ∧ authnMetadata (this w2) = None
    ∧ _callbacks (this w2) = _callbacks (this established).
Proof.
  apply (reconnect_after_teardown 1 (Some camera) None established); [vm_compute; lia | reflexivity].
Defined.

Lemma dc_close_idempotent d : dc_close (dc_close d) = dc_close d.
Proof. unfold dc_close. by destruct d as [l [] h]. Qed.

Lemma close_all_lookup (l : list nat) (chs : list DataChannel) (id : nat) :
  foldl (λ chs id, alter dc_close id chs) chs l !! id
  = if bool_decide (id ∈ l) then dc_close <$> chs !! id else chs !! id.
Proof.
  revert chs. induction l as [|x l IH]; intros chs; simpl; [done|].
  rewrite IH. destruct (decide (x = id)) as [->|Hne].
  - rewrite list_lookup_alter_eq, (bool_decide_eq_true_2 (id ∈ id :: l)) by left.
    case_bool_decide; [|done]. destruct (chs !! id); simpl; [|done].
    by rewrite dc_close_idempotent.
  - rewrite list_lookup_alter_ne by done.
    apply (f_equal (λ b : bool, if b then dc_close <$> chs !! id else chs !! id)).
    apply bool_decide_ext. rewrite elem_of_cons. intuition congruence.
Qed.

(** X16.  A completed [disconnect] has called [close()] on every
    registered data channel and [stop()] on every track of the local stream,
    each once and in the order in which the stream lists them, whatever that
    is; it has called no subscriber and left the callback table as it was. *)
Theorem disconnect_closes_channels_and_stops_tracks rounds w :
  ws_delay w < rounds →
  ∃ w' stopped,
    disconnect rounds w = (Ok tt, w')
    ∧ trace w' = (trace w ++ stopped)%list
    ∧ stopped ≡ₚ TrackStop <$> from_option getTracks [] (stream (this w))
    ∧ (∀ id d, id ∈ _dataChannels (this w) → channels w !! id = Some d →
               channels w' !! id = Some (dc_close d))
    ∧ _callbacks (this w') = _callbacks (this w).
Proof.
  intros Hd. exists (torn_down w), (stops w). split; [by apply disconnect_alone|].
  split; [done|]. split; [|split; [|done]].
  - unfold stops. by destruct (stream (this w)).
  - intros id d Hin Hlook. simpl.
    unfold close_registered. rewrite close_all_lookup, (bool_decide_eq_true_2 _ Hin), Hlook. done.
Qed.

(** With the camera on: both its tracks are stopped, and the default
    channel is closing. *)
Lemma disconnect_closes_channels_and_stops_tracks_witness :
  ∃ w' stopped,
    disconnect 1 on_air = (Ok tt, w')
    ∧ trace w' = (trace on_air ++ stopped)%list
    ∧ stopped ≡ₚ [TrackStop 1; TrackStop 2]
    ∧ channels w' !! 0 = Some {| dc_label := "dataChannel"; dc_readyState := DcClosing;
                                 dc_handlers := LocalHandlers |}
    ∧ _callbacks (this w') = _callbacks (this on_air).
Proof.
  destruct (disconnect_closes_channels_and_stops_tracks 1 on_air) as
    (w' & stopped & Hrun & Htrace & Hstopped & Hclosed & Hcb); [vm_compute; lia|].
  exists w', stopped. split; [exact Hrun|]. split; [exact Htrace|]. split; [exact Hstopped|].
  split; [|exact Hcb].
  apply (Hclosed 0 {| dc_label := "dataChannel"; dc_readyState := DcOpen;
                      dc_handlers := LocalHandlers |}); [vm_compute; by left | by vm_compute].
Defined.

(** ** Signaling messages *)

(** The [catch] of line 332. *)
Lemma signaling_error rounds (body : M unit) e w w1 cb :
  body w = (Throw e, w1) → ws_delay w1 < rounds →
  own (_callbacks (this w1)) !! "disconnect" = Some cb →
  try_catch body
    (fun error =>
       disconnect rounds ;;
       invoke "disconnect" (Disconnected "SIGNALING-ERROR" (Some error))) w
  = (Ok tt, emit (Fire "disconnect" cb (Disconnected "SIGNALING-ERROR" (Some e))) (torn_down w1)).
Proof.
  intros Hbody Hd Hcb. unfold try_catch. rewrite Hbody. unbind.
  rewrite (disconnect_alone rounds w1 Hd). by rewrite (invoke_ok _ _ _ cb) by exact Hcb.
Qed.

(** X17.  A ping received on the open socket is answered with one pong,
    and nothing else changes. *)
Theorem ping_is_answered rounds w o s :
  j_type o = Some "ping" → _ws (this w) = Some s → ws_readyState s = OPEN →
  ws_onmessage_handler rounds (Text (Some (JObj o))) w = (Ok tt, emit (WsSend Pong) w).
Proof.
  intros Hty Hws Hopen. unfold ws_onmessage_handler, dispatch, _sendWs, ws_send.
  rewrite Hty. simpl. unbind. by rewrite Hws, Hopen.
Qed.

Lemma ping_is_answered_witness :
  ws_onmessage_handler 1 (frame "ping") established = (Ok tt, emit (WsSend Pong) established).
Proof.
  apply (ping_is_answered 1 established (message_of_type "ping")
           {| ws_readyState := OPEN; ws_onclose := OnCloseAfterAccept; ws_onmessage := true;
              ws_closeDelay := 0 |}); by vm_compute.
Defined.

(** X18.  A message whose type is none of the seven that the handler has
    a branch for, a candidate message without [ice], and a text frame that
    parses to a number, a string or a boolean are ignored: the handler
    returns and the world is the same. *)
Theorem unknown_message_is_ignored rounds w o :
  j_type o ∉ Some <$> message_types ∨ (j_type o = Some "candidate" ∧ j_ice o = None) →
  ws_onmessage_handler rounds (Text (Some (JObj o))) w = (Ok tt, w)
  ∧ ws_onmessage_handler rounds (Text (Some JPrimitive)) w = (Ok tt, w).
Proof.
  intros Hty. split; [|reflexivity].
  unfold ws_onmessage_handler, dispatch. destruct Hty as [Hty | [Hty Hice]].
  - rewrite !bool_decide_eq_false_2; [done|..]; intros Heq; apply Hty; rewrite Heq;
      unfold message_types; simpl; rewrite !elem_of_cons; tauto.
  - rewrite Hty, Hice. reflexivity.
Qed.

Lemma unknown_message_is_ignored_witness :
  ws_onmessage_handler 1 (frame "bye") established = (Ok tt, established)
  ∧ ws_onmessage_handler 1 (Text (Some JPrimitive)) established = (Ok tt, established).
Proof.
  apply (unknown_message_is_ignored 1 established (message_of_type "bye")).
  left. apply (bool_decide_unpack _). by vm_compute.
Defined.

(** X19.  A text frame that is not JSON, and the frame [null], are
    signaling errors: the connection is torn down and the subscriber of
    disconnect is called with the reason SIGNALING-ERROR and the error
    thrown, the SyntaxError of [JSON.parse] or the TypeError of reading
    [type] of [null]. *)
Theorem malformed_message_is_a_signaling_error rounds w cb :
  ws_delay w < rounds → own (_callbacks (this w)) !! "disconnect" = Some cb →
  let reported (e : Error) :=
    (Ok tt, emit (Fire "disconnect" cb (Disconnected "SIGNALING-ERROR" (Some e))) (torn_down w)) in
  ws_onmessage_handler rounds (Text None) w = reported (JsError "SyntaxError" "JSON.parse")
  ∧ ws_onmessage_handler rounds (Text (Some JNull)) w = reported (NullDereference "type").
Proof.
  intros Hd Hcb reported. subst reported. cbv beta.
  unfold ws_onmessage_handler. split; by apply signaling_error.
Qed.

Lemma malformed_message_is_a_signaling_error_witness :
  ws_onmessage_handler 1 (Text None) established
  = (Ok tt, emit (Fire "disconnect" Initial
                    (Disconnected "SIGNALING-ERROR" (Some (JsError "SyntaxError" "JSON.parse"))))
              (torn_down established))
  ∧ ws_onmessage_handler 1 (Text (Some JNull)) established
    = (Ok tt, emit (Fire "disconnect" Initial
                      (Disconnected "SIGNALING-ERROR" (Some (NullDereference "type"))))
                (torn_down established)).
Proof.
  apply (malformed_message_is_a_signaling_error 1 established Initial);
    [vm_compute; lia | by vm_compute].
Defined.

(** X20.  [_addIceCandidate] never fails: whether there is an engine or
    not, and whether the engine takes the candidate or rejects it, the call
    returns, and nothing but the console has changed. *)
Theorem invalid_candidate_is_ignored candidate w :
  ∃ cn, _addIceCandidate candidate w = (Ok tt, set_console cn w).
Proof.
  unfold _addIceCandidate, _traceLog. open_world w. steps.
  destruct the_debug, the_pc, (addIceCandidate_ok the_env); simpl; by eexists.
Qed.

Lemma dispatch_offer rounds o :
  j_type o = Some "offer" → dispatch rounds o = detached (_setOffer rounds (description_of offer o)).
Proof. intros H. unfold dispatch. rewrite H. reflexivity. Qed.

Lemma dispatch_answer rounds o :
  j_type o = Some "answer" → dispatch rounds o = _setAnswer (description_of answer o).
Proof. intros H. unfold dispatch. rewrite H. reflexivity. Qed.

(** X21.  An offer received on the open socket, with an engine that can be
    created, takes the offer and produces and applies an answer, is
    answered: a new engine is created, one answer is sent, and the engine is
    left with the offer as its remote and the answer as its local
    description.  No subscriber is called, and neither the socket nor the
    promise of [connect()] is touched. *)
Theorem offer_is_answered rounds w o s text :
  j_type o = Some "offer" →
  _ws (this w) = Some s → ws_readyState s = OPEN →
  engine_constructible (env w) = true → setRemoteDescription_ok (env w) = true →
  createAnswer_result (env w) = Some text → setLocalDescription_ok (env w) = true →
  let sent := {| sd_type := answer; sd_sdp := RawSdp text |} in
  ∃ w' p,
    ws_onmessage_handler rounds (Text (Some (JObj o))) w = (Ok tt, w')
    ∧ trace w' = (trace w ++ [NewPeerConnection; WsSend (Description sent)])%list
    ∧ _pc (this w') = Some p
    ∧ pc_remoteDescription p = Some (description_of offer o)
    ∧ pc_localDescription p = Some sent
    ∧ _ws (this w') = _ws (this w) ∧ connecting w' = connecting w.
Proof.
  intros Hty Hws Hopen Hengine Hremote Hanswer Hlocal sent. subst sent.
  unfold ws_onmessage_handler. rewrite (dispatch_offer _ _ Hty).
  destruct (_createPeerConnection_spec w Hengine) as (p & rc & cn & Hcreate & Hclosed).
  unfold _setOffer, detached, try_catch. rewrite (bind_ok _ _ _ _ _ Hcreate).
  clear Hcreate. open_world w.
  unfold _createAnswer, setRemoteDescription, createAnswer, setLocalDescription, localDescription,
    _sendSdp, _sendWs, ws_send, _traceLog, set_console.
  steps. rewrite Hremote. simpl. destruct the_debug; simpl.
  all: rewrite Hanswer; simpl; rewrite Hlocal; simpl; rewrite Hopen.
  all: eexists _, _; (split; [reflexivity|]); simpl; rewrite <- app_assoc; by repeat split.
Qed.

Lemma offer_is_answered_witness :
  ∃ w' p,
    ws_onmessage_handler 1 (frame "offer") registering = (Ok tt, w')
    ∧ trace w' = (trace registering
                  ++ [NewPeerConnection;
                      WsSend (Description {| sd_type := answer;
                                             sd_sdp := RawSdp "v=0 (answer)" |})])%list
    ∧ _pc (this w') = Some p
    ∧ pc_remoteDescription p = Some (description_of offer (message_of_type "offer"))
    ∧ pc_localDescription p = Some {| sd_type := answer; sd_sdp := RawSdp "v=0 (answer)" |}
    ∧ _ws (this w') = _ws (this registering) ∧ connecting w' = connecting registering.
Proof.
  apply (offer_is_answered 1 registering (message_of_type "offer")
           {| ws_readyState := OPEN; ws_onclose := OnCloseBeforeAccept; ws_onmessage := true;
              ws_closeDelay := 0 |} "v=0 (answer)"); by vm_compute.
Defined.

(** X22.  An offer that the engine refuses, or that it cannot answer,
    ends the connection: after the new engine has been created the
    connection is torn down and the subscriber of disconnect is called once,
    with the reason SET-OFFER-ERROR when the remote description was refused
    and CREATE-ANSWER-ERROR when the answer could not be produced or applied,
    and with the error thrown by the call of the engine that failed.  Nothing
    is sent. *)
Theorem offer_failure_is_reported rounds w o cb :
  j_type o = Some "offer" → ws_delay w < rounds → engine_constructible (env w) = true →
  own (_callbacks (this w)) !! "disconnect" = Some cb →
  setRemoteDescription_ok (env w) = false ∨ createAnswer_result (env w) = None
    ∨ setLocalDescription_ok (env w) = false →
  let tag := if setRemoteDescription_ok (env w) then "CREATE-ANSWER-ERROR" else "SET-OFFER-ERROR" in
  let refused := if setRemoteDescription_ok (env w)
                 then if createAnswer_result (env w) is Some _ then "setLocalDescription"
                      else "createAnswer"
                 else "setRemoteDescription" in
  ∃ w',
    ws_onmessage_handler rounds (Text (Some (JObj o))) w = (Ok tt, w')
    ∧ trace w' = (trace w ++ NewPeerConnection :: stops w
                    ++ [Fire "disconnect" cb
                          (Disconnected tag (Some (JsError "OperationError" refused)))])%list
    ∧ cleared w' ∧ connecting w' = connecting w.
Proof.
  intros Hty Hd Hengine Hcb Hfail tag refused. subst tag refused.
  unfold ws_onmessage_handler. rewrite (dispatch_offer _ _ Hty).
  destruct (_createPeerConnection_spec w Hengine) as (p & rc & cn & Hcreate & Hclosed).
  unfold _setOffer, detached, try_catch. rewrite (bind_ok _ _ _ _ _ Hcreate).
  clear Hcreate. unfold ws_delay in Hd. open_world w.
  unfold _createAnswer, setRemoteDescription, createAnswer, setLocalDescription, localDescription,
    _sendSdp, _traceLog, set_console.
  unbind. simpl.
  destruct (setRemoteDescription_ok the_env) eqn:Hremote; simpl.
  2: { rewrite disconnect_alone by exact Hd. erewrite invoke_ok by exact Hcb.
       eexists. split; [reflexivity|]. unfold stops. simpl. rewrite <- ?app_assoc.
       by repeat split. }
  destruct Hfail as [?|Hfail]; [done|].
  destruct the_debug; simpl.
  all: destruct (createAnswer_result the_env) as [text|] eqn:Hanswer; simpl.
  all: try (destruct Hfail as [?|Hlocal]; [done|]; rewrite Hlocal; simpl).
  all: rewrite disconnect_alone by exact Hd; erewrite invoke_ok by exact Hcb.
  all: eexists; (split; [reflexivity|]); unfold stops; simpl; rewrite <- ?app_assoc;
    by repeat split.
Qed.

Lemma offer_failure_is_reported_witness :
  (let w := snd (exec 1 [CallConnect None None; SocketOpen] (fresh_in deaf)) in
   ∃ w',
     ws_onmessage_handler 1 (frame "offer") w = (Ok tt, w')
     ∧ trace w' = (trace w ++ NewPeerConnection :: stops w
                     ++ [Fire "disconnect" Initial
                           (Disconnected "SET-OFFER-ERROR"
                              (Some (JsError "OperationError" "setRemoteDescription")))])%list
     ∧ cleared w' ∧ connecting w' = connecting w)
  ∧ (let w := snd (exec 1 [CallConnect None None; SocketOpen] (fresh_in answerless)) in
     ∃ w',
       ws_onmessage_handler 1 (frame "offer") w = (Ok tt, w')
       ∧ trace w' = (trace w ++ NewPeerConnection :: stops w
                       ++ [Fire "disconnect" Initial
                             (Disconnected "CREATE-ANSWER-ERROR"
                                (Some (JsError "OperationError" "createAnswer")))])%list
       ∧ cleared w' ∧ connecting w' = connecting w).
Proof.
  split.
  - apply (offer_failure_is_reported 1
             (snd (exec 1 [CallConnect None None; SocketOpen] (fresh_in deaf)))
             (message_of_type "offer") Initial);
      [reflexivity | vm_compute; lia | reflexivity | by vm_compute | by left].
  - apply (offer_failure_is_reported 1
             (snd (exec 1 [CallConnect None None; SocketOpen] (fresh_in answerless)))
             (message_of_type "offer") Initial);
      [reflexivity | vm_compute; lia | reflexivity | by vm_compute | right; by left].
Defined.

(** X23.  An answer is applied to the engine at hand as its remote
    description, and nothing is sent or called.  An answer that arrives
    while there is no engine, or that the engine refuses, is a signaling
    error: teardown, and the subscriber of disconnect called with the reason
    SIGNALING-ERROR. *)
Theorem answer_is_applied rounds w o :
  j_type o = Some "answer" →
  (∀ p, _pc (this w) = Some p → setRemoteDescription_ok (env w) = true →
     ∃ cn, ws_onmessage_handler rounds (Text (Some (JObj o))) w
           = (Ok tt, set_console cn (with_pc (pc_set_remote (description_of answer o)) w)))
  ∧ (∀ cb, _pc (this w) = None ∨ setRemoteDescription_ok (env w) = false →
       ws_delay w < rounds → own (_callbacks (this w)) !! "disconnect" = Some cb →
     ∃ e, ws_onmessage_handler rounds (Text (Some (JObj o))) w
          = (Ok tt, emit (Fire "disconnect" cb (Disconnected "SIGNALING-ERROR" (Some e)))
                         (torn_down w))).
Proof.
  intros Hty. unfold ws_onmessage_handler. rewrite (dispatch_answer _ _ Hty). split.
  - intros p Hpc Hok. open_world w. unfold _setAnswer, setRemoteDescription, _traceLog, set_console.
    steps. rewrite Hok. destruct the_debug; by eexists.
  - intros cb Hfail Hd Hcb.
    assert (∃ e, _setAnswer (description_of answer o) w = (Throw e, w)) as [e He].
    { unfold _setAnswer, setRemoteDescription. unbind.
      destruct (_pc (this w)); [|by eexists].
      destruct Hfail as [? | ->]; [done | by eexists]. }
    exists e. by apply signaling_error.
Qed.

Lemma answer_is_applied_witness :
  ∃ e, ws_onmessage_handler 1 (frame "answer") registering
       = (Ok tt, emit (Fire "disconnect" Initial (Disconnected "SIGNALING-ERROR" (Some e)))
                      (torn_down registering)).
Proof.
  apply (proj2 (answer_is_applied 1 registering (message_of_type "answer") eq_refl) Initial);
    [by left | vm_compute; lia | by vm_compute].
Defined.

(** ** The engine *)

Lemma carries_fresh k t : ¬ carries k t fresh_pc.
Proof. intros (tr & Hin & _). by apply elem_of_nil in Hin. Qed.

Lemma carries_addTrack k t k' t' p :
  carries k t (addTrack k' t' p) ↔ carries k t p ∨ (k = k' ∧ t = t').
Proof.
  unfold carries, addTrack. simpl. split.
  - intros (tr & Hin & Hk & Ht). apply elem_of_app in Hin as [Hin|Hin]; [left; eauto|].
    apply list_elem_of_singleton in Hin as ->. simpl in *. right. split; congruence.
  - intros [(tr & Hin & Hk & Ht) | [-> ->]].
    + exists tr. split; [apply elem_of_app; by left | done].
    + eexists. split; [apply elem_of_app; right; by apply list_elem_of_singleton | done].
Qed.

Lemma carries_addTransceiver k t k' d p :
  carries k t (addTransceiver k' d p) ↔ carries k t p.
Proof.
  unfold carries, addTransceiver. simpl. split.
  - intros (tr & Hin & Hk & Ht). apply elem_of_app in Hin as [Hin|Hin]; [eauto|].
    apply list_elem_of_singleton in Hin as ->. done.
  - intros (tr & Hin & Hk & Ht). exists tr. split; [apply elem_of_app; by left | done].
Qed.

Lemma carries_setCodecPreferences k t i c p :
  carries k t (setCodecPreferences i c p) ↔ carries k t p.
Proof.
  unfold carries, setCodecPreferences. simpl.
  set (f := λ tr, {| tr_kind := tr_kind tr; tr_direction := tr_direction tr;
                     tr_sender := tr_sender tr; tr_codecPreferences := Some c |}).
  split.
  - intros (tr & Hin & Hk & Ht). apply list_elem_of_lookup in Hin as [j Hj].
    destruct (decide (i = j)) as [->|Hne].
    + rewrite list_lookup_alter_eq in Hj. destruct (pc_transceivers p !! j) as [tr0|] eqn:H0; [|done].
      simpl in Hj. injection Hj as <-. exists tr0. split; [by eapply list_elem_of_lookup_2 | done].
    + rewrite list_lookup_alter_ne in Hj by done. exists tr.
      split; [by eapply list_elem_of_lookup_2 | done].
  - intros (tr & Hin & Hk & Ht). apply list_elem_of_lookup in Hin as [j Hj].
    destruct (decide (i = j)) as [->|Hne].
    + exists (f tr). split; [|done]. apply list_elem_of_lookup. exists j.
      by rewrite list_lookup_alter_eq, Hj.
    + exists tr. split; [|done]. apply list_elem_of_lookup. exists j.
      by rewrite list_lookup_alter_ne.
Qed.

Lemma carries_set_onice k t b p : carries k t (pc_set_onice b p) ↔ carries k t p.
Proof. reflexivity. Qed.

Lemma prefer_codec_carries o i p w p' w' :
  prefer_codec o i p w = (Ok p', w') → ∀ k t, carries k t p' ↔ carries k t p.
Proof.
  unfold prefer_codec, _traceLog. unbind.
  destruct (_isVideoCodecSpecified o); [destruct (has_setCodecPreferences (env w));
    [destruct (debug (this w))|]|]; simpl; intros [= <- <-] k t;
    first [apply carries_setCodecPreferences | reflexivity].
Qed.

(** X24.  The engine that [_createPeerConnection] returns sends a local
    track of a kind exactly when the stream given to [connect] has a track of
    that kind (its first one) and the direction configured for the kind is
    not recvonly.  The [enabled] flag of the kind plays no part in it. *)
Theorem local_track_is_sent_unless_recvonly w p w' k t :
  _createPeerConnection w = (Ok p, w') →
  carries k t p
  ↔ local_track k (this w) = Some t ∧ direction_of k (options (this w)) ≠ recvonly.
Proof.
  unfold _createPeerConnection. unbind.
  destruct (engine_constructible (env w)); simpl; [|done].
  set (o := options (this w)).
  set (ta := stream (this w) ≫= (λ s, head (audioTracks s))).
  set (pa := match ta with Some _ => _ | None => _ end).
  assert (∀ k t, carries k t pa ↔ k = audio ∧ ta = Some t ∧ a_direction (o_audio o) ≠ recvonly)
    as Hpa.
  { intros k0 t0. subst pa. pose proof (carries_fresh k0 t0).
    destruct ta as [t1|]; repeat case_match;
      rewrite ?carries_addTrack, ?carries_addTransceiver;
      try case_bool_decide; intuition congruence. }
  clearbody pa.
  set (tv := stream (this w) ≫= (λ s, head (videoTracks s))).
  match goal with |- (let (_, _) := ?m in _) = _ → _ =>
    destruct m as [[pv|e|] w1] eqn:Hv; [|done|done] end.
  intros [= <- <-].
  assert (∀ k t, carries k t pv
                 ↔ carries k t pa ∨ (k = video ∧ tv = Some t ∧ v_direction (o_video o) ≠ recvonly))
    as Hpv.
  { intros k0 t0. destruct tv as [t1|]; [case_bool_decide|]; try destruct (v_enabled (o_video o)).
    all: rewrite ?_getTransceiver_addTrack in Hv.
    all: try (apply prefer_codec_carries with (k := k0) (t := t0) in Hv; rewrite Hv).
    all: try (injection Hv as <- <-).
    all: rewrite ?carries_addTrack, ?carries_addTransceiver; intuition congruence. }
  rewrite carries_set_onice, Hpv, Hpa.
  destruct k; unfold local_track, direction_of; fold ta tv o; intuition congruence.
Qed.

Lemma local_track_is_sent_unless_recvonly_witness :
  let p := match fst (_createPeerConnection filming) with Ok p => p | _ => fresh_pc end in
  carries video 2 p
  ↔ local_track video (this filming) = Some 2
    ∧ direction_of video (options (this filming)) ≠ recvonly.
Proof.
  apply (local_track_is_sent_unless_recvonly filming _ (snd (_createPeerConnection filming))
           video 2).
  by vm_compute.
Defined.

Lemma alter_last {A} (f : A → A) (l : list A) x :
  alter f (length l) (l ++ [x])%list = (l ++ [f x])%list.
Proof. induction l as [|y l IH]; [done|]. simpl. f_equal. exact IH. Qed.

(** X25.  With video enabled and a codec chosen, the video transceiver is
    the last one of the engine that [_createPeerConnection] returns.  In a
    browser that has [setCodecPreferences] it is given the chosen codec as
    its preference, and [_removeCodec] is left alone; in a browser that
    has not, no transceiver gets a preference and [_removeCodec] is set. *)
Theorem codec_preference_or_fallback w p w' c :
  _createPeerConnection w = (Ok p, w') →
  v_enabled (o_video (options (this w))) = true →
  v_codec (o_video (options (this w))) = Some c →
  if has_setCodecPreferences (env w)
  then (∃ tr, last (pc_transceivers p) = Some tr ∧ tr_kind tr = video
              ∧ tr_codecPreferences tr = Some c)
       ∧ _removeCodec (this w') = _removeCodec (this w)
  else _removeCodec (this w') = true
       ∧ Forall (λ tr, tr_codecPreferences tr = None) (pc_transceivers p).
Proof.
  unfold _createPeerConnection. unbind.
  destruct (engine_constructible (env w)); simpl; [|done].
  set (o := options (this w)).
  set (ta := stream (this w) ≫= (λ s, head (audioTracks s))).
  set (pa := match ta with Some _ => _ | None => _ end).
  assert (Forall (λ tr, tr_codecPreferences tr = None) (pc_transceivers pa)) as Hnone.
  { subst pa. destruct ta; repeat case_match; simpl; repeat constructor. }
  clearbody pa.
  intros Hrun Hen Hcodec. revert Hrun.
  unfold prefer_codec, _isVideoCodecSpecified, _traceLog. unbind. rewrite Hen, Hcodec. simpl.
  destruct (stream (this w) ≫= (λ s, head (videoTracks s))) as [t|];
    [case_bool_decide|]; rewrite ?_getTransceiver_addTrack; simpl.
  all: destruct (has_setCodecPreferences (env w)); simpl; try destruct (debug (this w)); simpl.
  all: intros [= <- <-]; simpl.
  all: unfold setCodecPreferences, addTrack, addTransceiver; simpl; rewrite ?alter_last.
  all: split; first [done | by rewrite last_snoc; eexists | idtac].
  all: apply Forall_app; split; [exact Hnone | by repeat constructor].
Qed.

Lemma codec_preference_or_fallback_witness :
  let p := match fst (_createPeerConnection filming) with Ok p => p | _ => fresh_pc end in
  let w' := snd (_createPeerConnection filming) in
  if has_setCodecPreferences (env filming)
  then (∃ tr, last (pc_transceivers p) = Some tr ∧ tr_kind tr = video
              ∧ tr_codecPreferences tr = Some H264)
       ∧ _removeCodec (this w') = _removeCodec (this filming)
  else _removeCodec (this w') = true
       ∧ Forall (λ tr, tr_codecPreferences tr = None) (pc_transceivers p).
Proof.
  apply (codec_preference_or_fallback filming _ (snd (_createPeerConnection filming)) H264);
    by vm_compute.
Defined.

Lemma strip_codecs_removes keep s c :
  c ∈ removed_codecs (strip_codecs keep s) ↔ c ∈ removed_codecs s ∨ c ≠ keep.
Proof.
  unfold strip_codecs.
  destruct keep; simpl; rewrite !elem_of_app, !list_elem_of_singleton;
    destruct c; intuition congruence.
Qed.

(** X26.  Once [_removeCodec] is set and a codec is chosen, the offer that
    [_sendOffer] sends, and makes the local description of the engine, is the
    one the engine produced with the codecs of VP8, VP9 and H264 taken out of
    it in this order, but the chosen one, which is left in. *)
Theorem offer_keeps_only_the_chosen_codec w p s text keep :
  _pc (this w) = Some p → _ws (this w) = Some s → ws_readyState s = OPEN →
  createOffer_result (env w) = Some text → setLocalDescription_ok (env w) = true →
  _removeCodec (this w) = true → v_codec (o_video (options (this w))) = Some keep →
  let sent := {| sd_type := offer; sd_sdp := strip_codecs keep (RawSdp text) |} in
  ∃ w' p',
    _sendOffer w = (Ok tt, w')
    ∧ trace w' = (trace w ++ [WsSend (Description sent)])%list
    ∧ _pc (this w') = Some p' ∧ pc_localDescription p' = Some sent
    ∧ ∀ c, c ∈ removed_codecs (sd_sdp sent) ↔ c ≠ keep.
Proof.
  intros Hpc Hws Hopen Hoffer Hlocal Hrc Hcodec sent.
  destruct (_sendOffer_sends w p s text) as (p' & cn & -> & Hdesc & _); try done.
  revert Hdesc. unfold offered. rewrite Hrc, Hcodec. intros Hdesc.
  eexists _, p'. split; [reflexivity|]. split; [done|]. split; [done|]. split; [exact Hdesc|].
  intros c. subst sent. simpl. rewrite strip_codecs_removes. simpl. rewrite elem_of_nil. tauto.
Qed.

Lemma offer_keeps_only_the_chosen_codec_witness :
  let sent := {| sd_type := offer;
                 sd_sdp := removeCodec (removeCodec (RawSdp "v=0 (offer)") VP8) VP9 |} in
  ∃ w' p',
    _sendOffer accepted_legacy = (Ok tt, w')
    ∧ trace w' = (trace accepted_legacy ++ [WsSend (Description sent)])%list
    ∧ _pc (this w') = Some p' ∧ pc_localDescription p' = Some sent
    ∧ ∀ c, c ∈ removed_codecs (sd_sdp sent) ↔ c ≠ H264.
Proof.
  apply (offer_keeps_only_the_chosen_codec accepted_legacy
           (default fresh_pc (_pc (this accepted_legacy)))
           {| ws_readyState := OPEN; ws_onclose := OnCloseAfterAccept; ws_onmessage := true;
              ws_closeDelay := 0 |} "v=0 (offer)" H264); by vm_compute.
Defined.

(** X27.  While the engine and the socket are open, each candidate that
    the engine finds is sent to the peer as one candidate message; the event
    that ends the candidates sends nothing.  Nothing else changes, but for
    the console. *)
Theorem ice_candidates_are_forwarded rounds w p s :
  _pc (this w) = Some p → pc_closed p = false →
  _ws (this w) = Some s → ws_readyState s = OPEN →
  (∀ c, ∃ cn, step rounds (EngineIceCandidate (Some c)) w
              = (Ok tt, set_console cn (emit (WsSend (Candidate c)) w)))
  ∧ ∃ cn, step rounds (EngineIceCandidate None) w = (Ok tt, set_console cn w).
Proof.
  intros Hpc Hclosed Hws Hopen. open_world w.
  unfold step, pc_onicecandidate, _sendIceCandidate, _sendWs, ws_send, _traceLog, set_console.
  steps. rewrite Hclosed. simpl. split; [intros c|]; destruct the_debug; simpl; rewrite ?Hopen;
    by eexists.
Qed.

Lemma ice_candidates_are_forwarded_witness :
  (∀ c, ∃ cn, step 1 (EngineIceCandidate (Some c)) established
              = (Ok tt, set_console cn (emit (WsSend (Candidate c)) established)))
  ∧ ∃ cn, step 1 (EngineIceCandidate None) established = (Ok tt, set_console cn established).
Proof.
  apply (ice_candidates_are_forwarded 1 established
           (default fresh_pc (_pc (this established)))
           {| ws_readyState := OPEN; ws_onclose := OnCloseAfterAccept; ws_onmessage := true;
              ws_closeDelay := 0 |}); by vm_compute.
Defined.
